(** * shooterFocus: the simulation loop of [main.js]

    A shallow embedding of the state and of the event listeners of
    [src/main.js] (pointer lock, mouse look, keyboard, shooting, the focus
    mode toggle and the per-frame [update]), of the generation of the city,
    and the properties of the per-frame loop.

    Conventions.
    - A JavaScript number is an IEEE 754 binary64 value: Rocq's primitive
      [float], whose operations round exactly as JavaScript's [+ - * /],
      [Math.sqrt] and [Math.abs] do.  [a > b] is written [b <? a].
    - [Math.sin], [Math.cos], [Math.pow], [Math.random], the raycaster, the
      camera's world direction and [window.devicePixelRatio] belong to the
      JavaScript engine, the browser or three.js: they are the fields of an
      environment [Env] over which everything is parametrised.  A reading of
      [Date.now()] is an argument of the function that takes it.
    - A three.js object is known by an identifier ([objId]) handed out in
      creation order; the scene is the list of the identifiers of its
      children.
    - Left out: what is only drawn (textures, materials, shadows, the
      crosshair flash of [showHitFeedback], the animation mixer), and the
      models that arrive later over the network or from the file input (the
      soldier with its gun, imported geometry).  The player is the capsule
      the script starts with; a gun, once attached, is the field [p_gun]. *)

From Stdlib Require Import Floats ZArith Lia.
From stdpp Require Import gmap strings list.

Set Warnings "-inexact-float".

(** ** Numbers *)

Module Num.

(** [x || 1]: the left operand unless it is falsy (0, -0 or NaN). *)
Definition orOne (x : float) : float :=
  if (PrimFloat.eqb x 0 || PrimFloat.is_nan x)%bool then 1%float else x.

(** [Math.max(a, b)] for two arguments: NaN if either is NaN, and +0 is
    larger than -0. *)
Definition Math_max (a b : float) : float :=
  if (PrimFloat.is_nan a || PrimFloat.is_nan b)%bool then PrimFloat.nan
  else if (a <? b)%float then b
  else if (b <? a)%float then a
  else if (PrimFloat.is_zero a && PrimFloat.get_sign a)%bool then b else a.

(** [Math.min(a, b)] for two arguments. *)
Definition Math_min (a b : float) : float :=
  if (PrimFloat.is_nan a || PrimFloat.is_nan b)%bool then PrimFloat.nan
  else if (a <? b)%float then a
  else if (b <? a)%float then b
  else if (PrimFloat.is_zero a && negb (PrimFloat.get_sign a))%bool then b else a.

Definition Math_PI : float := 3.141592653589793%float.

End Num.
Export Num.

(** ** THREE.Vector3 *)

Record Vec3 := mkVec3 { vx : float; vy : float; vz : float }.

Module Vector3.

Definition add (a b : Vec3) : Vec3 :=
  mkVec3 (vx a + vx b) (vy a + vy b) (vz a + vz b).

Definition multiplyScalar (v : Vec3) (k : float) : Vec3 :=
  mkVec3 (vx v * k) (vy v * k) (vz v * k).

Definition divideScalar (v : Vec3) (k : float) : Vec3 :=
  multiplyScalar v (1 / k).

Definition lengthSq (v : Vec3) : float :=
  (vx v * vx v + vy v * vy v + vz v * vz v)%float.

Definition length (v : Vec3) : float := PrimFloat.sqrt (lengthSq v).

Definition normalize (v : Vec3) : Vec3 := divideScalar v (orOne (length v)).

Definition distanceToSquared (a b : Vec3) : float :=
  let dx := (vx a - vx b)%float in
  let dy := (vy a - vy b)%float in
  let dz := (vz a - vz b)%float in
  (dx * dx + dy * dy + dz * dz)%float.

Definition distanceTo (a b : Vec3) : float :=
  PrimFloat.sqrt (distanceToSquared a b).

Definition setY (v : Vec3) (y : float) : Vec3 := mkVec3 (vx v) y (vz v).

End Vector3.

(** ** Scene objects *)

Definition objId := nat.

Inductive Geometry :=
| BoxGeometry (width height depth : float)
| PlaneGeometry (width height : float).

Inductive Orientation :=
| Unrotated
| RotationX (angle : float)
| LookAt (target : Vec3).

(** A static mesh of the world: the ground, a building, a stair step or a
    bridge. *)
Record Mesh := mkMesh {
  m_id : objId;
  m_geometry : Geometry;
  m_position : Vec3;
  m_orientation : Orientation
}.

(** [new THREE.Color().setHSL(h, s, l)], kept as its three arguments. *)
Record Color := mkColor { hue : float; saturation : float; lightness : float }.

Record Camera := mkCamera {
  c_position : Vec3;
  c_lookAt : Vec3;      (* the argument of the last [camera.lookAt] *)
  c_fov : float
}.

Record Fog := mkFog { fog_near : float; fog_far : float }.

(** The ray of the shared [raycaster]: origin, direction and [far]. *)
Record Ray := mkRay { ray_origin : Vec3; ray_direction : Vec3; ray_far : float }.

(** An entry of the array [raycaster.intersectObjects] returns. *)
Record Intersection := mkIntersection {
  hit_distance : float;
  hit_point : Vec3;
  hit_normal : Vec3;    (* hit.face.normal *)
  hit_object : objId    (* hit.object *)
}.

(** ** Game entities *)

Record Player := mkPlayer {
  p_position : Vec3;        (* player.mesh.position *)
  p_rotationY : float;      (* player.mesh.rotation.y *)
  p_velocity : Vec3;
  p_onGround : bool;
  p_yaw : float;
  p_pitch : float;
  p_recoil : option float;  (* [None]: player.recoil is undefined *)
  p_gun : option float      (* player.gun.position.z, [None] without a gun *)
}.

Record Target := mkTarget {
  t_mesh : objId;
  t_position : Vec3;        (* target.mesh.position *)
  t_lookAt : option Vec3;   (* the argument of the last target.mesh.lookAt *)
  t_bullseye : float;       (* materials[2].emissiveIntensity *)
  t_velocity : Vec3;
  t_hitRadius : float;
  t_score : float;
  t_oscillation : float
}.

Record Paintball := mkPaintball {
  b_mesh : objId;
  b_position : Vec3;        (* b.mesh.position *)
  b_velocity : Vec3;
  b_color : Color;
  b_life : float
}.

(** A splatter: the decal mesh [addDecal] builds. *)
Record Decal := mkDecal {
  d_mesh : objId;
  d_object : objId;         (* the mesh the decal is projected on *)
  d_position : Vec3;
  d_normal : Vec3;
  d_angle : float;          (* orientation.z *)
  d_size : float;
  d_color : Color
}.

Inductive FocusMode := focused | broad.

Record ModeParams := mkModeParams {
  fov : float;
  fogDensity : float;
  vignette : string;
  label : string
}.

(** A pending [requestAnimationFrame(updateFOV)]: the variables the closure
    [updateFOV] captured in [animateFOV]. *)
Record FovAnim := mkFovAnim { startFOV : float; targetFOV : float; startTime : float }.

(** The three page elements the script writes to; [None] when the page has
    no element of that id. *)
Record Dom := mkDom {
  scoreEl : option float;          (* the number shown after "Score: " *)
  focusModeEl : option string;     (* textContent *)
  vignetteEl : option string       (* className *)
}.

(** ** The environment of the script *)

Record Env := mkEnv {
  Math_sin : float -> float;
  Math_cos : float -> float;
  Math_pow : float -> float -> float;
  (** the result of the n-th call of [Math.random()] *)
  Math_random : nat -> float;
  (** [camera.getWorldDirection] *)
  getWorldDirection : Camera -> Vec3;
  (** [raycaster.intersectObjects(objects, true)] for the ray set before *)
  intersectObjects : Ray -> list Mesh -> list Intersection;
  devicePixelRatio : float;
  (** how many times [createBuildingTexture] calls [Math.random()] when
      the given number of calls has been made before *)
  buildingTextureDraws : nat -> nat
}.

(** ** The state of the script: its module-level variables *)

Record State := mkState {
  scene : list objId;
  disposed : list objId;    (* meshes whose geometry and material were disposed *)
  nextId : objId;
  rng : nat;                (* calls of Math.random() made so far *)
  camera : Camera;
  fog : Fog;                (* scene.fog *)
  pixelRatio : float;       (* the renderer's pixel ratio *)
  dom : Dom;
  raycaster : Ray;
  buildingMeshes : list Mesh;
  player : Player;
  isPointerLocked : bool;
  mouseDeltaX : float;
  mouseDeltaY : float;
  keys : gmap string bool;
  targets : list Target;
  paintballs : list Paintball;
  splatters : list Decal;
  score : float;
  focusMode : FocusMode;
  fovAnimations : list FovAnim
}.

(** Assignment to one module-level variable, the others unchanged. *)

Definition set_scene (v : list objId) (s : State) : State :=
  mkState v (disposed s) (nextId s) (rng s) (camera s) (fog s)
    (pixelRatio s) (dom s) (raycaster s) (buildingMeshes s) (player s)
    (isPointerLocked s) (mouseDeltaX s) (mouseDeltaY s) (keys s) (targets s)
    (paintballs s) (splatters s) (score s) (focusMode s) (fovAnimations s).

Definition set_disposed (v : list objId) (s : State) : State :=
  mkState (scene s) v (nextId s) (rng s) (camera s) (fog s) (pixelRatio s)
    (dom s) (raycaster s) (buildingMeshes s) (player s) (isPointerLocked s)
    (mouseDeltaX s) (mouseDeltaY s) (keys s) (targets s) (paintballs s)
    (splatters s) (score s) (focusMode s) (fovAnimations s).

Definition set_nextId (v : objId) (s : State) : State :=
  mkState (scene s) (disposed s) v (rng s) (camera s) (fog s) (pixelRatio s)
    (dom s) (raycaster s) (buildingMeshes s) (player s) (isPointerLocked s)
    (mouseDeltaX s) (mouseDeltaY s) (keys s) (targets s) (paintballs s)
    (splatters s) (score s) (focusMode s) (fovAnimations s).

Definition set_rng (v : nat) (s : State) : State :=
  mkState (scene s) (disposed s) (nextId s) v (camera s) (fog s)
    (pixelRatio s) (dom s) (raycaster s) (buildingMeshes s) (player s)
    (isPointerLocked s) (mouseDeltaX s) (mouseDeltaY s) (keys s) (targets s)
    (paintballs s) (splatters s) (score s) (focusMode s) (fovAnimations s).

Definition set_camera (v : Camera) (s : State) : State :=
  mkState (scene s) (disposed s) (nextId s) (rng s) v (fog s) (pixelRatio s)
    (dom s) (raycaster s) (buildingMeshes s) (player s) (isPointerLocked s)
    (mouseDeltaX s) (mouseDeltaY s) (keys s) (targets s) (paintballs s)
    (splatters s) (score s) (focusMode s) (fovAnimations s).

Definition set_fog (v : Fog) (s : State) : State :=
  mkState (scene s) (disposed s) (nextId s) (rng s) (camera s) v
    (pixelRatio s) (dom s) (raycaster s) (buildingMeshes s) (player s)
    (isPointerLocked s) (mouseDeltaX s) (mouseDeltaY s) (keys s) (targets s)
    (paintballs s) (splatters s) (score s) (focusMode s) (fovAnimations s).

Definition set_pixelRatio (v : float) (s : State) : State :=
  mkState (scene s) (disposed s) (nextId s) (rng s) (camera s) (fog s) v
    (dom s) (raycaster s) (buildingMeshes s) (player s) (isPointerLocked s)
    (mouseDeltaX s) (mouseDeltaY s) (keys s) (targets s) (paintballs s)
    (splatters s) (score s) (focusMode s) (fovAnimations s).

Definition set_dom (v : Dom) (s : State) : State :=
  mkState (scene s) (disposed s) (nextId s) (rng s) (camera s) (fog s)
    (pixelRatio s) v (raycaster s) (buildingMeshes s) (player s)
    (isPointerLocked s) (mouseDeltaX s) (mouseDeltaY s) (keys s) (targets s)
    (paintballs s) (splatters s) (score s) (focusMode s) (fovAnimations s).

Definition set_raycaster (v : Ray) (s : State) : State :=
  mkState (scene s) (disposed s) (nextId s) (rng s) (camera s) (fog s)
    (pixelRatio s) (dom s) v (buildingMeshes s) (player s)
    (isPointerLocked s) (mouseDeltaX s) (mouseDeltaY s) (keys s) (targets s)
    (paintballs s) (splatters s) (score s) (focusMode s) (fovAnimations s).

Definition set_buildingMeshes (v : list Mesh) (s : State) : State :=
  mkState (scene s) (disposed s) (nextId s) (rng s) (camera s) (fog s)
    (pixelRatio s) (dom s) (raycaster s) v (player s) (isPointerLocked s)
    (mouseDeltaX s) (mouseDeltaY s) (keys s) (targets s) (paintballs s)
    (splatters s) (score s) (focusMode s) (fovAnimations s).

Definition set_player (v : Player) (s : State) : State :=
  mkState (scene s) (disposed s) (nextId s) (rng s) (camera s) (fog s)
    (pixelRatio s) (dom s) (raycaster s) (buildingMeshes s) v
    (isPointerLocked s) (mouseDeltaX s) (mouseDeltaY s) (keys s) (targets s)
    (paintballs s) (splatters s) (score s) (focusMode s) (fovAnimations s).

Definition set_isPointerLocked (v : bool) (s : State) : State :=
  mkState (scene s) (disposed s) (nextId s) (rng s) (camera s) (fog s)
    (pixelRatio s) (dom s) (raycaster s) (buildingMeshes s) (player s) v
    (mouseDeltaX s) (mouseDeltaY s) (keys s) (targets s) (paintballs s)
    (splatters s) (score s) (focusMode s) (fovAnimations s).

Definition set_mouseDeltaX (v : float) (s : State) : State :=
  mkState (scene s) (disposed s) (nextId s) (rng s) (camera s) (fog s)
    (pixelRatio s) (dom s) (raycaster s) (buildingMeshes s) (player s)
    (isPointerLocked s) v (mouseDeltaY s) (keys s) (targets s)
    (paintballs s) (splatters s) (score s) (focusMode s) (fovAnimations s).

Definition set_mouseDeltaY (v : float) (s : State) : State :=
  mkState (scene s) (disposed s) (nextId s) (rng s) (camera s) (fog s)
    (pixelRatio s) (dom s) (raycaster s) (buildingMeshes s) (player s)
    (isPointerLocked s) (mouseDeltaX s) v (keys s) (targets s)
    (paintballs s) (splatters s) (score s) (focusMode s) (fovAnimations s).

Definition set_keys (v : gmap string bool) (s : State) : State :=
  mkState (scene s) (disposed s) (nextId s) (rng s) (camera s) (fog s)
    (pixelRatio s) (dom s) (raycaster s) (buildingMeshes s) (player s)
    (isPointerLocked s) (mouseDeltaX s) (mouseDeltaY s) v (targets s)
    (paintballs s) (splatters s) (score s) (focusMode s) (fovAnimations s).

Definition set_targets (v : list Target) (s : State) : State :=
  mkState (scene s) (disposed s) (nextId s) (rng s) (camera s) (fog s)
    (pixelRatio s) (dom s) (raycaster s) (buildingMeshes s) (player s)
    (isPointerLocked s) (mouseDeltaX s) (mouseDeltaY s) (keys s) v
    (paintballs s) (splatters s) (score s) (focusMode s) (fovAnimations s).

Definition set_paintballs (v : list Paintball) (s : State) : State :=
  mkState (scene s) (disposed s) (nextId s) (rng s) (camera s) (fog s)
    (pixelRatio s) (dom s) (raycaster s) (buildingMeshes s) (player s)
    (isPointerLocked s) (mouseDeltaX s) (mouseDeltaY s) (keys s) (targets s)
    v (splatters s) (score s) (focusMode s) (fovAnimations s).

Definition set_splatters (v : list Decal) (s : State) : State :=
  mkState (scene s) (disposed s) (nextId s) (rng s) (camera s) (fog s)
    (pixelRatio s) (dom s) (raycaster s) (buildingMeshes s) (player s)
    (isPointerLocked s) (mouseDeltaX s) (mouseDeltaY s) (keys s) (targets s)
    (paintballs s) v (score s) (focusMode s) (fovAnimations s).

Definition set_score (v : float) (s : State) : State :=
  mkState (scene s) (disposed s) (nextId s) (rng s) (camera s) (fog s)
    (pixelRatio s) (dom s) (raycaster s) (buildingMeshes s) (player s)
    (isPointerLocked s) (mouseDeltaX s) (mouseDeltaY s) (keys s) (targets s)
    (paintballs s) (splatters s) v (focusMode s) (fovAnimations s).

Definition set_focusMode (v : FocusMode) (s : State) : State :=
  mkState (scene s) (disposed s) (nextId s) (rng s) (camera s) (fog s)
    (pixelRatio s) (dom s) (raycaster s) (buildingMeshes s) (player s)
    (isPointerLocked s) (mouseDeltaX s) (mouseDeltaY s) (keys s) (targets s)
    (paintballs s) (splatters s) (score s) v (fovAnimations s).

Definition set_fovAnimations (v : list FovAnim) (s : State) : State :=
  mkState (scene s) (disposed s) (nextId s) (rng s) (camera s) (fog s)
    (pixelRatio s) (dom s) (raycaster s) (buildingMeshes s) (player s)
    (isPointerLocked s) (mouseDeltaX s) (mouseDeltaY s) (keys s) (targets s)
    (paintballs s) (splatters s) (score s) (focusMode s) v.

(** ** Constants and helpers *)

Definition playerRadius : float := 0.4%float.
Definition playerHeight : float := 1.7%float.
Definition MAX_TARGETS : nat := 30.

(** The ground plane: a 200 x 200 plane turned flat, the third object added
    to the scene after the two lights. *)
Definition ground : Mesh :=
  mkMesh 2 (PlaneGeometry 200 200) (mkVec3 0 0 0) (RotationX (- Math_PI / 2)).

(** [scene.remove(o)]: the children of the scene hold no object twice, so
    removing [o] leaves the children that are not [o]. *)
Definition scene_remove (o : objId) (s : State) : State :=
  set_scene (filter (fun x => x <> o) (scene s)) s.

(** [scene.add(o)]: [o] is detached from its parent and pushed. *)
Definition scene_add (o : objId) (s : State) : State :=
  set_scene (filter (fun x => x <> o) (scene s) ++ [o]) s.

(** [o.geometry.dispose(); o.material.dispose()]. *)
Definition dispose (o : objId) (s : State) : State :=
  set_disposed (disposed s ++ [o]) s.

(** Truthiness of [keys[code]]: a code never pressed is [undefined]. *)
Definition keyDown (keys : gmap string bool) (code : string) : bool :=
  match keys !! code with
  | Some b => b
  | None => false
  end.

(** The table [focusModes]. *)
Definition focusModes (m : FocusMode) : ModeParams :=
  match m with
  | focused => mkModeParams 45 0.01 "focused" "FOCUSED"
  | broad => mkModeParams 90 0.03 "broad" "BROAD"
  end.

(** [updateScoreDisplay]: writes the score if the page has the element. *)
Definition updateScoreDisplay (s : State) : State :=
  match scoreEl (dom s) with
  | Some _ => set_dom (mkDom (Some (score s)) (focusModeEl (dom s)) (vignetteEl (dom s))) s
  | None => s
  end.

Section Script.

Variable env : Env.

Local Abbreviation sin := (Math_sin env).
Local Abbreviation cos := (Math_cos env).
Local Abbreviation random := (Math_random env).

(** *** Targets *)

(** [createTarget]: seven calls of [Math.random()], in source order the
    angle, the distance, the height, the three drift components and the
    oscillation phase; the group is added to the scene. *)
Definition createTarget (s : State) : Target * State :=
  let r i := random (rng s + i) in
  let angle := (r 0%nat * Math_PI * 2)%float in
  let distance := (10 + r 1%nat * 30)%float in
  let x := (cos angle * distance)%float in
  let z := (sin angle * distance)%float in
  let y := (3 + r 2%nat * 15)%float in
  let driftVelocity :=
    mkVec3 ((r 3%nat - 0.5) * 2) ((r 4%nat - 0.5) * 1) ((r 5%nat - 0.5) * 2) in
  let targetGroup := nextId s in
  let s := set_nextId (S targetGroup) s in
  let s := scene_add targetGroup s in
  let oscillation := (r 6%nat * Math_PI * 2)%float in
  (mkTarget targetGroup (mkVec3 x y z) None 0.6 driftVelocity 0.8 10 oscillation,
   set_rng (rng s + 7) s).

(** [targets.push(createTarget())]. *)
Definition pushTarget (s : State) : State :=
  let created := createTarget s in
  set_targets (targets (snd created) ++ [fst created]) (snd created).

(** The body of the loop of [createExplosion]: one particle, pushed on
    [paintballs] with half a second to live. *)
Definition createParticle (position : Vec3) (color : Color) (s : State) : State :=
  let r i := random (rng s + i) in
  let particle := nextId s in
  let s := set_nextId (S particle) s in
  let s := scene_add particle s in
  let velocity :=
    mkVec3 ((r 0%nat - 0.5) * 10) ((r 1%nat - 0.5) * 10) ((r 2%nat - 0.5) * 10) in
  let s := set_rng (rng s + 3) s in
  set_paintballs
    (paintballs s ++ [mkPaintball particle position velocity color 0.5]) s.

Fixpoint createParticles (n : nat) (position : Vec3) (color : Color)
    (s : State) : State :=
  match n with
  | 0 => s
  | S n' => createParticles n' position color (createParticle position color s)
  end.

(** [createExplosion]: [particleCount = 20] particles. *)
Definition createExplosion (position : Vec3) (color : Color) (s : State) : State :=
  createParticles 20 position color s.

(** *** Focus mode *)

(** [updateFOV], the closure of [animateFOV], run when the clock reads
    [now]; it asks for another animation frame while [progress < 1]. *)
Definition updateFOV (a : FovAnim) (now : float) (s : State) : State :=
  let duration := 1000%float in
  let elapsed := (now - startTime a)%float in
  let progress := Math_min (elapsed / duration) 1 in
  let eased :=
    if (progress <? 0.5)%float then (2 * progress * progress)%float
    else (1 - Math_pow env (-2 * progress + 2) 2 / 2)%float in
  let c := camera s in
  let s :=
    set_camera
      (mkCamera (c_position c) (c_lookAt c)
         (startFOV a + (targetFOV a - startFOV a) * eased)) s in
  if (progress <? 1)%float then set_fovAnimations (fovAnimations s ++ [a]) s
  else s.

(** [animateFOV(targetFOV)]: [t0] and [t1] are the two readings of
    [Date.now()], for [startTime] and in the first run of [updateFOV]. *)
Definition animateFOV (target t0 t1 : float) (s : State) : State :=
  updateFOV (mkFovAnim (c_fov (camera s)) target t0) t1 s.

Definition otherMode (m : FocusMode) : FocusMode :=
  match m with focused => broad | broad => focused end.

(** [toggleFocusMode]: the other mode, its label and vignette on the page,
    the animation towards its field of view, its fog and pixel ratio. *)
Definition toggleFocusMode (t0 t1 : float) (s : State) : State :=
  let s := set_focusMode (otherMode (focusMode s)) s in
  let mode := focusModes (focusMode s) in
  let d := dom s in
  let s :=
    set_dom
      (mkDom (scoreEl d)
         (match focusModeEl d with Some _ => Some (label mode) | None => None end)
         (match vignetteEl d with Some _ => Some (vignette mode) | None => None end))
      s in
  let s := animateFOV (fov mode) t0 t1 s in
  let s :=
    set_fog
      (mkFog (match focusMode s with focused => 20 | broad => 10 end)
             (match focusMode s with focused => 100 | broad => 60 end)) s in
  let pixelRatio :=
    match focusMode s with
    | focused => devicePixelRatio env
    | broad => (devicePixelRatio env * 0.7)%float
    end in
  set_pixelRatio pixelRatio s.

(** The pending [updateFOV] callbacks of one animation frame. *)
Definition fovFrame (now : float) (s : State) : State :=
  fold_left (fun s a => updateFOV a now s) (fovAnimations s)
    (set_fovAnimations [] s).

(** *** Splatters *)

(** [addDecal] up to [splatters.push(m)]: 27 calls of [Math.random()] (the
    size, the roll of the decal, and 25 for its texture). *)
Definition pushDecal (hit : Intersection) (color : Color) (s : State) : State :=
  let r i := random (rng s + i) in
  let size := (1.0 + r 0%nat * 1.5)%float in
  let position := hit_point hit in
  let angle := (r 1%nat * 2 * Math_PI)%float in
  let m := nextId s in
  let s := set_nextId (S m) s in
  let s := set_rng (rng s + 27) s in
  let s := scene_add m s in
  set_splatters
    (splatters s ++
       [mkDecal m (hit_object hit) position (hit_normal hit) angle size color]) s.

(** The end of [addDecal]: [if (splatters.length > 200) { ... }]. *)
Definition trimSplatters (s : State) : State :=
  if 200 <? length (splatters s) then
    match splatters s with
    | old :: rest =>
        dispose (d_mesh old) (scene_remove (d_mesh old) (set_splatters rest s))
    | [] => s
    end
  else s.

Definition addDecal (hit : Intersection) (color : Color) (s : State) : State :=
  trimSplatters (pushDecal hit color s).

(** *** Shooting *)

(** [shootPaintball]; the locals [right] and [gunOffset] are computed and
    never used. *)
Definition shootPaintball (s : State) : State :=
  let color := mkColor (random (rng s)) 0.8 0.5 in
  let s := set_rng (S (rng s)) s in
  let ball := nextId s in
  let s := set_nextId (S ball) s in
  let dir := Vector3.normalize (getWorldDirection env (camera s)) in
  let start :=
    Vector3.add (p_position (player s)) (mkVec3 0 (playerHeight * 0.7) 0) in
  let start := Vector3.add start (Vector3.multiplyScalar dir 1.0) in
  let s := scene_add ball s in
  let s :=
    set_paintballs
      (paintballs s ++
         [mkPaintball ball start (Vector3.multiplyScalar dir 40) color 3]) s in
  let p := player s in
  set_player
    (mkPlayer (p_position p) (p_rotationY p) (p_velocity p) (p_onGround p)
       (p_yaw p) (p_pitch p) (Some 1.0%float) (p_gun p)) s.

(** *** Event listeners *)

Definition pointerlockchange (locked : bool) (s : State) : State :=
  set_isPointerLocked locked s.

Definition mousemove (movementX movementY : float) (s : State) : State :=
  if isPointerLocked s then
    let s := set_mouseDeltaX (mouseDeltaX s + movementX) s in
    set_mouseDeltaY (mouseDeltaY s + movementY) s
  else s.

(** [keydown]; [document.exitPointerLock()] on Escape only asks the
    browser, which answers with a [pointerlockchange] event. *)
Definition keydown (code : string) (t0 t1 : float) (s : State) : State :=
  let s := set_keys (<[code := true]> (keys s)) s in
  if String.eqb code "Tab" then toggleFocusMode t0 t1 s else s.

Definition keyup (code : string) (s : State) : State :=
  set_keys (<[code := false]> (keys s)) s.

Definition mousedown (button : Z) (s : State) : State :=
  if ((button =? 0)%Z && isPointerLocked s)%bool then shootPaintball s else s.


(** *** The per-frame update *)

(** Mouse look: the accumulated deltas turn the player and are cleared,
    while the pointer is locked. *)
Definition mouseLook (mouseDeltaX mouseDeltaY : float) (p : Player) : Player :=
  let sensitivity := 0.002%float in
  let yaw := (p_yaw p - mouseDeltaX * sensitivity)%float in
  let pitch := (p_pitch p - mouseDeltaY * sensitivity)%float in
  let pitch :=
    Math_max (- Math_PI / 2 + 0.1) (Math_min (Math_PI / 2 - 0.1) pitch) in
  mkPlayer (p_position p) (p_rotationY p) (p_velocity p) (p_onGround p)
    yaw pitch (p_recoil p) (p_gun p).

Definition updateMouseLook (s : State) : State :=
  if isPointerLocked s then
    let s := set_player (mouseLook (mouseDeltaX s) (mouseDeltaY s) (player s)) s in
    set_mouseDeltaY 0 (set_mouseDeltaX 0 s)
  else s.

Definition set_velocity (v : Vec3) (p : Player) : Player :=
  mkPlayer (p_position p) (p_rotationY p) v (p_onGround p) (p_yaw p)
    (p_pitch p) (p_recoil p) (p_gun p).

(** Movement: the WASD keys give a direction, turned by the yaw, and set
    the horizontal velocity. *)
Definition movement (keys : gmap string bool) (p : Player) : Player :=
  let moveSpeed := 10%float in
  let mz := 0%float in
  let mx := 0%float in
  let mz := if keyDown keys "KeyW" then (mz - 1)%float else mz in
  let mz := if keyDown keys "KeyS" then (mz + 1)%float else mz in
  let mx := if keyDown keys "KeyA" then (mx - 1)%float else mx in
  let mx := if keyDown keys "KeyD" then (mx + 1)%float else mx in
  let move := mkVec3 mx 0 mz in
  if (0 <? Vector3.lengthSq move)%float then
    let move := Vector3.normalize move in
    let sin := sin (p_yaw p) in
    let cos := cos (p_yaw p) in
    let worldMove :=
      mkVec3 (vx move * cos - vz move * sin) 0 (vx move * sin + vz move * cos) in
    set_velocity
      (mkVec3 (vx worldMove * moveSpeed) (vy (p_velocity p))
         (vz worldMove * moveSpeed)) p
  else
    set_velocity (mkVec3 0 (vy (p_velocity p)) 0) p.

(** Jump: [if (keys["Space"] && player.onGround)]. *)
Definition jump (keys : gmap string bool) (p : Player) : Player :=
  if (keyDown keys "Space" && p_onGround p)%bool then
    mkPlayer (p_position p) (p_rotationY p) (Vector3.setY (p_velocity p) 12)
      false (p_yaw p) (p_pitch p) (p_recoil p) (p_gun p)
  else p.

Definition gravity : float := (-30)%float.

(** Gravity: [player.velocity.y += gravity * delta]. *)
Definition applyGravity (delta : float) (p : Player) : Player :=
  set_velocity
    (Vector3.setY (p_velocity p) (vy (p_velocity p) + gravity * delta)) p.

(** Integrate position: [pos += velocity * delta], by component. *)
Definition integrate (delta : float) (p : Player) : Player :=
  let pos := p_position p in
  let v := p_velocity p in
  mkPlayer
    (mkVec3 (vx pos + vx v * delta) (vy pos + vy v * delta) (vz pos + vz v * delta))
    (p_rotationY p) v (p_onGround p) (p_yaw p) (p_pitch p) (p_recoil p) (p_gun p).

(** Ground collision: the only test of the player's height. *)
Definition groundCollision (p : Player) : Player :=
  let minY := 0%float in
  if (vy (p_position p) <? minY)%float then
    mkPlayer (Vector3.setY (p_position p) minY) (p_rotationY p)
      (Vector3.setY (p_velocity p) 0) true (p_yaw p) (p_pitch p) (p_recoil p)
      (p_gun p)
  else p.

(** [player.mesh.rotation.y = player.yaw + Math.PI]. *)
Definition faceYaw (p : Player) : Player :=
  mkPlayer (p_position p) (p_yaw p + Math_PI) (p_velocity p) (p_onGround p)
    (p_yaw p) (p_pitch p) (p_recoil p) (p_gun p).

(** Gun recoil animation; nothing happens while the player has no gun. *)
Definition recoil (delta : float) (p : Player) : Player :=
  match p_gun p with
  | Some _ =>
      match p_recoil p with
      | Some r =>
          if (0 <? r)%float then
            let r := (r - delta * 5)%float in
            mkPlayer (p_position p) (p_rotationY p) (p_velocity p) (p_onGround p)
              (p_yaw p) (p_pitch p) (Some r) (Some (0.2 + sin (r * 10) * 0.1)%float)
          else
            mkPlayer (p_position p) (p_rotationY p) (p_velocity p) (p_onGround p)
              (p_yaw p) (p_pitch p) (Some 0%float) (Some 0.2%float)
      | None =>
          mkPlayer (p_position p) (p_rotationY p) (p_velocity p) (p_onGround p)
            (p_yaw p) (p_pitch p) (Some 0%float) (Some 0.2%float)
      end
  | None => p
  end.

(** The player's part of [update], from "Movement" to the recoil. *)
Definition stepPlayer (delta : float) (keys : gmap string bool) (p : Player) : Player :=
  let p := movement keys p in
  let p := jump keys p in
  let p := applyGravity delta p in
  let p := integrate delta p in
  let p := groundCollision p in
  let p := faceYaw p in
  recoil delta p.

Definition updatePlayer (delta : float) (s : State) : State :=
  set_player (stepPlayer delta (keys s) (player s)) s.

(** The body of the loop over [targets]: drift, oscillation, glow, bounds,
    floor, and facing the camera. *)
Definition updateTarget (delta : float) (cameraPosition : Vec3) (t : Target) : Target :=
  let pos := Vector3.add (t_position t) (Vector3.multiplyScalar (t_velocity t) delta) in
  let oscillation := (t_oscillation t + delta)%float in
  let oscillate := (sin (oscillation * 2) * 0.5)%float in
  let pos := Vector3.setY pos (vy pos + oscillate * delta) in
  let pulse := ((sin (oscillation * 3) + 1) * 0.5)%float in
  let bullseye := (0.6 + pulse * 0.4)%float in
  let maxDist := 50%float in
  let vel :=
    if (maxDist <? Vector3.length pos)%float
    then Vector3.multiplyScalar (t_velocity t) (-1)
    else t_velocity t in
  if (vy pos <? 2)%float then
    mkTarget (t_mesh t) (Vector3.setY pos 2) (Some cameraPosition) bullseye
      (Vector3.setY vel (abs (vy vel))) (t_hitRadius t) (t_score t) oscillation
  else
    mkTarget (t_mesh t) pos (Some cameraPosition) bullseye vel (t_hitRadius t)
      (t_score t) oscillation.

Definition updateTargets (delta : float) (s : State) : State :=
  set_targets (map (updateTarget delta (c_position (camera s))) (targets s)) s.

(** A paintball hit [target], found at index [j], while the paintball [b]
    is at index [i] ([showHitFeedback] only flashes the crosshair). *)
Definition hitTarget (b : Paintball) (i j : nat) (target : Target) (s : State) : State :=
  let s := set_score (score s + t_score target) s in
  let s := createExplosion (t_position target) (b_color b) s in
  let s := scene_remove (t_mesh target) s in
  let s := set_targets (delete j (targets s)) s in
  let s := pushTarget s in
  let s := scene_remove (b_mesh b) s in
  let s := dispose (b_mesh b) s in
  let s := set_paintballs (delete i (paintballs s)) s in
  updateScoreDisplay s.

(** [for (let j = targets.length - 1; j >= 0; j--)], entered with
    [n = j + 1]; the first hit ends the loop. *)
Fixpoint targetLoop (b : Paintball) (i : nat) (n : nat) (s : State) : State :=
  match n with
  | 0 => s
  | S j =>
      match targets s !! j with
      | Some target =>
          let dist := Vector3.distanceTo (b_position b) (t_position target) in
          if (dist <? t_hitRadius target)%float then hitTarget b i j target s
          else targetLoop b i j s
      | None => s
      end
  end.

(** [paintballs.indexOf(b) !== -1]: every paintball owns the mesh it was
    created with, and is recognised by it. *)
Definition listed (b : Paintball) (s : State) : bool :=
  existsb (fun p => b_mesh p =? b_mesh b) (paintballs s).

Definition set_life (life : float) (b : Paintball) : Paintball :=
  mkPaintball (b_mesh b) (b_position b) (b_velocity b) (b_color b) life.

Definition set_position (pos : Vec3) (b : Paintball) : Paintball :=
  mkPaintball (b_mesh b) pos (b_velocity b) (b_color b) (b_life b).

(** The body of the loop over [paintballs], at index [i]. *)
Definition paintballIter (delta : float) (i : nat) (s : State) : State :=
  match paintballs s !! i with
  | None => s
  | Some b =>
      let b := set_life (b_life b - delta) b in
      let s := set_paintballs (<[i := b]> (paintballs s)) s in
      if (b_life b <=? 0)%float then
        let s := scene_remove (b_mesh b) s in
        let s := dispose (b_mesh b) s in
        set_paintballs (delete i (paintballs s)) s
      else
        let oldPos := b_position b in
        let b :=
          set_position
            (Vector3.add oldPos (Vector3.multiplyScalar (b_velocity b) delta)) b in
        let s := set_paintballs (<[i := b]> (paintballs s)) s in
        let s := targetLoop b i (length (targets s)) s in
        if negb (listed b s) then s
        else
          let dir := Vector3.normalize (b_velocity b) in
          let dist := Vector3.distanceTo oldPos (b_position b) in
          let s := set_raycaster (mkRay oldPos dir dist) s in
          match intersectObjects env (raycaster s) (buildingMeshes s ++ [ground]) with
          | hit :: _ =>
              let s := addDecal hit (b_color b) s in
              let s := scene_remove (b_mesh b) s in
              let s := dispose (b_mesh b) s in
              set_paintballs (delete i (paintballs s)) s
          | [] =>
              if (vy (b_position b) <? 0)%float then
                let s := scene_remove (b_mesh b) s in
                set_paintballs (delete i (paintballs s)) s
              else s
          end
  end.

(** [for (let i = paintballs.length - 1; i >= 0; i--)], entered with
    [n = i + 1]. *)
Fixpoint paintballLoop (delta : float) (n : nat) (s : State) : State :=
  match n with
  | 0 => s
  | S i => paintballLoop delta i (paintballIter delta i s)
  end.

Definition updatePaintballs (delta : float) (s : State) : State :=
  paintballLoop delta (length (paintballs s)) s.

(** First-person camera; [now] is the reading of [Date.now()]. *)
Definition updateCamera (now : float) (s : State) : State :=
  let eyeHeight := 1.6%float in
  let p := player s in
  let targetPos := Vector3.add (p_position p) (mkVec3 0 eyeHeight 0) in
  let position :=
    match focusMode s with
    | broad =>
        let time := (now * 0.001)%float in
        mkVec3 (vx targetPos + sin (time * 0.5) * 0.02)
               (vy targetPos + cos (time * 0.7) * 0.015) (vz targetPos)
    | focused => targetPos
    end in
  let lookDir :=
    mkVec3 (- sin (p_yaw p) * cos (p_pitch p)) (sin (p_pitch p))
           (- cos (p_yaw p) * cos (p_pitch p)) in
  set_camera (mkCamera position (Vector3.add position lookDir) (c_fov (camera s))) s.

(** [update(delta)]. *)
Definition update (now delta : float) (s : State) : State :=
  updateCamera now
    (updatePaintballs delta (updateTargets delta (updatePlayer delta (updateMouseLook s)))).

(** *** The script as a transition system *)

Inductive Event :=
| PointerLockChange (locked : bool)
| MouseMove (movementX movementY : float)
| KeyDown (code : string) (t0 t1 : float)
| KeyUp (code : string)
| MouseDown (button : Z)
| Frame (now delta : float)       (* [animate]: one call of [update] *)
| FovFrame (now : float).         (* the pending [updateFOV] callbacks *)

Definition step (s : State) (e : Event) : State :=
  match e with
  | PointerLockChange locked => pointerlockchange locked s
  | MouseMove mx my => mousemove mx my s
  | KeyDown code t0 t1 => keydown code t0 t1 s
  | KeyUp code => keyup code s
  | MouseDown button => mousedown button s
  | Frame now delta => update now delta s
  | FovFrame now => fovFrame now s
  end.

Definition run (events : list Event) (s : State) : State :=
  fold_left step events s.

End Script.

(** ** The city: buildings, stairs and bridges *)

(** [Math.floor] and the number of rounds of a counting loop, read off the
    binary representation of a number. *)
Module Floor.

(** The integer part, rounded down, of a finite number. *)
Definition floorZ (x : float) : option Z :=
  match Prim2SF x with
  | S754_zero _ => Some 0%Z
  | S754_finite s m e =>
      let v := if s then Z.neg m else Z.pos m in
      Some (if (0 <=? e)%Z then v * 2 ^ e else v / 2 ^ (- e))%Z
  | S754_infinity _ | S754_nan => None
  end.

Definition ofZ (z : Z) : float :=
  if (z <? 0)%Z then (- PrimFloat.of_uint63 (Uint63.of_Z (- z)))%float
  else PrimFloat.of_uint63 (Uint63.of_Z z).

(** [Math.floor(x)]: only a number with a fractional part (a negative
    exponent in its representation) changes. *)
Definition Math_floor (x : float) : float :=
  match Prim2SF x with
  | S754_finite _ _ e =>
      if (e <? 0)%Z then
        match floorZ x with Some z => ofZ z | None => x end
      else x
  | _ => x
  end.

(** The rounds of [for (let i = 0; i <= steps; i++)]: none if [steps] is
    NaN or negative; [None] if the loop does not end (an infinite bound,
    or one from 2^53 on, where [i++] no longer moves). *)
Definition rounds (steps : float) : option nat :=
  match Prim2SF steps with
  | S754_nan | S754_infinity true | S754_finite true _ _ => Some 0
  | S754_infinity false => None
  | S754_zero _ => Some 1
  | S754_finite false _ _ =>
      match floorZ steps with
      | Some z => if (z <? 2 ^ 53)%Z then Some (S (Z.to_nat z)) else None
      | None => None
      end
  end.

End Floor.
Export Floor.

Record Building := mkBuilding {
  bd_mesh : Mesh;
  bd_x : float; bd_z : float; bd_w : float; bd_d : float; bd_h : float
}.

(** The arrays [buildings] and [buildingMeshes] while the city is built.
    Every mesh pushed on [buildingMeshes] is added to the scene at the same
    moment, so the scene needs no list of its own here. *)
Record World := mkWorld {
  w_buildings : list Building;
  w_meshes : list Mesh;
  w_nextId : objId;
  w_rng : nat               (* calls of Math.random() made so far *)
}.

Section City.

Variable env : Env.

(** [addBuilding]: a box of height [h] standing on the ground. *)
Definition addBuilding (x z w d h : float) (wd : World) : World :=
  let draws := buildingTextureDraws env (w_rng wd) in
  let mesh :=
    mkMesh (w_nextId wd) (BoxGeometry w h d) (mkVec3 x (h / 2) z) Unrotated in
  mkWorld (w_buildings wd ++ [mkBuilding mesh x z w d h]) (w_meshes wd ++ [mesh])
    (S (w_nextId wd)) (w_rng wd + draws).

(** [for (let i = 0; i < 15; i++)]: five draws, then [addBuilding]. *)
Fixpoint generateBuildings (n : nat) (wd : World) : World :=
  match n with
  | 0 => wd
  | S n' =>
      let r i := Math_random env (w_rng wd + i) in
      let x := ((r 0%nat - 0.5) * 80)%float in
      let z := ((r 1%nat - 0.5) * 80)%float in
      let w := (4 + r 2%nat * 8)%float in
      let d := (4 + r 3%nat * 8)%float in
      let h := (6 + r 4%nat * 18)%float in
      generateBuildings n'
        (addBuilding x z w d h
           (mkWorld (w_buildings wd) (w_meshes wd) (w_nextId wd) (w_rng wd + 5)))
  end.

(** The loop of [addStairs]: [n] rounds are left and the counter is [i]. *)
Fixpoint stairSteps (n : nat) (i : float)
    (startX startZ startHeight dx dz dh steps stepLength width : float)
    (wd : World) : World :=
  match n with
  | 0 => wd
  | S n' =>
      let t := (i / steps)%float in
      let x := (startX + dx * t)%float in
      let z := (startZ + dz * t)%float in
      let y := (startHeight + dh * t)%float in
      let step :=
        mkMesh (w_nextId wd) (BoxGeometry (stepLength * 1.1) 0.3 width)
          (mkVec3 x (y + 0.15) z) Unrotated in
      stairSteps n' (i + 1) startX startZ startHeight dx dz dh steps stepLength width
        (mkWorld (w_buildings wd) (w_meshes wd ++ [step]) (S (w_nextId wd)) (w_rng wd))
  end.

(** [addStairs]; [None] if its loop does not end. *)
Definition addStairs (startX startZ endX endZ startHeight endHeight width : float)
    (wd : World) : option World :=
  let dx := (endX - startX)%float in
  let dz := (endZ - startZ)%float in
  let dh := (endHeight - startHeight)%float in
  let distance := PrimFloat.sqrt (dx * dx + dz * dz) in
  let steps := Math_max 3 (Math_floor (distance / 1.5)) in
  let stepLength := (distance / steps)%float in
  match rounds steps with
  | Some n =>
      Some (stairSteps n 0 startX startZ startHeight dx dz dh steps stepLength width wd)
  | None => None
  end.

(** [for (let i = 0; i < buildings.length - 1; i += 2)]: stairs from each
    building of even index to the next one. *)
Fixpoint generateStairs (bs : list Building) (wd : World) : option World :=
  match bs with
  | b1 :: b2 :: rest =>
      match addStairs (bd_x b1) (bd_z b1) (bd_x b2) (bd_z b2) (bd_h b1) (bd_h b2) 2 wd with
      | Some wd => generateStairs rest wd
      | None => None
      end
  | _ => Some wd
  end.

(** [addSimpleBridge]: a plank one unit below the higher of the two
    roofs, from the axis of one building to the axis of the other. *)
Definition addSimpleBridge (b1 b2 : Building) (wd : World) : World :=
  let center1 := mkVec3 (bd_x b1) (Math_max (bd_h b1) (bd_h b2) - 1) (bd_z b1) in
  let center2 := mkVec3 (bd_x b2) (Math_max (bd_h b1) (bd_h b2) - 1) (bd_z b2) in
  let dist := Vector3.distanceTo center1 center2 in
  let bridge :=
    mkMesh (w_nextId wd) (BoxGeometry 1 0.2 dist)
      (Vector3.multiplyScalar (Vector3.add center1 center2) 0.5) (LookAt center2) in
  mkWorld (w_buildings wd) (w_meshes wd ++ [bridge]) (S (w_nextId wd)) (w_rng wd).

(** [for (let i = 0; i < buildings.length - 1; i += 3)]: a bridge from each
    building whose index is a multiple of three to the next one. *)
Fixpoint generateBridges (bs : list Building) (wd : World) : World :=
  match bs with
  | b1 :: b2 :: rest =>
      let wd := addSimpleBridge b1 b2 wd in
      match rest with
      | _ :: rest' => generateBridges rest' wd
      | [] => wd
      end
  | _ => wd
  end.

(** The city as the script builds it; identifiers 0 to 2 are taken by the
    two lights and the ground. *)
Definition generateCity (rng0 : nat) : option World :=
  let wd := generateBuildings 15 (mkWorld [] [] 3 rng0) in
  match generateStairs (w_buildings wd) wd with
  | Some wd => Some (generateBridges (w_buildings wd) wd)
  | None => None
  end.

End City.

(** ** The state the game loop starts from *)

Section Start.

Variable env : Env.

(** [for (let i = 0; i < MAX_TARGETS; i++) targets.push(createTarget())]. *)
Fixpoint spawnTargets (n : nat) (s : State) : State :=
  match n with
  | 0 => s
  | S n' => spawnTargets n' (pushTarget env s)
  end.

(** The state after the script has run to [animate()]: lights (0 and 1),
    ground and city in the scene, the capsule of the player at the origin,
    the targets spawned, and [page] telling which elements the page has. *)
Definition initState (w : World) (page : Dom) : State :=
  let playerMesh := w_nextId w in
  let s :=
    mkState
      ([0; 1; m_id ground] ++ map m_id (w_meshes w) ++ [playerMesh])
      [] (S playerMesh) (w_rng w)
      (mkCamera (mkVec3 0 0 0) (mkVec3 0 0 (-1)) 45)
      (mkFog 20 100)
      (devicePixelRatio env)
      page
      (mkRay (mkVec3 0 0 0) (mkVec3 0 0 (-1)) infinity)
      (w_meshes w)
      (mkPlayer (mkVec3 0 (playerHeight / 2) 0) 0 (mkVec3 0 0 0) false 0 0 None None)
      false 0 0 ∅ [] [] [] 0 focused [] in
  let s := spawnTargets MAX_TARGETS s in
  let s := updateScoreDisplay s in
  set_dom
    (mkDom (scoreEl (dom s)) (focusModeEl (dom s))
       (match vignetteEl (dom s) with Some _ => Some "focused" | None => None end))
    s.

End Start.

(** ** The vocabulary of the properties *)

(** The player and the input that steers it: what the loops over targets
    and paintballs never write, and all that the player's next state depends
    on. *)
Definition controls (s : State) :=
  (player s, isPointerLocked s, mouseDeltaX s, mouseDeltaY s, keys s).

(** A paintball that the loop of [update] keeps: [b.life <= 0] is false. *)
Definition alive (b : Paintball) : Prop := (b_life b <=? 0)%float = false.

(** A particle of an explosion, as [createExplosion] makes them. *)
Definition particle (b : Paintball) : Prop := b_life b = 0.5%float.

(** A paintball after one frame of flight: [b.life -= delta] and
    [b.mesh.position.add(b.velocity.clone().multiplyScalar(delta))]. *)
Definition flown (delta : float) (b : Paintball) : Paintball :=
  mkPaintball (b_mesh b)
    (Vector3.add (b_position b) (Vector3.multiplyScalar (b_velocity b) delta))
    (b_velocity b) (b_color b) (b_life b - delta).

(** The decal [addDecal] builds for [hit] in the state [s]. *)
Definition newDecal (env : Env) (hit : Intersection) (color : Color) (s : State) : Decal :=
  mkDecal (nextId s) (hit_object hit) (hit_point hit) (hit_normal hit)
    (Math_random env (rng s + 1) * 2 * Math_PI)
    (1.0 + Math_random env (rng s + 0) * 1.5) color.

(** The paintball at [position] is within the hit radius of [t]. *)
Definition reaches (position : Vec3) (t : Target) : bool :=
  (Vector3.distanceTo position (t_position t) <? t_hitRadius t)%float.

(** The direction of view, as the player holds it: yaw and pitch. *)
Definition view (p : Player) : float * float := (p_yaw p, p_pitch p).

(** The player where the gravity step of [update] finds it: after the mouse
    look, the movement keys and the jump. *)
Definition beforeGravity (env : Env) (s : State) : Player :=
  jump (keys s) (movement env (keys s) (player (updateMouseLook s))).

(** The height of the top face of a box (a roof, a stair step, a bridge). *)
Definition topOf (m : Mesh) : option float :=
  match m_geometry m with
  | BoxGeometry _ h _ => Some (vy (m_position m) + h / 2)%float
  | PlaneGeometry _ _ => None
  end.

(** The player stands on the box [m]: over its footprint, feet on its top
    face, without vertical speed. *)
Definition standsOn (m : Mesh) (p : Player) : bool :=
  match m_geometry m with
  | BoxGeometry w h d =>
      (abs (vx (p_position p) - vx (m_position m)) <=? w / 2)%float
      && (abs (vz (p_position p) - vz (m_position m)) <=? d / 2)%float
      && (vy (p_position p) =? vy (m_position m) + h / 2)%float
      && (vy (p_velocity p) =? 0)%float
  | PlaneGeometry _ _ => false
  end.

(** The box [m] carries the player through one update: standing on it
    before, the player is not below its top face afterwards. *)
Definition carries (env : Env) (m : Mesh) (now delta : float) (s : State) : Prop :=
  forall top, topOf m = Some top ->
  standsOn m (player s) = true ->
  (vy (p_position (player (update env now delta s))) <? top)%float = false.

(** What no input handler writes: the targets, the splatters and, but for
    [pointerlockchange], the lock. *)
Definition arena (s : State) := (targets s, splatters s, isPointerLocked s).

(** The events of a trace that reach the script's input: a mouse movement
    counts only if the pointer is locked when it arrives. *)
Fixpoint lockedInput (locked : bool) (events : list Event) : list Event :=
  match events with
  | [] => []
  | PointerLockChange l :: rest => PointerLockChange l :: lockedInput l rest
  | MouseMove mx my :: rest =>
      if locked then MouseMove mx my :: lockedInput locked rest
      else lockedInput locked rest
  | e :: rest => e :: lockedInput locked rest
  end.

(** The settings that go with a focus mode: fog range, pixel ratio, and the
    texts of the two page elements where the page has them. *)
Definition modeSettings (env : Env) (m : FocusMode) (page : Dom)
    : Fog * float * option string * option string :=
  (match m with focused => mkFog 20 100 | broad => mkFog 10 60 end,
   match m with
   | focused => devicePixelRatio env
   | broad => (devicePixelRatio env * 0.7)%float
   end,
   match focusModeEl page with Some _ => Some (label (focusModes m)) | None => None end,
   match vignetteEl page with Some _ => Some (vignette (focusModes m)) | None => None end).

Definition settings (s : State) : Fog * float * option string * option string :=
  (fog s, pixelRatio s, focusModeEl (dom s), vignetteEl (dom s)).

(** three.js sorts the intersections by distance: the first is the nearest. *)
Definition nearestFirst (env : Env) : Prop :=
  forall ray objects hit rest,
    intersectObjects env ray objects = hit :: rest ->
    Forall (fun h => (hit_distance hit <=? hit_distance h)%float = true) rest.

(** The state in which [update] enters its loop over the paintballs: mouse
    look, player and targets are done. *)
Definition beforePaintballs (env : Env) (delta : float) (s : State) : State :=
  updateTargets env delta (updatePlayer env delta (updateMouseLook s)).

(** The loop over the paintballs, entered with [n] of them, when it comes
    to index [i]: the rounds at the indices above [i] are over. *)
Fixpoint roundsAbove (env : Env) (delta : float) (i n : nat) (s : State) : State :=
  match n with
  | 0 => s
  | S m =>
      if i <? m then roundsAbove env delta i m (paintballIter env delta m s) else s
  end.

(** The state in which the round of the paintball at index [i] starts, in
    the frame that [update] begins in [s]. *)
Definition roundOf (env : Env) (delta : float) (i : nat) (s : State) : State :=
  let s1 := beforePaintballs env delta s in
  roundsAbove env delta i (length (paintballs s1)) s1.

(** ** The vocabulary of the further properties *)

(** What [update] never writes: the city, the focus mode with its settings,
    and the pending animations of the field of view. *)
Definition backdrop (s : State) :=
  (buildingMeshes s, focusMode s, fovAnimations s, settings s).

(** The presses of the Tab key in a trace (the repeats that the keyboard
    sends while the key is held count as presses: they are [keydown]
    events). *)
Fixpoint tabPresses (events : list Event) : nat :=
  match events with
  | [] => 0
  | KeyDown code _ _ :: rest =>
      if String.eqb code "Tab" then S (tabPresses rest) else tabPresses rest
  | _ :: rest => tabPresses rest
  end.

(** The lock the browser reported last. *)
Fixpoint lastLock (locked : bool) (events : list Event) : bool :=
  match events with
  | [] => locked
  | PointerLockChange l :: rest => lastLock l rest
  | _ :: rest => lastLock locked rest
  end.

(** The eye of the first-person camera: [eyeHeight] above the player. *)
Definition eye (p : Player) : Vec3 := Vector3.add (p_position p) (mkVec3 0 1.6 0).

(** The direction of view of [update], from yaw and pitch. *)
Definition lookDir (env : Env) (p : Player) : Vec3 :=
  mkVec3 (- Math_sin env (p_yaw p) * Math_cos env (p_pitch p))
         (Math_sin env (p_pitch p))
         (- Math_cos env (p_yaw p) * Math_cos env (p_pitch p)).

(** The focus mode with its settings. *)
Definition modeOf (s : State) := (focusMode s, settings s).

(** The settings after [n] presses of Tab: those of the mode, with the
    label the page came with as long as no press has rewritten it. *)
Definition shownSettings (env : Env) (n : nat) (m : FocusMode) (page : Dom)
    : Fog * float * option string * option string :=
  let '(f, r, l, v) := modeSettings env m page in
  (f, r, if n =? 0 then focusModeEl page else l, v).

(** The bounds [update] keeps the pitch in, and the clamp between them. *)
Definition minPitch : float := (- Math_PI / 2 + 0.1)%float.
Definition maxPitch : float := (Math_PI / 2 - 0.1)%float.

Definition clampPitch (pitch : float) : float :=
  Math_max minPitch (Math_min maxPitch pitch).

Definition pitchInRange (p : Player) : Prop :=
  is_nan (p_pitch p) = true \/
  ((minPitch <=? p_pitch p)%float && (p_pitch p <=? maxPitch)%float)%bool = true.

(** The page shows the score: the text of the score element, if the page
    has one, is the score of the game. *)
Definition scoreShown (s : State) : Prop :=
  match scoreEl (dom s) with
  | Some shown => shown = score s
  | None => True
  end.

(** A target as [createTarget] makes it: worth 10, hit within 0.8. *)
Definition worthTen (t : Target) : Prop :=
  t_score t = 10%float /\ t_hitRadius t = 0.8%float.

(** The score after a number of hits: [score += target.score], from 0. *)
Fixpoint tens (hits : nat) : float :=
  match hits with
  | 0 => 0%float
  | S n => (tens n + 10)%float
  end.

(** The round at [i] is a hit: the paintball there is still alive after
    [b.life -= delta] and, moved, within the hit radius of a target. *)
Definition hitsTarget (delta : float) (i : nat) (s : State) : bool :=
  match paintballs s !! i with
  | Some b =>
      negb (b_life (flown delta b) <=? 0)%float
      && existsb (reaches (b_position (flown delta b))) (targets s)
  | None => false
  end.

(** The hits of the loop over the paintballs, entered with [n] of them. *)
Fixpoint loopHits (env : Env) (delta : float) (n : nat) (s : State) : nat :=
  match n with
  | 0 => 0
  | S i =>
      (if hitsTarget delta i s then 1 else 0)
      + loopHits env delta i (paintballIter env delta i s)
  end.

(** The hits of a frame, and of a sequence of events. *)
Definition frameHits (env : Env) (delta : float) (s : State) : nat :=
  let s1 := beforePaintballs env delta s in
  loopHits env delta (length (paintballs s1)) s1.

Fixpoint hitsIn (env : Env) (events : list Event) (s : State) : nat :=
  match events with
  | [] => 0
  | e :: rest =>
      match e with Frame _ delta => frameHits env delta s | _ => 0 end
      + hitsIn env rest (step env s e)
  end.

(** [score += 10], [n] times. *)
Definition plusTens (n : nat) (score : float) : float :=
  Nat.iter n (fun x => (x + 10)%float) score.

(** The game as the score sees it. *)
Definition scoreboard (s : State) := (targets s, score s, scoreEl (dom s)).

(** An animation of the field of view at the time [now]: how far it is,
    whether it asks for another frame, and the field of view it sets. *)
Definition progress (a : FovAnim) (now : float) : float :=
  Math_min ((now - startTime a) / 1000) 1.

Definition running (now : float) (a : FovAnim) : bool :=
  (progress a now <? 1)%float.

Definition easedFOV (env : Env) (a : FovAnim) (now : float) : float :=
  let eased :=
    if (progress a now <? 0.5)%float
    then (2 * progress a now * progress a now)%float
    else (1 - Math_pow env (-2 * progress a now + 2) 2 / 2)%float in
  (startFOV a + (targetFOV a - startFOV a) * eased)%float.

(** A target that was spawned and has not been through a frame yet. *)
Definition justSpawned (t : Target) : Prop :=
  worthTen t /\ t_lookAt t = None.

(** A building whose mesh is the box its record describes, standing on the
    ground: centred at half its height. *)
Definition standsOnGround (b : Building) : Prop :=
  m_geometry (bd_mesh b) = BoxGeometry (bd_w b) (bd_h b) (bd_d b) /\
  m_position (bd_mesh b) = mkVec3 (bd_x b) (bd_h b / 2) (bd_z b) /\
  m_orientation (bd_mesh b) = Unrotated.

(** A step of a flight of stairs: a slab 0.3 high and [width] deep. *)
Definition isStep (width : float) (m : Mesh) : Prop :=
  (exists len, m_geometry m = BoxGeometry len 0.3 width) /\
  m_orientation m = Unrotated.

(** A bridge: a plank 1 wide and 0.2 high, turned towards one of its ends. *)
Definition isBridge (m : Mesh) : Prop :=
  (exists len, m_geometry m = BoxGeometry 1 0.2 len) /\
  exists towards, m_orientation m = LookAt towards.


(** A number that is not infinite and, if it is a number at all, of an
    absolute value below 2^k. *)
Definition belowSF (k : Z) (x : spec_float) : Prop :=
  match x with
  | S754_zero _ | S754_nan => True
  | S754_infinity _ => False
  | S754_finite _ m e => (Z.pos m < 2 ^ (k - e))%Z
  end.

Definition below (k : Z) (x : float) : Prop := belowSF k (Prim2SF x).

(** [Math.random()] returns a number from 0 up to but not including 1. *)
Definition inUnit (x : float) : bool := ((0 <=? x) && (x <? 1))%float.

Definition unitRandom (env : Env) : Prop :=
  forall n, inUnit (Math_random env n) = true.

(** A building within 1024 of the origin along both axes. *)
Definition placed (b : Building) : Prop := below 10 (bd_x b) /\ below 10 (bd_z b).

(** Meshes created one after the other, from the identifier [first] on. *)
Definition numbered (first : objId) (meshes : list Mesh) : Prop :=
  map m_id meshes = seq first (length meshes).

(** [wd'] is [wd] with the meshes [added] built on top. *)
Definition builtOn (wd wd' : World) (added : list Mesh) : Prop :=
  w_meshes wd' = w_meshes wd ++ added /\
  numbered (w_nextId wd) added /\
  w_nextId wd' = w_nextId wd + length added.

(** The meshes of the game that come and go: those of the targets, of the
    paintballs (the particles of explosions among them) and of the
    splatters. *)
Definition live (s : State) : list objId :=
  map t_mesh (targets s) ++ map b_mesh (paintballs s) ++ map d_mesh (splatters s).

(** What the script puts in the scene once and for all: the two lights,
    the ground, the meshes of the city and the capsule of the player. *)
Definition fixtures (w : World) : list objId :=
  [0; 1; m_id ground] ++ map m_id (w_meshes w) ++ [w_nextId w].

(** The scene is tidy: its children are the fixtures and the live meshes,
    each once; every identifier in use is below the next one to hand out;
    and no mesh whose geometry and material were disposed is in the scene. *)
Definition tidy (fixed : list objId) (s : State) : Prop :=
  scene s ≡ₚ fixed ++ live s /\
  NoDup (scene s) /\
  Forall (fun o => o < nextId s) (scene s) /\
  Forall (fun o => o < nextId s /\ o ∉ scene s) (disposed s).

(** The two removals of [update]: of the target at index [j], and of the
    paintball at index [i] whose mesh is disposed. *)
Definition removeTarget (j : nat) (t : Target) (s : State) : State :=
  let s := scene_remove (t_mesh t) s in
  set_targets (delete j (targets s)) s.

Definition removePaintball (i : nat) (b : Paintball) (s : State) : State :=
  let s := scene_remove (b_mesh b) s in
  let s := dispose (b_mesh b) s in
  set_paintballs (delete i (paintballs s)) s.

(** What the tidiness of the scene depends on. *)
Definition stock (s : State) :=
  (scene s, nextId s, targets s, paintballs s, splatters s, disposed s).

(** A concrete environment and world, for evaluating the model: sine and
    cosine cut to the first terms of their series, a random generator stuck
    at one half, textures that draw nothing, and a raycaster that only knows
    the ground plane [y = 0]. *)
Module Demo.

Definition lookDirection (c : Camera) : Vec3 :=
  Vector3.normalize
    (mkVec3 (vx (c_lookAt c) - vx (c_position c))
            (vy (c_lookAt c) - vy (c_position c))
            (vz (c_lookAt c) - vz (c_position c))).

Definition groundHits (r : Ray) (objects : list Mesh) : list Intersection :=
  let o := ray_origin r in
  let d := ray_direction r in
  if (0 <? vy o)%float && (vy d <? 0)%float then
    let t := (- vy o / vy d)%float in
    if (t <=? ray_far r)%float then
      [mkIntersection t (Vector3.add o (Vector3.multiplyScalar d t))
         (mkVec3 0 0 1) (m_id ground)]
    else []
  else [].

Definition env : Env :=
  mkEnv (fun x => (x - x * x * x / 6)%float) (fun x => (1 - x * x / 2)%float)
    (fun x _ => (x * x)%float)
    (fun _ => 0.5%float) lookDirection groundHits 1 (fun _ => 0).

Definition page : Dom := mkDom (Some 0%float) (Some "FOCUSED") (Some "").

(** An empty city. *)
Definition world : World := mkWorld [] [] 3 0.

Definition start : State := initState env world page.

(** A paintball shot at the ground, one frame before it lands. *)
Definition aimedDown : State :=
  run env
    ([PointerLockChange true; MouseMove 0 400; Frame 0 0.015625; MouseDown 0]
       ++ repeat (Frame 16 0.015625) 2)
    start.

(** The paintball in flight there. *)
Definition shot : Paintball :=
  match paintballs aimedDown with
  | b :: _ => b
  | [] => mkPaintball 0 (mkVec3 0 0 0) (mkVec3 0 0 0) (mkColor 0 0 0) 0
  end.

(** An intersection with the ground at the origin. *)
Definition groundHit : Intersection :=
  mkIntersection 1 (mkVec3 0 0 0) (mkVec3 0 0 1) (m_id ground).

(** A city of one building, 4 by 4 and 6 high, with the player standing
    still in the middle of its roof. *)
Definition oneBuilding : World := addBuilding env 0 0 4 4 6 world.

Definition roof : Mesh := mkMesh 3 (BoxGeometry 4 6 4) (mkVec3 0 3 0) Unrotated.

Definition onTheRoof : State :=
  set_player
    (mkPlayer (mkVec3 0 6 0) 0 (mkVec3 0 0 0) true 0 0 None None)
    (initState env oneBuilding page).

End Demo.

(** More scenes for evaluating the model, in the demonstration
    environment. *)
Module Play.

(** The city of the script, as the demonstration environment builds it. *)
Definition city : World :=
  match generateCity Demo.env 0 with
  | Some w => w
  | None => Demo.world
  end.

(** A flight of stairs 6 long that climbs from height 6 to height 9. *)
Definition flight : World :=
  match addStairs 0 0 6 0 6 9 2 Demo.world with
  | Some w => w
  | None => Demo.world
  end.

(** The game after the first shot. *)
Definition armed : State :=
  run Demo.env [PointerLockChange true; MouseDown 0] Demo.start.

Definition ball : Paintball :=
  match paintballs armed with
  | b :: _ => b
  | [] => mkPaintball 0 (mkVec3 0 0 0) (mkVec3 0 0 0) (mkColor 0 0 0) 0
  end.

(** The last target of the list. *)
Definition lastTarget : Target :=
  match last (targets armed) with
  | Some t => t
  | None => mkTarget 0 (mkVec3 0 0 0) None 0 (mkVec3 0 0 0) 0 0 0
  end.

(** The paintball of the first shot, put where the last target is. *)
Definition pointBlank : State :=
  set_paintballs
    (<[0 := set_position (t_position lastTarget) ball]> (paintballs armed)) armed.

(** A paintball at ground level, beyond the reach of the demonstration
    raycaster, on its way down. *)
Definition sinking : Paintball :=
  mkPaintball 100 (mkVec3 0 0 0) (mkVec3 0 (-1) 0) (mkColor 0.5 0.8 0.5) 3.

Definition overTheEdge : State := set_paintballs [sinking] Demo.start.

(** The game a quarter of a second after its start: the player has
    landed. *)
Definition landed : State := update Demo.env 0 0.25 Demo.start.

(** The animation from the focused to the broad field of view, started at
    time 0. *)
Definition widening : FovAnim := mkFovAnim 45 90 0.

(** Where the paintball shot at the ground lands. *)
Definition impact : Intersection :=
  match
    intersectObjects Demo.env
      (mkRay (b_position Demo.shot) (Vector3.normalize (b_velocity Demo.shot))
         (Vector3.distanceTo (b_position Demo.shot)
            (b_position (flown 0.015625 Demo.shot))))
      (buildingMeshes Demo.aimedDown ++ [ground])
  with
  | hit :: _ => hit
  | [] => Demo.groundHit
  end.

End Play.

(** * Properties *)

(** [frame proj] rewrites [proj (f s)] to [proj s] for every state
    transformer [f] that leaves the projection [proj] alone. *)
Ltac frame_step proj :=
  match goal with
  | |- context [proj (?f ?s)] =>
      lazymatch type of s with State => idtac end;
      let H := fresh "Hframe" in
      assert (H : forall s', proj (f s') = proj s') by (intro; reflexivity);
      rewrite (H s); clear H
  end.

Ltac frame proj := repeat frame_step proj.

Lemma paintballs_set_paintballs v s : paintballs (set_paintballs v s) = v.
Proof. reflexivity. Qed.

Lemma targets_set_targets v s : targets (set_targets v s) = v.
Proof. reflexivity. Qed.

Ltac paintballs_set := rewrite ?paintballs_set_paintballs.

Ltac targets_set := rewrite ?targets_set_targets.

(** ** Lists *)

Lemma drop_delete_same {A} (i : nat) (l : list A) :
  drop i (delete i l) = drop (S i) l.
Proof. revert i; induction l as [|x l IH]; intros [|i]; simpl; auto. Qed.

Lemma take_delete_same {A} (i : nat) (l : list A) :
  take i (delete i l) = take i l.
Proof.
  revert i; induction l as [|x l IH]; intros [|i]; simpl; auto.
  by rewrite IH.
Qed.

Lemma delete_insert_same {A} (i : nat) (x : A) (l : list A) :
  delete i (<[i:=x]> l) = delete i l.
Proof.
  revert i; induction l as [|y l IH]; intros [|i]; simpl; auto.
  by rewrite IH.
Qed.

Lemma Forall_drop_S {A} (P : A -> Prop) (i : nat) (l : list A) :
  Forall P (drop i l) -> Forall P (drop (S i) l).
Proof.
  intros H. replace (drop (S i) l) with (drop 1 (drop i l)).
  - by apply Forall_drop.
  - rewrite drop_drop. f_equal. lia.
Qed.

Lemma Forall_drop_delete {A} (P : A -> Prop) (i : nat) (l : list A) :
  Forall P (drop i l) -> Forall P (drop i (delete i l)).
Proof. rewrite drop_delete_same. apply Forall_drop_S. Qed.

(** ** Numbers *)

(** [Math.abs] never returns a negative number, NaN included. *)
Lemma abs_not_negative (x : float) : (abs x <? 0)%float = false.
Proof.
  rewrite ltb_spec, abs_spec.
  destruct (Prim2SF x) as [s|s| |s m e]; reflexivity.
Qed.

(** [Math.abs] of a number is at least zero. *)
Lemma abs_nonneg (x : float) : is_nan x = false -> (0 <=? abs x)%float = true.
Proof.
  intros H. rewrite leb_spec, abs_spec.
  assert (Hn : Prim2SF x <> S754_nan).
  { intros E. unfold is_nan in H. rewrite FloatAxioms.eqb_spec, E in H. discriminate. }
  destruct (Prim2SF x) as [s|s| |s m e]; try reflexivity. congruence.
Qed.

(** Multiplying by -1 is exact: it only flips the sign. *)
Lemma mul_minus_one (x : float) : (x * -1)%float = (- x)%float.
Proof.
  apply Prim2SF_inj. rewrite mul_spec, opp_spec.
  pose proof (Prim2SF_valid x) as V.
  change (Prim2SF (-1)) with (S754_finite true 4503599627370496 (-52)).
  destruct (Prim2SF x) as [s|s| |s m e].
  1-3: cbn [SF64mul SFmul SFopp]; rewrite ?xorb_true_r; reflexivity.
  unfold valid_binary, bounded, canonical_mantissa in V.
  apply andb_prop in V. destruct V as [Hc Hb].
  apply Z.eqb_eq in Hc.
  unfold SF64mul, SFmul, SFopp. rewrite xorb_true_r, Pos.mul_comm.
  cbv [Pos.mul].
  unfold binary_round_aux, shr_fexp.
  cbn [Zdigits2 digits2_pos].
  match goal with |- context [fexp prec emax ?a] =>
    replace a with (Z.pos (digits2_pos m) + e)%Z by lia end.
  rewrite Hc.
  replace (e - (e + -52))%Z with 52%Z by lia.
  cbv [shr shr_record_of_loc SpecFloat.iter_pos shr_1 shr_m shr_r shr_s orb
       loc_of_shr_record round_nearest_even fst snd].
  cbn [Zdigits2].
  replace (e + -52 + 52)%Z with e by lia.
  rewrite Hc, Z.sub_diag, Hb. reflexivity.
Qed.

(** The sign of a product's result follows the sign given to the rounding. *)
Lemma binary_round_aux_negb s m e l :
  binary_round_aux prec emax (negb s) m e l
  = SFopp (binary_round_aux prec emax s m e l).
Proof.
  unfold binary_round_aux.
  destruct (shr_fexp prec emax m e l) as [mrs' e'].
  destruct (shr_fexp _ _ _ _ _) as [mrs'' e''].
  destruct (shr_m mrs''); [reflexivity | | reflexivity].
  destruct (_ <=? _)%Z; reflexivity.
Qed.

Lemma mul_opp_l (x y : float) : (- x * y)%float = (- (x * y))%float.
Proof.
  apply Prim2SF_inj. rewrite mul_spec, !opp_spec, mul_spec.
  destruct (Prim2SF x) as [sx|sx| |sx mx ex], (Prim2SF y) as [sy|sy| |sy my ey];
    cbn [SF64mul SFmul SFopp]; rewrite <- ?negb_xorb_l; try reflexivity.
  apply binary_round_aux_negb.
Qed.

Lemma add_opp_r (x y : float) : (x + - y)%float = (x - y)%float.
Proof.
  apply Prim2SF_inj. rewrite add_spec, sub_spec, opp_spec.
  destruct (Prim2SF x) as [sx|sx| |sx mx ex], (Prim2SF y) as [sy|sy| |sy my ey];
    cbn [SF64add SFadd SF64sub SFsub SFopp];
    try reflexivity; destruct sx, sy; reflexivity.
Qed.

(** Adding [gravity * delta] takes 30 * delta away. *)
Lemma gravity_decreases (v delta : float) :
  (v + -30 * delta)%float = (v - 30 * delta)%float.
Proof.
  change (-30)%float with (- (30))%float.
  rewrite mul_opp_l. apply add_opp_r.
Qed.

Lemma particle_alive b : particle b -> alive b.
Proof. unfold particle, alive. intros ->. reflexivity. Qed.

Section Properties.

Variable env : Env.

(** ** What the loops of [update] leave alone *)

Lemma updateScoreDisplay_controls s : controls (updateScoreDisplay s) = controls s.
Proof. unfold updateScoreDisplay. destruct (scoreEl _); reflexivity. Qed.

Lemma updateScoreDisplay_targets s : targets (updateScoreDisplay s) = targets s.
Proof. unfold updateScoreDisplay. destruct (scoreEl _); reflexivity. Qed.

Lemma updateScoreDisplay_splatters s : splatters (updateScoreDisplay s) = splatters s.
Proof. unfold updateScoreDisplay. destruct (scoreEl _); reflexivity. Qed.

Lemma updateScoreDisplay_paintballs s : paintballs (updateScoreDisplay s) = paintballs s.
Proof. unfold updateScoreDisplay. destruct (scoreEl _); reflexivity. Qed.

Lemma trimSplatters_controls s : controls (trimSplatters s) = controls s.
Proof.
  unfold trimSplatters. destruct (_ <? _); [|reflexivity].
  destruct (splatters s); reflexivity.
Qed.

Lemma trimSplatters_targets s : targets (trimSplatters s) = targets s.
Proof.
  unfold trimSplatters. destruct (_ <? _); [|reflexivity].
  destruct (splatters s); reflexivity.
Qed.

Lemma trimSplatters_paintballs s : paintballs (trimSplatters s) = paintballs s.
Proof.
  unfold trimSplatters. destruct (_ <? _); [|reflexivity].
  destruct (splatters s); reflexivity.
Qed.

Lemma addDecal_controls hit c s : controls (addDecal env hit c s) = controls s.
Proof. unfold addDecal. rewrite trimSplatters_controls. reflexivity. Qed.

Lemma addDecal_targets hit c s : targets (addDecal env hit c s) = targets s.
Proof. unfold addDecal. rewrite trimSplatters_targets. reflexivity. Qed.

Lemma addDecal_paintballs hit c s : paintballs (addDecal env hit c s) = paintballs s.
Proof. unfold addDecal. rewrite trimSplatters_paintballs. reflexivity. Qed.

Lemma hitTarget_controls b i j t s : controls (hitTarget env b i j t s) = controls s.
Proof.
  cbv beta zeta delta [hitTarget]. rewrite updateScoreDisplay_controls.
  frame controls. reflexivity.
Qed.

Lemma hitTarget_splatters b i j t s : splatters (hitTarget env b i j t s) = splatters s.
Proof.
  cbv beta zeta delta [hitTarget]. rewrite updateScoreDisplay_splatters.
  frame splatters. reflexivity.
Qed.

Lemma pushTarget_targets s :
  targets (pushTarget env s) = targets s ++ [fst (createTarget env s)].
Proof. reflexivity. Qed.

(** A hit takes the target at [j] out and pushes a fresh one. *)
Lemma hitTarget_targets b i j t s :
  exists fresh, targets (hitTarget env b i j t s) = delete j (targets s) ++ [fresh].
Proof.
  cbv beta zeta delta [hitTarget]. rewrite updateScoreDisplay_targets.
  frame targets. rewrite pushTarget_targets. targets_set.
  frame targets. eexists. reflexivity.
Qed.

Lemma createParticles_paintballs n pos c s :
  exists ps, paintballs (createParticles env n pos c s) = paintballs s ++ ps
             /\ Forall particle ps.
Proof.
  revert s; induction n as [|n IH]; intros s.
  - exists []. split; [by rewrite app_nil_r | constructor].
  - cbn [createParticles].
    destruct (IH (createParticle env pos c s)) as (ps & -> & Hps).
    eexists (_ :: ps). split.
    + change (paintballs (createParticle env pos c s))
        with (paintballs s ++ [mkPaintball (nextId s) pos
                (mkVec3 ((Math_random env (rng s + 0) - 0.5) * 10)
                        ((Math_random env (rng s + 1) - 0.5) * 10)
                        ((Math_random env (rng s + 2) - 0.5) * 10)) c 0.5]).
      rewrite <- app_assoc. reflexivity.
    + constructor; [reflexivity | exact Hps].
Qed.

(** A hit takes the paintball at [i] out, after the particles of the
    explosion were pushed. *)
Lemma hitTarget_paintballs b i j t s :
  exists ps, paintballs (hitTarget env b i j t s) = delete i (paintballs s ++ ps)
             /\ Forall particle ps.
Proof.
  cbv beta zeta delta [hitTarget]. rewrite updateScoreDisplay_paintballs.
  paintballs_set. frame paintballs. unfold createExplosion.
  destruct (createParticles_paintballs 20 (t_position t) (b_color b)
              (set_score (score s + t_score t) s)) as (ps & -> & Hps).
  exists ps. split; [reflexivity | exact Hps].
Qed.

Lemma targetLoop_controls b i n s : controls (targetLoop env b i n s) = controls s.
Proof.
  induction n as [|j IH]; [reflexivity|]. cbn [targetLoop].
  destruct (targets s !! j); [|reflexivity].
  destruct (_ <? _)%float; [apply hitTarget_controls | exact IH].
Qed.

Lemma targetLoop_splatters b i n s : splatters (targetLoop env b i n s) = splatters s.
Proof.
  induction n as [|j IH]; [reflexivity|]. cbn [targetLoop].
  destruct (targets s !! j); [|reflexivity].
  destruct (_ <? _)%float; [apply hitTarget_splatters | exact IH].
Qed.

Lemma targetLoop_targets_length b i n s :
  length (targets (targetLoop env b i n s)) = length (targets s).
Proof.
  induction n as [|j IH]; [reflexivity|]. cbn [targetLoop].
  destruct (targets s !! j) as [t|] eqn:Ht; [|reflexivity].
  destruct (_ <? _)%float; [|exact IH].
  destruct (hitTarget_targets b i j t s) as [fresh ->].
  rewrite length_app, length_delete by eauto.
  apply lookup_lt_Some in Ht. simpl. lia.
Qed.

Lemma targetLoop_paintballs b i n s :
  paintballs (targetLoop env b i n s) = paintballs s \/
  exists ps, paintballs (targetLoop env b i n s) = delete i (paintballs s ++ ps)
             /\ Forall particle ps.
Proof.
  induction n as [|j IH]; [by left|]. cbn [targetLoop].
  destruct (targets s !! j); [|by left].
  destruct (_ <? _)%float; [right; apply hitTarget_paintballs | exact IH].
Qed.

(** Without a target in reach the loop over the targets does nothing. *)
Lemma targetLoop_miss b i n s :
  existsb (reaches (b_position b)) (targets s) = false ->
  targetLoop env b i n s = s.
Proof.
  intros Hmiss. induction n as [|j IH]; [reflexivity|]. cbn [targetLoop].
  destruct (targets s !! j) as [t|] eqn:Ht; [|reflexivity].
  assert (Hr : reaches (b_position b) t = false).
  { destruct (reaches (b_position b) t) eqn:E; [|reflexivity].
    rewrite <- Hmiss. symmetry. apply existsb_exists. exists t. split; [|exact E].
    apply list_elem_of_In, list_elem_of_lookup. eauto. }
  unfold reaches in Hr. rewrite Hr. exact IH.
Qed.

(** ** Splatters *)

Lemma pushDecal_splatters hit c s :
  splatters (pushDecal env hit c s) = splatters s ++ [newDecal env hit c s].
Proof. reflexivity. Qed.

Lemma trimSplatters_splatters s :
  splatters (trimSplatters s) =
  if 200 <? length (splatters s) then drop 1 (splatters s) else splatters s.
Proof.
  unfold trimSplatters. destruct (200 <? length (splatters s)); [|reflexivity].
  destruct (splatters s) as [|old rest] eqn:E; [exact E | reflexivity].
Qed.

Lemma addDecal_splatters hit c s :
  splatters (addDecal env hit c s) =
  if 200 <? length (splatters s ++ [newDecal env hit c s])
  then drop 1 (splatters s ++ [newDecal env hit c s])
  else splatters s ++ [newDecal env hit c s].
Proof.
  unfold addDecal. rewrite trimSplatters_splatters, pushDecal_splatters. reflexivity.
Qed.

Lemma addDecal_bound hit c s :
  length (splatters s) <= 200 -> length (splatters (addDecal env hit c s)) <= 200.
Proof.
  intros H. rewrite addDecal_splatters.
  destruct (200 <? _) eqn:E.
  - rewrite length_drop, length_app. simpl. lia.
  - apply Nat.ltb_ge in E. exact E.
Qed.

(** ** One round of the loop over the paintballs *)

Lemma paintballIter_none delta i s :
  paintballs s !! i = None -> paintballIter env delta i s = s.
Proof. intros H. unfold paintballIter. rewrite H. reflexivity. Qed.

Lemma paintballIter_controls delta i s :
  controls (paintballIter env delta i s) = controls s.
Proof.
  unfold paintballIter.
  destruct (paintballs s !! i) as [b|]; [|reflexivity].
  cbv beta zeta.
  destruct (_ <=? _)%float; [reflexivity|].
  match goal with |- context [targetLoop env ?b ?i ?n ?s] =>
    pose proof (targetLoop_controls b i n s) as Hl;
    set (s2 := targetLoop env b i n s) in * end.
  revert Hl. frame controls. intros <-.
  destruct (negb _); [reflexivity|].
  destruct (intersectObjects _ _ _).
  - destruct (_ <? _)%float; reflexivity.
  - frame controls. rewrite addDecal_controls. reflexivity.
Qed.

Lemma paintballIter_targets_length delta i s :
  length (targets (paintballIter env delta i s)) = length (targets s).
Proof.
  unfold paintballIter.
  destruct (paintballs s !! i) as [b|]; [|reflexivity].
  cbv beta zeta.
  destruct (_ <=? _)%float; [reflexivity|].
  match goal with |- context [targetLoop env ?b ?i ?n ?s] =>
    pose proof (targetLoop_targets_length b i n s) as Hl;
    set (s2 := targetLoop env b i n s) in * end.
  revert Hl. frame targets. intros <-.
  destruct (negb _); [reflexivity|].
  destruct (intersectObjects _ _ _).
  - destruct (_ <? _)%float; reflexivity.
  - frame targets. rewrite addDecal_targets. reflexivity.
Qed.

Lemma paintballIter_splatters_bound delta i s :
  length (splatters s) <= 200 ->
  length (splatters (paintballIter env delta i s)) <= 200.
Proof.
  intros Hs. unfold paintballIter.
  destruct (paintballs s !! i) as [b|]; [|exact Hs].
  cbv beta zeta.
  destruct (_ <=? _)%float; [exact Hs|].
  match goal with |- context [targetLoop env ?b ?i ?n ?s] =>
    pose proof (targetLoop_splatters b i n s) as Hl;
    set (s2 := targetLoop env b i n s) in * end.
  revert Hl. frame splatters. intros Hl.
  destruct (negb _); [by rewrite Hl|].
  destruct (intersectObjects _ _ _).
  - destruct (_ <? _)%float; frame splatters; by rewrite Hl.
  - frame splatters. apply addDecal_bound. frame splatters. by rewrite Hl.
Qed.

(** The list of paintballs after the round at index [i]: either the
    paintball flies on, or it is deleted, possibly after the particles [ps]
    of an explosion were pushed. *)
Lemma paintballIter_paintballs delta i s b :
  paintballs s !! i = Some b ->
  if (b_life b - delta <=? 0)%float
  then paintballs (paintballIter env delta i s) = delete i (paintballs s)
  else exists ps, Forall particle ps /\
    let l := <[i:=flown delta b]> (paintballs s) in
    (paintballs (paintballIter env delta i s) = l \/
     paintballs (paintballIter env delta i s) = delete i l \/
     paintballs (paintballIter env delta i s) = delete i (l ++ ps) \/
     paintballs (paintballIter env delta i s) = delete i (delete i (l ++ ps))).
Proof.
  intros Hb. unfold paintballIter. rewrite Hb. cbv beta zeta.
  change (b_life (set_life (b_life b - delta) b)) with (b_life b - delta)%float.
  destruct (_ <=? _)%float.
  - paintballs_set. frame paintballs. paintballs_set.
    apply delete_insert_same.
  - match goal with |- context [targetLoop env ?b' ?i ?n ?s1] =>
      pose proof (targetLoop_paintballs b' i n s1) as Hl;
      set (s2 := targetLoop env b' i n s1) in *;
      change b' with (flown delta b) in * end.
    revert Hl. paintballs_set. rewrite list_insert_insert_eq. intros Hl.
    assert (Hshape : exists ps, Forall particle ps /\
              (paintballs s2 = <[i:=flown delta b]> (paintballs s) \/
               paintballs s2 = delete i (<[i:=flown delta b]> (paintballs s) ++ ps))).
    { destruct Hl as [Hl | (ps & Hl & Hps)].
      - exists []. split; [constructor | by left].
      - exists ps. split; [exact Hps | by right]. }
    clear Hl. destruct Hshape as (ps & Hps & Hshape).
    exists ps. split; [exact Hps|]. cbv zeta.
    clearbody s2.
    destruct (negb _); [tauto|].
    destruct (intersectObjects _ _ _).
    + destruct (_ <? _)%float.
      * paintballs_set. frame paintballs.
        destruct Hshape as [-> | ->]; tauto.
      * frame paintballs. tauto.
    + paintballs_set. frame paintballs. rewrite addDecal_paintballs. frame paintballs.
      destruct Hshape as [-> | ->]; tauto.
Qed.

Lemma paintballIter_take delta i s :
  take i (paintballs (paintballIter env delta i s)) = take i (paintballs s).
Proof.
  destruct (paintballs s !! i) as [b|] eqn:Hb.
  2:{ by rewrite paintballIter_none. }
  pose proof (lookup_lt_Some _ _ _ Hb) as Hlt.
  pose proof (paintballIter_paintballs delta i s b Hb) as H.
  destruct (_ <=? _)%float.
  - rewrite H. apply take_delete_same.
  - destruct H as (ps & _ & H). cbv zeta in H.
    assert (Hl : i <= length (<[i:=flown delta b]> (paintballs s)))
      by (rewrite length_insert; lia).
    destruct H as [-> | [-> | [-> | ->]]];
      rewrite ?take_delete_same, ?take_app_le by exact Hl;
      apply take_insert_ge; lia.
Qed.

(** A property of the paintballs that holds of the particles of an
    explosion and of a paintball that flies on holds of everything from
    index [i] on after the round at [i], if it held beyond [i] before. *)
Lemma paintballIter_Forall (P : Paintball -> Prop) delta i s :
  (forall p, particle p -> P p) ->
  (forall b, paintballs s !! i = Some b -> alive (flown delta b) -> P (flown delta b)) ->
  Forall P (drop (S i) (paintballs s)) ->
  Forall P (drop i (paintballs (paintballIter env delta i s))).
Proof.
  intros Hparticle Hflown Hrest.
  destruct (paintballs s !! i) as [b|] eqn:Hb.
  2:{ rewrite paintballIter_none by exact Hb.
      apply lookup_ge_None in Hb. rewrite drop_ge by lia. constructor. }
  pose proof (lookup_lt_Some _ _ _ Hb) as Hlt.
  pose proof (paintballIter_paintballs delta i s b Hb) as H.
  destruct (_ <=? _)%float eqn:Hlife.
  - rewrite H, drop_delete_same. exact Hrest.
  - destruct H as (ps & Hps & H). cbv zeta in H.
    set (l := <[i:=flown delta b]> (paintballs s)) in *.
    assert (Hl : Forall P (drop i l)).
    { unfold l. rewrite insert_take_drop by lia.
      rewrite drop_app_length' by (rewrite length_take; lia).
      constructor; [by apply Hflown | exact Hrest]. }
    assert (Hlps : Forall P (drop i (l ++ ps))).
    { rewrite drop_app_le by (unfold l; rewrite length_insert; lia).
      apply Forall_app. split; [exact Hl|].
      eapply Forall_impl; [exact Hps | exact Hparticle]. }
    destruct H as [-> | [-> | [-> | ->]]]; auto using Forall_drop_delete.
Qed.

(** ** The loop over the paintballs *)

Lemma paintballLoop_controls delta n s :
  controls (paintballLoop env delta n s) = controls s.
Proof.
  revert s; induction n as [|i IH]; intros s; [reflexivity|].
  cbn [paintballLoop]. rewrite IH. apply paintballIter_controls.
Qed.

Lemma paintballLoop_targets_length delta n s :
  length (targets (paintballLoop env delta n s)) = length (targets s).
Proof.
  revert s; induction n as [|i IH]; intros s; [reflexivity|].
  cbn [paintballLoop]. rewrite IH. apply paintballIter_targets_length.
Qed.

Lemma paintballLoop_splatters_bound delta n s :
  length (splatters s) <= 200 ->
  length (splatters (paintballLoop env delta n s)) <= 200.
Proof.
  revert s; induction n as [|i IH]; intros s H; [exact H|].
  cbn [paintballLoop]. apply IH. by apply paintballIter_splatters_bound.
Qed.

Lemma paintballLoop_Forall (P : Paintball -> Prop) (l0 : list Paintball) delta n s :
  (forall p, particle p -> P p) ->
  (forall b, b ∈ l0 -> alive (flown delta b) -> P (flown delta b)) ->
  take n (paintballs s) = take n l0 ->
  Forall P (drop n (paintballs s)) ->
  Forall P (paintballs (paintballLoop env delta n s)).
Proof.
  intros Hparticle Hflown. revert s; induction n as [|i IH]; intros s Htake Hrest.
  - by rewrite drop_0 in Hrest.
  - cbn [paintballLoop]. apply IH.
    + rewrite paintballIter_take.
      replace i with (i `min` S i) at 1 2 by lia.
      rewrite <- !take_take. by rewrite Htake.
    + apply paintballIter_Forall; [exact Hparticle | | exact Hrest].
      intros b Hb. apply Hflown.
      apply list_elem_of_lookup. exists i.
      rewrite <- (lookup_take_lt l0 (S i) i) by lia.
      rewrite <- Htake. rewrite lookup_take_lt by lia. exact Hb.
Qed.

(** ** The whole update *)

Lemma updateMouseLook_controls_off s :
  isPointerLocked s = false -> updateMouseLook s = s.
Proof. intros H. unfold updateMouseLook. by rewrite H. Qed.

Lemma updateMouseLook_paintballs s : paintballs (updateMouseLook s) = paintballs s.
Proof. unfold updateMouseLook. destruct (isPointerLocked s); reflexivity. Qed.

Lemma updateMouseLook_targets s : targets (updateMouseLook s) = targets s.
Proof. unfold updateMouseLook. destruct (isPointerLocked s); reflexivity. Qed.

Lemma updateMouseLook_splatters s : splatters (updateMouseLook s) = splatters s.
Proof. unfold updateMouseLook. destruct (isPointerLocked s); reflexivity. Qed.

(** The player after [update]: mouse look, then [stepPlayer]. *)
Lemma update_controls now delta s :
  controls (update env now delta s) =
  controls (updatePlayer env delta (updateMouseLook s)).
Proof.
  unfold update, updateCamera, updatePaintballs. frame controls.
  rewrite paintballLoop_controls. unfold updateTargets. frame controls.
  reflexivity.
Qed.

Lemma update_targets_length now delta s :
  length (targets (update env now delta s)) = length (targets s).
Proof.
  unfold update, updateCamera, updatePaintballs. frame targets.
  rewrite paintballLoop_targets_length. unfold updateTargets. targets_set.
  rewrite length_map. unfold updatePlayer. frame targets.
  by rewrite updateMouseLook_targets.
Qed.

Lemma update_splatters_bound now delta s :
  length (splatters s) <= 200 -> length (splatters (update env now delta s)) <= 200.
Proof.
  intros H. unfold update, updateCamera, updatePaintballs. frame splatters.
  apply paintballLoop_splatters_bound. unfold updateTargets, updatePlayer.
  frame splatters. by rewrite updateMouseLook_splatters.
Qed.

Lemma update_paintballs_before delta s :
  paintballs (updateTargets env delta (updatePlayer env delta (updateMouseLook s)))
  = paintballs s.
Proof.
  unfold updateTargets, updatePlayer. frame paintballs.
  apply updateMouseLook_paintballs.
Qed.

Lemma update_Forall (P : Paintball -> Prop) now delta s :
  (forall p, particle p -> P p) ->
  (forall b, b ∈ paintballs s -> alive (flown delta b) -> P (flown delta b)) ->
  Forall P (paintballs (update env now delta s)).
Proof.
  intros Hparticle Hflown.
  unfold update, updateCamera. frame paintballs. unfold updatePaintballs.
  apply (paintballLoop_Forall P (paintballs s)); auto.
  - by rewrite update_paintballs_before.
  - rewrite drop_all. constructor.
Qed.

(** ** The event listeners *)

Lemma controls_inv s s' :
  controls s = controls s' ->
  player s = player s' /\ isPointerLocked s = isPointerLocked s' /\
  mouseDeltaX s = mouseDeltaX s' /\ mouseDeltaY s = mouseDeltaY s' /\
  keys s = keys s'.
Proof. unfold controls. intros [= -> -> -> -> ->]. auto 10. Qed.

Lemma arena_inv s s' :
  arena s = arena s' ->
  targets s = targets s' /\ splatters s = splatters s' /\
  isPointerLocked s = isPointerLocked s'.
Proof. unfold arena. intros [= -> -> ->]. auto. Qed.

Lemma updateFOV_arena a now s : arena (updateFOV env a now s) = arena s.
Proof. unfold updateFOV. cbv zeta. destruct (_ <? 1)%float; reflexivity. Qed.

Lemma toggleFocusMode_arena t0 t1 s : arena (toggleFocusMode env t0 t1 s) = arena s.
Proof.
  cbv beta zeta delta [toggleFocusMode animateFOV]. frame arena.
  rewrite updateFOV_arena. reflexivity.
Qed.

Lemma fovFrame_arena now s : arena (fovFrame env now s) = arena s.
Proof.
  unfold fovFrame.
  change (arena s) with (arena (set_fovAnimations [] s)).
  generalize (set_fovAnimations [] s). generalize (fovAnimations s).
  intros l; induction l as [|a l IH]; intros s0; [reflexivity|].
  cbn [fold_left]. rewrite IH. apply updateFOV_arena.
Qed.

Lemma shootPaintball_arena s : arena (shootPaintball env s) = arena s.
Proof. reflexivity. Qed.

Lemma keydown_arena code t0 t1 s : arena (keydown env code t0 t1 s) = arena s.
Proof.
  unfold keydown. cbv zeta. destruct (String.eqb code "Tab"); [|reflexivity].
  rewrite toggleFocusMode_arena. reflexivity.
Qed.

Lemma mousemove_off mx my s : isPointerLocked s = false -> mousemove mx my s = s.
Proof. intros H. unfold mousemove. by rewrite H. Qed.

Lemma mousemove_arena mx my s : arena (mousemove mx my s) = arena s.
Proof. unfold mousemove. destruct (isPointerLocked s); reflexivity. Qed.

Lemma mousedown_arena button s : arena (mousedown env button s) = arena s.
Proof. unfold mousedown. destruct (_ && _); reflexivity. Qed.

Lemma update_isPointerLocked now delta s :
  isPointerLocked (update env now delta s) = isPointerLocked s.
Proof.
  destruct (controls_inv _ _ (update_controls now delta s)) as (_ & -> & _).
  unfold updatePlayer. frame isPointerLocked.
  unfold updateMouseLook. destruct (isPointerLocked s) eqn:E; exact E.
Qed.

(** Only [pointerlockchange] writes the lock. *)
Lemma step_isPointerLocked s e :
  isPointerLocked (step env s e) =
  match e with PointerLockChange l => l | _ => isPointerLocked s end.
Proof.
  destruct e as [l|mx my|code t0 t1|code|button|now delta|now]; cbn [step].
  - reflexivity.
  - by destruct (arena_inv _ _ (mousemove_arena mx my s)) as (_ & _ & ->).
  - by destruct (arena_inv _ _ (keydown_arena code t0 t1 s)) as (_ & _ & ->).
  - reflexivity.
  - by destruct (arena_inv _ _ (mousedown_arena button s)) as (_ & _ & ->).
  - apply update_isPointerLocked.
  - by destruct (arena_inv _ _ (fovFrame_arena now s)) as (_ & _ & ->).
Qed.

Lemma step_targets_length s e :
  length (targets (step env s e)) = length (targets s).
Proof.
  destruct e as [l|mx my|code t0 t1|code|button|now delta|now]; cbn [step].
  - reflexivity.
  - by destruct (arena_inv _ _ (mousemove_arena mx my s)) as (-> & _).
  - by destruct (arena_inv _ _ (keydown_arena code t0 t1 s)) as (-> & _).
  - reflexivity.
  - by destruct (arena_inv _ _ (mousedown_arena button s)) as (-> & _).
  - apply update_targets_length.
  - by destruct (arena_inv _ _ (fovFrame_arena now s)) as (-> & _).
Qed.

Lemma step_splatters_bound s e :
  length (splatters s) <= 200 -> length (splatters (step env s e)) <= 200.
Proof.
  intros H.
  destruct e as [l|mx my|code t0 t1|code|button|now delta|now]; cbn [step].
  - exact H.
  - by destruct (arena_inv _ _ (mousemove_arena mx my s)) as (_ & -> & _).
  - by destruct (arena_inv _ _ (keydown_arena code t0 t1 s)) as (_ & -> & _).
  - exact H.
  - by destruct (arena_inv _ _ (mousedown_arena button s)) as (_ & -> & _).
  - by apply update_splatters_bound.
  - by destruct (arena_inv _ _ (fovFrame_arena now s)) as (_ & -> & _).
Qed.

Lemma run_targets_length events s :
  length (targets (run env events s)) = length (targets s).
Proof.
  revert s; induction events as [|e events IH]; intros s; [reflexivity|].
  unfold run in *. cbn [fold_left]. rewrite IH. apply step_targets_length.
Qed.

Lemma run_splatters_bound events s :
  length (splatters s) <= 200 -> length (splatters (run env events s)) <= 200.
Proof.
  revert s; induction events as [|e events IH]; intros s H; [exact H|].
  unfold run in *. cbn [fold_left]. apply IH. by apply step_splatters_bound.
Qed.

(** ** The start *)

Lemma spawnTargets_targets_length n s :
  length (targets (spawnTargets env n s)) = length (targets s) + n.
Proof.
  revert s; induction n as [|n IH]; intros s; cbn [spawnTargets]; [lia|].
  rewrite IH, pushTarget_targets, length_app. simpl. lia.
Qed.

Lemma spawnTargets_splatters n s : splatters (spawnTargets env n s) = splatters s.
Proof.
  revert s; induction n as [|n IH]; intros s; cbn [spawnTargets]; [reflexivity|].
  rewrite IH. reflexivity.
Qed.

Lemma initState_targets_length w page :
  length (targets (initState env w page)) = MAX_TARGETS.
Proof.
  cbv beta zeta delta [initState]. frame targets.
  rewrite updateScoreDisplay_targets, spawnTargets_targets_length. reflexivity.
Qed.

Lemma initState_splatters w page : splatters (initState env w page) = [].
Proof.
  cbv beta zeta delta [initState]. frame splatters.
  rewrite updateScoreDisplay_splatters, spawnTargets_splatters. reflexivity.
Qed.

(** ** The player depends on the controls alone *)

Lemma updateFOV_controls a now s : controls (updateFOV env a now s) = controls s.
Proof. unfold updateFOV. cbv zeta. destruct (_ <? 1)%float; reflexivity. Qed.

Lemma toggleFocusMode_controls t0 t1 s :
  controls (toggleFocusMode env t0 t1 s) = controls s.
Proof.
  cbv beta zeta delta [toggleFocusMode animateFOV]. frame controls.
  rewrite updateFOV_controls. reflexivity.
Qed.

Lemma fovFrame_controls now s : controls (fovFrame env now s) = controls s.
Proof.
  unfold fovFrame.
  change (controls s) with (controls (set_fovAnimations [] s)).
  generalize (set_fovAnimations [] s). generalize (fovAnimations s).
  intros l; induction l as [|a l IH]; intros s0; [reflexivity|].
  cbn [fold_left]. rewrite IH. apply updateFOV_controls.
Qed.

Lemma spawnTargets_controls n s : controls (spawnTargets env n s) = controls s.
Proof.
  revert s; induction n as [|n IH]; intros s; cbn [spawnTargets]; [reflexivity|].
  rewrite IH. reflexivity.
Qed.

(** The controls at the start are the same in every city and on every page. *)
Lemma initState_controls w page :
  controls (initState env w page) =
  (mkPlayer (mkVec3 0 (playerHeight / 2) 0) 0 (mkVec3 0 0 0) false 0 0 None None,
   false, 0%float, 0%float, ∅).
Proof.
  cbv beta zeta delta [initState]. frame controls.
  rewrite updateScoreDisplay_controls, spawnTargets_controls. reflexivity.
Qed.

Lemma updateMouseLook_controls s :
  controls (updateMouseLook s) =
  if isPointerLocked s
  then (mouseLook (mouseDeltaX s) (mouseDeltaY s) (player s), true,
        0%float, 0%float, keys s)
  else controls s.
Proof.
  unfold updateMouseLook. destruct (isPointerLocked s) eqn:E; [|reflexivity].
  unfold controls. frame isPointerLocked. rewrite E. reflexivity.
Qed.

Lemma updatePlayer_controls delta s :
  controls (updatePlayer env delta s) =
  (stepPlayer env delta (keys s) (player s), isPointerLocked s,
   mouseDeltaX s, mouseDeltaY s, keys s).
Proof. reflexivity. Qed.

(** The controls after an event are a function of the controls before. *)
Lemma step_controls s s' e :
  controls s = controls s' -> controls (step env s e) = controls (step env s' e).
Proof.
  intros H. pose proof (controls_inv _ _ H) as (Hp & Hl & Hx & Hy & Hk).
  destruct e as [l|mx my|code t0 t1|code|button|now delta|now]; cbn [step].
  - unfold pointerlockchange, controls.
    frame player. frame mouseDeltaX. frame mouseDeltaY. frame keys.
    rewrite Hp, Hx, Hy, Hk. reflexivity.
  - unfold mousemove. rewrite <- Hl. destruct (isPointerLocked s) eqn:E; [|exact H].
    unfold controls. frame player. frame isPointerLocked. frame keys.
    rewrite E, Hp, <- Hl, Hk.
    change (mouseDeltaX (set_mouseDeltaY ?v ?x)) with (mouseDeltaX x).
    change (mouseDeltaX (set_mouseDeltaX ?v ?x)) with v.
    change (mouseDeltaY (set_mouseDeltaY ?v ?x)) with v.
    change (mouseDeltaY (set_mouseDeltaX ?v ?x)) with (mouseDeltaY x).
    rewrite Hx, Hy. reflexivity.
  - unfold keydown. cbv zeta.
    assert (Hset : controls (set_keys (<[code:=true]> (keys s)) s)
                   = controls (set_keys (<[code:=true]> (keys s')) s')).
    { unfold controls. frame player. frame isPointerLocked.
      frame mouseDeltaX. frame mouseDeltaY.
      change (keys (set_keys ?v ?x)) with v.
      rewrite Hp, Hl, Hx, Hy, Hk. reflexivity. }
    destruct (String.eqb code "Tab"); [|exact Hset].
    rewrite !toggleFocusMode_controls. exact Hset.
  - unfold keyup, controls. frame player. frame isPointerLocked.
    frame mouseDeltaX. frame mouseDeltaY.
    change (keys (set_keys ?v ?x)) with v.
    rewrite Hp, Hl, Hx, Hy, Hk. reflexivity.
  - unfold mousedown. rewrite <- Hl. destruct (_ && _); [|exact H].
    change (controls (shootPaintball env ?x))
      with (mkPlayer (p_position (player x)) (p_rotationY (player x))
              (p_velocity (player x)) (p_onGround (player x)) (p_yaw (player x))
              (p_pitch (player x)) (Some 1.0%float) (p_gun (player x)),
            isPointerLocked x, mouseDeltaX x, mouseDeltaY x, keys x).
    rewrite Hp, Hl, Hx, Hy, Hk. reflexivity.
  - rewrite !update_controls, !updatePlayer_controls.
    pose proof (updateMouseLook_controls s) as Hs.
    pose proof (updateMouseLook_controls s') as Hs'.
    rewrite <- Hl, <- Hx, <- Hy, <- Hp, <- Hk, <- H, <- Hs in Hs'.
    destruct (controls_inv _ _ Hs') as (-> & -> & -> & -> & ->). reflexivity.
  - rewrite !fovFrame_controls. exact H.
Qed.

Lemma run_controls events s s' :
  controls s = controls s' ->
  controls (run env events s) = controls (run env events s').
Proof.
  revert s s'; induction events as [|e events IH]; intros s s' H; [exact H|].
  unfold run in *. cbn [fold_left]. apply IH. by apply step_controls.
Qed.

(** ** The player *)

Lemma updateMouseLook_keys s : keys (updateMouseLook s) = keys s.
Proof. unfold updateMouseLook. destruct (isPointerLocked s); reflexivity. Qed.

Lemma update_player now delta s :
  player (update env now delta s) =
  stepPlayer env delta (keys s) (player (updateMouseLook s)).
Proof.
  destruct (controls_inv _ _ (update_controls now delta s)) as (-> & _).
  rewrite <- (updateMouseLook_keys s). reflexivity.
Qed.

(** Facing the yaw and the recoil of the gun move nothing. *)
Lemma recoil_faceYaw delta q :
  p_position (recoil env delta (faceYaw q)) = p_position q /\
  p_velocity (recoil env delta (faceYaw q)) = p_velocity q /\
  p_onGround (recoil env delta (faceYaw q)) = p_onGround q /\
  p_yaw (recoil env delta (faceYaw q)) = p_yaw q /\
  p_pitch (recoil env delta (faceYaw q)) = p_pitch q.
Proof.
  unfold recoil, faceYaw. simpl.
  destruct (p_gun q); [|auto].
  destruct (p_recoil q); [|auto].
  destruct (_ <? _)%float; auto.
Qed.

(** Of the player's steps only the mouse look writes the yaw and the pitch. *)
Lemma movement_view ks p : view (movement env ks p) = view p.
Proof. unfold movement. cbv zeta. destruct (0 <? _)%float; reflexivity. Qed.

Lemma jump_view ks p : view (jump ks p) = view p.
Proof. unfold jump. destruct (_ && _); reflexivity. Qed.

Lemma groundCollision_view p : view (groundCollision p) = view p.
Proof. unfold groundCollision. cbv zeta. destruct (_ <? _)%float; reflexivity. Qed.

Lemma stepPlayer_view delta ks p :
  p_yaw (stepPlayer env delta ks p) = p_yaw p /\
  p_pitch (stepPlayer env delta ks p) = p_pitch p.
Proof.
  unfold stepPlayer. cbv zeta.
  destruct (recoil_faceYaw delta
    (groundCollision (integrate delta (applyGravity delta (jump ks (movement env ks p))))))
    as (_ & _ & _ & -> & ->).
  assert (H : view (groundCollision
                (integrate delta (applyGravity delta (jump ks (movement env ks p)))))
              = view p).
  { rewrite groundCollision_view.
    change (view (integrate delta (applyGravity delta ?q))) with (view q).
    rewrite jump_view. apply movement_view. }
  unfold view in H. injection H as H1 H2. auto.
Qed.

(** The physics of the player: gravity, integration, ground. *)
Lemma stepPlayer_physics delta ks p :
  let g := groundCollision
             (integrate delta (applyGravity delta (jump ks (movement env ks p)))) in
  p_position (stepPlayer env delta ks p) = p_position g /\
  p_velocity (stepPlayer env delta ks p) = p_velocity g /\
  p_onGround (stepPlayer env delta ks p) = p_onGround g.
Proof.
  cbv zeta. unfold stepPlayer. cbv zeta.
  destruct (recoil_faceYaw delta
    (groundCollision (integrate delta (applyGravity delta (jump ks (movement env ks p))))))
    as (-> & -> & -> & _). auto.
Qed.

(** * The claims *)

(** C9. The number of live targets is invariantly MAX_TARGETS = 30: thirty
    are spawned at the start, a paintball hit deletes one target and pushes
    one fresh target in its place, no event changes the count, and so after
    any sequence of events there are thirty. *)
Theorem target_count_invariant :
  MAX_TARGETS = 30 /\
  (forall w page, length (targets (initState env w page)) = MAX_TARGETS) /\
  (forall b i j t s,
     exists fresh, targets (hitTarget env b i j t s) = delete j (targets s) ++ [fresh]) /\
  (forall now delta s,
     length (targets (update env now delta s)) = length (targets s)) /\
  (forall s e, length (targets (step env s e)) = length (targets s)) /\
  (forall w page events,
     length (targets (run env events (initState env w page))) = MAX_TARGETS).
Proof.
  split; [reflexivity|].
  split; [apply initState_targets_length|].
  split; [apply hitTarget_targets|].
  split; [apply update_targets_length|].
  split; [apply step_targets_length|].
  intros w page events. rewrite run_targets_length. apply initState_targets_length.
Qed.

(** C10. The splatter list never exceeds 200 entries.  From a list of at
    most 200, [addDecal] has at most 201 after its push and at most 200 when
    it returns; the new decal goes last and, when the list was full, the
    oldest (first) one is dropped, removed from the scene and disposed.  After
    any sequence of events from the start the list has at most 200. *)
Theorem splatter_limit hit color s :
  length (splatters s) <= 200 ->
  length (splatters (pushDecal env hit color s)) <= 201 /\
  length (splatters (addDecal env hit color s)) <= 200 /\
  splatters (addDecal env hit color s) =
    (if 200 <? length (splatters s ++ [newDecal env hit color s])
     then drop 1 (splatters s ++ [newDecal env hit color s])
     else splatters s ++ [newDecal env hit color s]) /\
  (forall old rest,
     splatters s = old :: rest -> length (splatters s) = 200 ->
     splatters (addDecal env hit color s) = rest ++ [newDecal env hit color s] /\
     (d_mesh old ∉ scene (addDecal env hit color s)) /\
     (d_mesh old ∈ disposed (addDecal env hit color s))) /\
  (forall w page events,
     length (splatters (run env events (initState env w page))) <= 200).
Proof.
  intros Hs.
  split; [rewrite pushDecal_splatters, length_app; simpl; lia|].
  split; [by apply addDecal_bound|].
  split; [apply addDecal_splatters|].
  split.
  - intros old rest Hold Hfull.
    assert (Hpush : splatters (pushDecal env hit color s)
                    = old :: (rest ++ [newDecal env hit color s])).
    { rewrite pushDecal_splatters, Hold. reflexivity. }
    assert (Hlt : (200 <? length (splatters (pushDecal env hit color s))) = true).
    { apply Nat.ltb_lt. rewrite pushDecal_splatters, length_app. simpl. lia. }
    unfold addDecal, trimSplatters. rewrite Hlt, Hpush.
    split; [reflexivity|]. split.
    + change (scene (dispose ?o (scene_remove ?o' ?x)))
        with (filter (fun y => y <> o') (scene x)).
      rewrite list_elem_of_filter. tauto.
    + change (disposed (dispose ?o ?x)) with (disposed x ++ [o]).
      apply elem_of_app. right. apply list_elem_of_singleton. reflexivity.
  - intros w page events. apply run_splatters_bound.
    rewrite initState_splatters. simpl. lia.
Qed.

(** C8. Mouse look is gated on pointer lock.  While the pointer is not
    locked a mouse movement changes nothing, and [update] leaves the yaw,
    the pitch and the accumulated deltas as they are.  In general a run of
    the script is the run on the input received while locked: the mouse
    movements that arrive unlocked can be struck from any sequence of
    events. *)
Theorem mouse_look_gated s :
  isPointerLocked s = false ->
  (forall mx my, mousemove mx my s = s) /\
  (forall now delta,
     p_yaw (player (update env now delta s)) = p_yaw (player s) /\
     p_pitch (player (update env now delta s)) = p_pitch (player s) /\
     mouseDeltaX (update env now delta s) = mouseDeltaX s /\
     mouseDeltaY (update env now delta s) = mouseDeltaY s /\
     isPointerLocked (update env now delta s) = false) /\
  (forall events s0,
     run env events s0 = run env (lockedInput (isPointerLocked s0) events) s0).
Proof.
  intros Hoff. split; [|split].
  - intros mx my. by apply mousemove_off.
  - intros now delta.
    rewrite update_player, update_isPointerLocked.
    destruct (controls_inv _ _ (update_controls now delta s)) as (_ & _ & -> & -> & _).
    rewrite (updateMouseLook_controls_off s Hoff).
    destruct (stepPlayer_view delta (keys s) (player s)) as [-> ->].
    auto.
  - intros events. induction events as [|e events IH]; intros s0; [reflexivity|].
    unfold run in *.
    pose proof (step_isPointerLocked s0 e) as Hlock.
    destruct e as [l|mx my|code t0 t1|code|button|now delta|now];
      cbn [lockedInput fold_left];
      try (rewrite IH, Hlock; reflexivity).
    destruct (isPointerLocked s0) eqn:E.
    + cbn [fold_left]. rewrite IH, Hlock. reflexivity.
    + cbn [step]. rewrite mousemove_off by exact E. rewrite IH, E. reflexivity.
Qed.

(** C7. The focus-mode toggle is an involution on the mode: it maps
    'focused' to 'broad' and 'broad' to 'focused', asks for the field of view
    of the mode it enters (45 for focused, 90 for broad), and sets the
    settings of that mode; toggling twice gives back the focus mode, its
    parameters and its settings. *)
Theorem toggle_involution t0 t1 t2 t3 s :
  otherMode focused = broad /\ otherMode broad = focused /\
  fov (focusModes focused) = 45%float /\ fov (focusModes broad) = 90%float /\
  focusMode (toggleFocusMode env t0 t1 s) = otherMode (focusMode s) /\
  camera (toggleFocusMode env t0 t1 s)
    = camera (animateFOV env (fov (focusModes (otherMode (focusMode s)))) t0 t1 s) /\
  fovAnimations (toggleFocusMode env t0 t1 s)
    = fovAnimations (animateFOV env (fov (focusModes (otherMode (focusMode s)))) t0 t1 s) /\
  settings (toggleFocusMode env t0 t1 s)
    = modeSettings env (otherMode (focusMode s)) (dom s) /\
  focusMode (toggleFocusMode env t2 t3 (toggleFocusMode env t0 t1 s)) = focusMode s /\
  focusModes (focusMode (toggleFocusMode env t2 t3 (toggleFocusMode env t0 t1 s)))
    = focusModes (focusMode s) /\
  settings (toggleFocusMode env t2 t3 (toggleFocusMode env t0 t1 s))
    = modeSettings env (focusMode s) (dom s).
Proof.
  assert (Hmode : forall a b x,
            focusMode (toggleFocusMode env a b x) = otherMode (focusMode x)).
  { intros a b x. cbv beta zeta delta [toggleFocusMode animateFOV updateFOV].
    destruct (_ <? 1)%float; reflexivity. }
  assert (Hset : forall a b x,
            settings (toggleFocusMode env a b x) =
            modeSettings env (otherMode (focusMode x)) (dom x)).
  { intros a b x. cbv beta zeta delta [toggleFocusMode animateFOV updateFOV].
    destruct (_ <? 1)%float; destruct (focusMode x); reflexivity. }
  assert (Hdom : forall a b x,
            modeSettings env (focusMode x) (dom (toggleFocusMode env a b x)) =
            modeSettings env (focusMode x) (dom x)).
  { intros a b x.
    assert (Hd : dom (toggleFocusMode env a b x) =
                 mkDom (scoreEl (dom x))
                   (match focusModeEl (dom x) with
                    | Some _ => Some (label (focusModes (otherMode (focusMode x))))
                    | None => None
                    end)
                   (match vignetteEl (dom x) with
                    | Some _ => Some (vignette (focusModes (otherMode (focusMode x))))
                    | None => None
                    end)).
    { cbv beta zeta delta [toggleFocusMode animateFOV updateFOV].
      destruct (_ <? 1)%float; reflexivity. }
    rewrite Hd. unfold modeSettings. simpl.
    destruct (focusModeEl (dom x)), (vignetteEl (dom x)); reflexivity. }
  assert (Hinv : forall m, otherMode (otherMode m) = m) by (by intros []).
  repeat split; try reflexivity.
  - apply Hmode.
  - cbv beta zeta delta [toggleFocusMode animateFOV updateFOV].
    destruct (_ <? 1)%float; reflexivity.
  - cbv beta zeta delta [toggleFocusMode animateFOV updateFOV].
    destruct (_ <? 1)%float; reflexivity.
  - apply Hset.
  - rewrite !Hmode. apply Hinv.
  - rewrite !Hmode, Hinv. reflexivity.
  - rewrite Hset, Hmode, Hinv. apply Hdom.
Qed.

(** C6. A press of the left mouse button while the pointer is locked
    spawns exactly one paintball, at the player's position raised by
    0.7 * playerHeight and moved 1.0 along the camera's world direction, with
    that direction scaled by 40 as its velocity (and three seconds to live),
    and adds its mesh to the scene; without pointer lock a press of any
    button changes nothing. *)
Theorem firing s :
  let dir := Vector3.normalize (getWorldDirection env (camera s)) in
  let start :=
    Vector3.add
      (Vector3.add (p_position (player s)) (mkVec3 0 (playerHeight * 0.7) 0))
      (Vector3.multiplyScalar dir 1.0) in
  let ball :=
    mkPaintball (nextId s) start (Vector3.multiplyScalar dir 40)
      (mkColor (Math_random env (rng s)) 0.8 0.5) 3 in
  if isPointerLocked s
  then paintballs (mousedown env 0 s) = paintballs s ++ [ball] /\
       (b_mesh ball ∈ scene (mousedown env 0 s))
  else forall button, mousedown env button s = s.
Proof.
  cbv zeta. unfold mousedown. destruct (isPointerLocked s).
  - split; [reflexivity|].
    change (scene (shootPaintball env s))
      with (filter (fun x => x <> nextId s) (scene s) ++ [nextId s]).
    apply elem_of_app. right. apply list_elem_of_singleton. reflexivity.
  - intros button. by rewrite andb_false_r.
Qed.

(** C3. Gravity is applied every frame.  From the player as the gravity
    step finds it, the vertical velocity goes down by 30 * delta (adding
    gravity * delta = -30 * delta is that subtraction), the position advances by
    velocity * delta, and if the new height is below 0 the height becomes 0,
    the vertical velocity 0 and the player is on the ground; otherwise height,
    vertical velocity and the onGround flag stay as integrated. *)
Theorem gravity_and_ground now delta s :
  let p0 := beforeGravity env s in
  let v1 := (vy (p_velocity p0) - 30 * delta)%float in
  let x1 := (vx (p_position p0) + vx (p_velocity p0) * delta)%float in
  let y1 := (vy (p_position p0) + v1 * delta)%float in
  let z1 := (vz (p_position p0) + vz (p_velocity p0) * delta)%float in
  let p' := player (update env now delta s) in
  p_velocity (applyGravity delta p0)
    = mkVec3 (vx (p_velocity p0)) v1 (vz (p_velocity p0)) /\
  p_position (integrate delta (applyGravity delta p0)) = mkVec3 x1 y1 z1 /\
  vx (p_position p') = x1 /\ vz (p_position p') = z1 /\
  if (y1 <? 0)%float
  then vy (p_position p') = 0%float /\ vy (p_velocity p') = 0%float /\
       p_onGround p' = true
  else vy (p_position p') = y1 /\ vy (p_velocity p') = v1 /\
       p_onGround p' = p_onGround p0.
Proof.
  cbv zeta. rewrite update_player, <- !gravity_decreases.
  destruct (stepPlayer_physics delta (keys s) (player (updateMouseLook s)))
    as (-> & -> & ->).
  fold (beforeGravity env s). set (p0 := beforeGravity env s).
  split; [reflexivity|]. split; [reflexivity|].
  unfold groundCollision. cbv zeta.
  change (vy (p_position (integrate delta (applyGravity delta p0))))
    with (vy (p_position p0) + (vy (p_velocity p0) + -30 * delta) * delta)%float.
  destruct (_ <? 0)%float; repeat split; reflexivity.
Qed.

(** C1, as amended.  In the per-frame movement update the player is
    vertically supported by the ground plane at y = 0 only: the meshes of
    the city (building rooftops, stair steps and bridges, all of them in
    [buildingMeshes]) have no influence on the player, whose new height is
    the integrated one, or 0 if that is below 0.  Over a whole game the
    player moves in every city as in any other, the empty one included. *)
Theorem ground_is_the_only_support now delta s :
  (forall meshes,
     player (update env now delta (set_buildingMeshes meshes s))
     = player (update env now delta s)) /\
  (forall w w' page page' events,
     player (run env events (initState env w page))
     = player (run env events (initState env w' page'))) /\
  let p0 := beforeGravity env s in
  let y1 :=
    (vy (p_position p0) + (vy (p_velocity p0) + gravity * delta) * delta)%float in
  vy (p_position (player (update env now delta s)))
  = if (y1 <? 0)%float then 0%float else y1.
Proof.
  split; [|split].
  2:{ intros w w' page page' events.
      assert (H : controls (initState env w page) = controls (initState env w' page'))
        by (by rewrite !initState_controls).
      by destruct (controls_inv _ _ (run_controls events _ _ H)) as (-> & _). }
  - intros meshes. rewrite !update_player.
    change (keys (set_buildingMeshes meshes s)) with (keys s).
    f_equal. unfold updateMouseLook.
    change (isPointerLocked (set_buildingMeshes meshes s)) with (isPointerLocked s).
    destruct (isPointerLocked s); reflexivity.
  - cbv zeta. rewrite update_player.
    destruct (stepPlayer_physics delta (keys s) (player (updateMouseLook s)))
      as (-> & _).
    fold (beforeGravity env s). set (p0 := beforeGravity env s).
    unfold groundCollision. cbv zeta.
    change (vy (p_position (integrate delta (applyGravity delta p0))))
      with (vy (p_position p0) + (vy (p_velocity p0) + gravity * delta) * delta)%float.
    destruct (_ <? 0)%float; reflexivity.
Qed.

(** One target in one frame: it moves by its drift velocity times delta
    plus the oscillation; farther than 50 from the origin its drift velocity
    is negated (the multiplication by -1 flips the signs and nothing else);
    below 2 its height becomes 2 and the vertical drift its absolute value. *)
Lemma updateTarget_drift delta cameraPosition t :
  let t' := updateTarget env delta cameraPosition t in
  let oscillation := (t_oscillation t + delta)%float in
  let drifted :=
    Vector3.add (t_position t) (Vector3.multiplyScalar (t_velocity t) delta) in
  let pos :=
    mkVec3 (vx drifted)
      (vy drifted + Math_sin env (oscillation * 2) * 0.5 * delta) (vz drifted) in
  let vel :=
    if (50 <? Vector3.length pos)%float
    then mkVec3 (- vx (t_velocity t)) (- vy (t_velocity t)) (- vz (t_velocity t))
    else t_velocity t in
  t_oscillation t' = oscillation /\
  (if (vy pos <? 2)%float
   then t_position t' = mkVec3 (vx pos) 2 (vz pos) /\
        t_velocity t' = mkVec3 (vx vel) (abs (vy vel)) (vz vel) /\
        (vy (t_velocity t') <? 0)%float = false /\
        (is_nan (vy vel) = false -> (0 <=? vy (t_velocity t'))%float = true)
   else t_position t' = pos /\ t_velocity t' = vel).
Proof.
  cbv zeta. split.
  - unfold updateTarget. cbv zeta. destruct (_ <? 2)%float; reflexivity.
  - unfold updateTarget, Vector3.multiplyScalar. cbv zeta. simpl.
    rewrite !mul_minus_one.
    destruct (_ <? 2)%float.
    + split; [reflexivity|]. split; [reflexivity|]. simpl.
      split; [apply abs_not_negative | apply abs_nonneg].
    + split; reflexivity.
Qed.

(** ** The rounds of the paintball loop, case by case *)

Lemma trimSplatters_raycaster s : raycaster (trimSplatters s) = raycaster s.
Proof.
  unfold trimSplatters. destruct (_ <? _); [|reflexivity].
  destruct (splatters s); reflexivity.
Qed.

Lemma addDecal_raycaster hit c s : raycaster (addDecal env hit c s) = raycaster s.
Proof. unfold addDecal. rewrite trimSplatters_raycaster. reflexivity. Qed.

Lemma last_addDecal hit c s :
  last (splatters (addDecal env hit c s)) = Some (newDecal env hit c s).
Proof.
  rewrite addDecal_splatters. destruct (200 <? _) eqn:E.
  - apply Nat.ltb_lt in E. rewrite length_app in E. simpl in E.
    destruct (splatters s) as [|old rest]; [simpl in E; lia|].
    simpl. rewrite drop_0. apply last_snoc.
  - apply last_snoc.
Qed.

Lemma listed_at b i l s :
  i < length l -> listed b (set_paintballs (<[i:=b]> l) s) = true.
Proof.
  intros Hi. unfold listed. paintballs_set.
  apply existsb_exists. exists b. split; [|apply Nat.eqb_refl].
  apply list_elem_of_In, list_elem_of_lookup. exists i.
  by apply list_lookup_insert_eq.
Qed.

(** The round at [i] for a paintball whose life has run out. *)
Lemma paintballIter_expired delta i s b :
  paintballs s !! i = Some b ->
  (b_life b - delta <=? 0)%float = true ->
  paintballs (paintballIter env delta i s) = delete i (paintballs s) /\
  scene (paintballIter env delta i s) = filter (fun o => o <> b_mesh b) (scene s) /\
  disposed (paintballIter env delta i s) = disposed s ++ [b_mesh b].
Proof.
  intros Hb Hlife. split.
  - pose proof (paintballIter_paintballs delta i s b Hb) as H.
    by rewrite Hlife in H.
  - unfold paintballIter. rewrite Hb. cbv beta zeta.
    change (b_life (set_life (b_life b - delta) b)) with (b_life b - delta)%float.
    rewrite Hlife. split; reflexivity.
Qed.

(** The round at [i] for a paintball that lives on and reaches no target:
    the ray is set, and the first intersection decides. *)
Lemma paintballIter_flight delta i s b :
  paintballs s !! i = Some b ->
  alive (flown delta b) ->
  existsb (reaches (b_position (flown delta b))) (targets s) = false ->
  let ray :=
    mkRay (b_position b) (Vector3.normalize (b_velocity b))
      (Vector3.distanceTo (b_position b) (b_position (flown delta b))) in
  let s1 :=
    set_raycaster ray (set_paintballs (<[i:=flown delta b]> (paintballs s)) s) in
  paintballIter env delta i s =
  match intersectObjects env ray (buildingMeshes s ++ [ground]) with
  | hit :: _ =>
      let s2 := addDecal env hit (b_color b) s1 in
      let s3 := dispose (b_mesh b) (scene_remove (b_mesh b) s2) in
      set_paintballs (delete i (paintballs s3)) s3
  | [] =>
      if (vy (b_position (flown delta b)) <? 0)%float then
        let s2 := scene_remove (b_mesh b) s1 in
        set_paintballs (delete i (paintballs s2)) s2
      else s1
  end.
Proof.
  intros Hb Halive Hmiss. cbv zeta.
  pose proof (lookup_lt_Some _ _ _ Hb) as Hlt.
  unfold paintballIter. rewrite Hb. cbv beta zeta.
  change (b_life (set_life (b_life b - delta) b)) with (b_life (flown delta b)).
  unfold alive in Halive. rewrite Halive.
  match goal with |- context [targetLoop env ?b' _ _ _] =>
    change b' with (flown delta b)
  end.
  match goal with |- context [targetLoop env ?b' ?i ?n ?s1] =>
    rewrite (targetLoop_miss b' i n s1) by exact Hmiss
  end.
  rewrite paintballs_set_paintballs, list_insert_insert_eq.
  rewrite listed_at by exact Hlt.
  cbn [negb].
  assert (Hset : forall l l' x, set_paintballs l (set_paintballs l' x) = set_paintballs l x)
    by reflexivity.
  rewrite Hset.
  reflexivity.
Qed.

Lemma scene_scene_remove o s :
  scene (scene_remove o s) = filter (fun x => x <> o) (scene s).
Proof. reflexivity. Qed.

Lemma disposed_dispose o s : disposed (dispose o s) = disposed s ++ [o].
Proof. reflexivity. Qed.

(** The round of a paintball that survives (its life has not run out and
    it reaches no target): a ray is cast from the position it had before
    moving, along its normalised velocity, with range the distance it moved,
    against the building meshes and the ground; a decal for the first
    intersection is pushed last on the splatters and the paintball is deleted
    from the list, removed from the scene and disposed; without an
    intersection no splatter is added. *)
Lemma paintballIter_raycast delta i s b :
  paintballs s !! i = Some b ->
  alive (flown delta b) ->
  existsb (reaches (b_position (flown delta b))) (targets s) = false ->
  let ray :=
    mkRay (b_position b) (Vector3.normalize (b_velocity b))
      (Vector3.distanceTo (b_position b) (b_position (flown delta b))) in
  let s' := paintballIter env delta i s in
  raycaster s' = ray /\
  match intersectObjects env ray (buildingMeshes s ++ [ground]) with
  | hit :: rest =>
      last (splatters s') = Some (newDecal env hit (b_color b) s) /\
      paintballs s' = delete i (paintballs s) /\
      (b_mesh b ∉ scene s') /\
      (b_mesh b ∈ disposed s')
  | [] =>
      splatters s' = splatters s /\
      paintballs s' =
        if (vy (b_position (flown delta b)) <? 0)%float
        then delete i (paintballs s)
        else <[i:=flown delta b]> (paintballs s)
  end.
Proof.
  intros Hb Halive Hmiss. cbv zeta.
  rewrite (paintballIter_flight delta i s b Hb Halive Hmiss). cbv zeta.
  destruct (intersectObjects env _ _) as [|hit rest] eqn:E.
  - destruct (_ <? 0)%float.
    + split; [reflexivity|]. split; [reflexivity|].
      paintballs_set. frame paintballs. paintballs_set. apply delete_insert_same.
    + split; [reflexivity|]. split; reflexivity.
  - split.
    { frame raycaster. rewrite addDecal_raycaster. reflexivity. }
    split.
    { frame splatters. rewrite last_addDecal. reflexivity. }
    split.
    { paintballs_set. frame paintballs. rewrite addDecal_paintballs.
      frame paintballs. paintballs_set. apply delete_insert_same. }
    split.
    + frame scene. rewrite scene_scene_remove, list_elem_of_filter. tauto.
    + frame disposed. rewrite disposed_dispose.
      apply elem_of_app. right. apply list_elem_of_singleton. reflexivity.
Qed.

End Properties.

(** * The model at work *)

(** The demonstration raycaster returns at most one intersection. *)
Lemma demo_nearestFirst : nearestFirst Demo.env.
Proof.
  intros ray objects hit rest. cbn [intersectObjects Demo.env]. unfold Demo.groundHits.
  cbv zeta. destruct (_ && _); [|discriminate].
  destruct (_ <=? _)%float; [|discriminate].
  intros [= _ <-]. constructor.
Qed.

(** C1, as stated, fails: the roof of a building does not carry a player
    who stands on it.  With one building 6 high and the player at rest in
    the middle of its roof, a quarter of a second later the player is at
    height 4.125, inside the building. *)
Lemma rooftop_does_not_carry :
  Demo.roof ∈ buildingMeshes Demo.onTheRoof /\
  topOf Demo.roof = Some 6%float /\
  standsOn Demo.roof (player Demo.onTheRoof) = true /\
  vy (p_position (player (update Demo.env 0 0.25 Demo.onTheRoof))) = 4.125%float /\
  ~ carries Demo.env Demo.roof 0 0.25 Demo.onTheRoof.
Proof.
  split; [apply list_elem_of_In; vm_compute; auto|].
  split; [reflexivity|].
  split; [vm_compute; reflexivity|].
  split; [vm_compute; reflexivity|].
  intros H. specialize (H 6%float eq_refl).
  assert (Hs : standsOn Demo.roof (player Demo.onTheRoof) = true)
    by (vm_compute; reflexivity).
  specialize (H Hs). vm_compute in H. discriminate.
Qed.

(** The start of the game is within the splatter limit. *)
Lemma splatter_limit_witness :
  length (splatters Demo.start) <= 200 /\
  length (splatters (addDecal Demo.env Demo.groundHit (mkColor 0.5 0.8 0.5) Demo.start))
    <= 200.
Proof.
  assert (H : length (splatters Demo.start) <= 200) by (vm_compute; lia).
  split; [exact H|].
  pose proof (splatter_limit Demo.env Demo.groundHit (mkColor 0.5 0.8 0.5)
                Demo.start H) as (_ & Hbound & _).
  exact Hbound.
Defined.

(** At the start the pointer is not locked. *)
Lemma mouse_look_gated_witness :
  isPointerLocked Demo.start = false /\
  mousemove 3 4 Demo.start = Demo.start.
Proof.
  assert (H : isPointerLocked Demo.start = false) by (vm_compute; reflexivity).
  split; [exact H|].
  pose proof (mouse_look_gated Demo.env Demo.start H) as (Hmove & _).
  exact (Hmove 3%float 4%float).
Defined.

(** * Further properties *)

(** ** The loops of [update], for any invariant

    [Q] is a property of the state that does not depend on what the loops
    over targets and paintballs handle on their own (the scene, the counters
    of objects and of random draws, the raycaster, the paintballs and the
    splatters), that a disposal keeps and that a hit of a target keeps.
    Then both loops keep [Q]. *)
Section Loops.

Variable env : Env.
Variable Q : State -> Prop.

Hypothesis Q_scene : forall v s, Q s -> Q (set_scene v s).
Hypothesis Q_dispose : forall o s, Q s -> Q (dispose o s).
Hypothesis Q_nextId : forall v s, Q s -> Q (set_nextId v s).
Hypothesis Q_rng : forall v s, Q s -> Q (set_rng v s).
Hypothesis Q_raycaster : forall v s, Q s -> Q (set_raycaster v s).
Hypothesis Q_paintballs : forall v s, Q s -> Q (set_paintballs v s).
Hypothesis Q_splatters : forall v s, Q s -> Q (set_splatters v s).
Hypothesis Q_hit :
  forall b i j t s, targets s !! j = Some t -> Q s -> Q (hitTarget env b i j t s).

Lemma loops_scene_remove o s : Q s -> Q (scene_remove o s).
Proof. apply Q_scene. Qed.

Lemma loops_dispose o s : Q s -> Q (dispose o s).
Proof. apply Q_dispose. Qed.

Lemma loops_pushDecal hit c s : Q s -> Q (pushDecal env hit c s).
Proof.
  intros H. cbv beta zeta delta [pushDecal scene_add].
  by apply Q_splatters, Q_scene, Q_rng, Q_nextId.
Qed.

Lemma loops_trimSplatters s : Q s -> Q (trimSplatters s).
Proof.
  intros H. unfold trimSplatters. destruct (_ <? _); [|exact H].
  destruct (splatters s); [exact H|].
  by apply loops_dispose, loops_scene_remove, Q_splatters.
Qed.

Lemma loops_addDecal hit c s : Q s -> Q (addDecal env hit c s).
Proof. intros H. unfold addDecal. by apply loops_trimSplatters, loops_pushDecal. Qed.

Lemma loops_targetLoop b i n s : Q s -> Q (targetLoop env b i n s).
Proof.
  intros HQ. induction n as [|j IH]; [exact HQ|]. cbn [targetLoop].
  destruct (targets s !! j) as [t|] eqn:Ht; [|exact HQ].
  destruct (_ <? _)%float; [by apply Q_hit | exact IH].
Qed.

Lemma loops_paintballIter delta i s : Q s -> Q (paintballIter env delta i s).
Proof.
  intros HQ. unfold paintballIter.
  destruct (paintballs s !! i) as [b|]; [|exact HQ].
  cbv beta zeta.
  destruct (_ <=? _)%float.
  { by apply Q_paintballs, loops_dispose, loops_scene_remove, Q_paintballs. }
  match goal with |- context [targetLoop env ?b ?i ?n ?s1] =>
    assert (Hl : Q (targetLoop env b i n s1))
      by (apply loops_targetLoop; by do 2 apply Q_paintballs);
    set (s2 := targetLoop env b i n s1) in *
  end.
  destruct (negb _); [exact Hl|].
  destruct (intersectObjects _ _ _).
  - destruct (_ <? _)%float.
    + by apply Q_paintballs, loops_scene_remove, Q_raycaster.
    + by apply Q_raycaster.
  - by apply Q_paintballs, loops_dispose, loops_scene_remove, loops_addDecal,
         Q_raycaster.
Qed.

Lemma loops_paintballLoop delta n s : Q s -> Q (paintballLoop env delta n s).
Proof.
  revert s. induction n as [|i IH]; intros s HQ; [exact HQ|].
  cbn [paintballLoop]. apply IH. by apply loops_paintballIter.
Qed.

Lemma loops_updatePaintballs delta s : Q s -> Q (updatePaintballs env delta s).
Proof. apply loops_paintballLoop. Qed.

Lemma loops_roundsAbove delta i n s : Q s -> Q (roundsAbove env delta i n s).
Proof.
  revert s. induction n as [|m IH]; intros s HQ; [exact HQ|].
  cbn [roundsAbove]. destruct (i <? m); [|exact HQ].
  apply IH. by apply loops_paintballIter.
Qed.

End Loops.

(** A view [proj] of the state is kept by the loops if it does not look at
    what they handle and a hit keeps it. *)
Ltac loops_frame env proj s0 :=
  apply (loops_updatePaintballs env (fun x => proj x = proj s0));
  [intros ? ? H; exact H | intros ? ? H; exact H | intros ? ? H; exact H
  |intros ? ? H; exact H | intros ? ? H; exact H | intros ? ? H; exact H
  |intros ? ? H; exact H | | ].

(** Spawning targets, for a view of the state that does not look at the
    scene, the counters or the targets. *)
Section Spawn.

Variable env : Env.
Context {A : Type} (proj : State -> A).

Hypothesis proj_scene : forall v s, proj (set_scene v s) = proj s.
Hypothesis proj_nextId : forall v s, proj (set_nextId v s) = proj s.
Hypothesis proj_rng : forall v s, proj (set_rng v s) = proj s.
Hypothesis proj_targets : forall v s, proj (set_targets v s) = proj s.

Lemma spawn_pushTarget s : proj (pushTarget env s) = proj s.
Proof.
  cbv beta zeta delta [pushTarget createTarget scene_add fst snd].
  by rewrite proj_targets, proj_rng, proj_scene, proj_nextId.
Qed.

Lemma spawn_spawnTargets n s : proj (spawnTargets env n s) = proj s.
Proof.
  revert s. induction n as [|n IH]; intros s; [reflexivity|].
  cbn [spawnTargets]. by rewrite IH, spawn_pushTarget.
Qed.

End Spawn.

Section Backdrop.

Variable env : Env.

Lemma updateScoreDisplay_backdrop s : backdrop (updateScoreDisplay s) = backdrop s.
Proof. unfold updateScoreDisplay. destruct (scoreEl _); reflexivity. Qed.

Lemma hitTarget_backdrop b i j t s : backdrop (hitTarget env b i j t s) = backdrop s.
Proof.
  cbv beta zeta delta [hitTarget]. rewrite updateScoreDisplay_backdrop.
  frame backdrop. reflexivity.
Qed.

Lemma updateMouseLook_backdrop s : backdrop (updateMouseLook s) = backdrop s.
Proof. unfold updateMouseLook. destruct (isPointerLocked s); reflexivity. Qed.

Lemma update_backdrop now delta s : backdrop (update env now delta s) = backdrop s.
Proof.
  unfold update, updateCamera. frame backdrop.
  loops_frame env backdrop s.
  - intros b i j t s0 _ <-. apply hitTarget_backdrop.
  - unfold updateTargets, updatePlayer. frame backdrop. apply updateMouseLook_backdrop.
Qed.

End Backdrop.

Section Modes.

Variable env : Env.

Lemma updateFOV_modeOf a now s : modeOf (updateFOV env a now s) = modeOf s.
Proof. unfold updateFOV. cbv zeta. destruct (_ <? 1)%float; reflexivity. Qed.

Lemma fovFrame_modeOf now s : modeOf (fovFrame env now s) = modeOf s.
Proof.
  unfold fovFrame.
  change (modeOf s) with (modeOf (set_fovAnimations [] s)).
  generalize (set_fovAnimations [] s). generalize (fovAnimations s).
  intros l; induction l as [|a l IH]; intros s0; [reflexivity|].
  cbn [fold_left]. rewrite IH. apply updateFOV_modeOf.
Qed.

Lemma toggleFocusMode_modeOf t0 t1 s :
  modeOf (toggleFocusMode env t0 t1 s)
  = (otherMode (focusMode s), modeSettings env (otherMode (focusMode s)) (dom s)).
Proof.
  cbv beta zeta delta [toggleFocusMode animateFOV updateFOV].
  destruct (_ <? 1)%float; destruct (focusMode s); reflexivity.
Qed.

Lemma step_modeOf s e :
  modeOf (step env s e) =
  match e with
  | KeyDown code _ _ =>
      if String.eqb code "Tab"
      then (otherMode (focusMode s), modeSettings env (otherMode (focusMode s)) (dom s))
      else modeOf s
  | _ => modeOf s
  end.
Proof.
  destruct e as [l|mx my|code t0 t1|code|button|now delta|now]; cbn [step].
  - reflexivity.
  - unfold mousemove. destruct (isPointerLocked s); reflexivity.
  - unfold keydown. cbv zeta. destruct (String.eqb code "Tab"); [|reflexivity].
    rewrite toggleFocusMode_modeOf. reflexivity.
  - reflexivity.
  - unfold mousedown. destruct (_ && _); reflexivity.
  - pose proof (update_backdrop env now delta s) as H. unfold backdrop in H.
    unfold modeOf. congruence.
  - apply fovFrame_modeOf.
Qed.

Lemma initState_modeOf w page :
  modeOf (initState env w page) = (focused, shownSettings env 0 focused page).
Proof. destruct page as [[sc|] fm [vg|]]; reflexivity. Qed.

Lemma run_modeOf page events : forall s k,
  modeOf s = ((if Nat.even k then focused else broad),
              shownSettings env k (if Nat.even k then focused else broad) page) ->
  modeOf (run env events s)
  = ((if Nat.even (k + tabPresses events) then focused else broad),
     shownSettings env (k + tabPresses events)
       (if Nat.even (k + tabPresses events) then focused else broad) page).
Proof.
  induction events as [|e events IH]; intros s k H.
  - cbn [run fold_left tabPresses]. by rewrite Nat.add_0_r.
  - change (run env (e :: events) s) with (run env events (step env s e)).
    assert (Hstep :
      modeOf (step env s e) =
      let k' := match e with
                | KeyDown code _ _ => if String.eqb code "Tab" then S k else k
                | _ => k
                end in
      ((if Nat.even k' then focused else broad),
       shownSettings env k' (if Nat.even k' then focused else broad) page)).
    { rewrite step_modeOf.
      destruct e as [l|mx my|code t0 t1|code|button|now delta|now]; try exact H.
      destruct (String.eqb code "Tab"); [|exact H].
      cbv zeta. unfold modeOf, settings, shownSettings, modeSettings in H.
      cbv beta iota zeta in H. injection H as Hm _ _ Hl Hv. rewrite Hm.
      rewrite Nat.even_succ, <- Nat.negb_even.
      unfold shownSettings, modeSettings.
      destruct (Nat.even k), k, (focusModeEl page), (vignetteEl page);
        cbn in Hl, Hv |- *; rewrite ?Hl, ?Hv; reflexivity. }
    apply IH in Hstep. rewrite Hstep.
    replace (k + tabPresses (e :: events)) with
      (match e with
       | KeyDown code _ _ => if String.eqb code "Tab" then S k else k
       | _ => k
       end + tabPresses events); [reflexivity|].
    destruct e as [l|mx my|code t0 t1|code|button|now delta|now];
      cbn [tabPresses]; try reflexivity.
    destruct (String.eqb code "Tab"); lia.
Qed.

(** X1. The focus mode follows the Tab key and nothing else.  After any
    sequence of events the game is in focused mode if Tab went down an even
    number of times and in broad mode otherwise, and the fog, the pixel
    ratio and the vignette are those of that mode; the label on the page is
    the one of the mode from the first press on. *)
Theorem focus_mode_follows_tab w page events :
  let s' := run env events (initState env w page) in
  focusMode s' = (if Nat.even (tabPresses events) then focused else broad) /\
  settings s' = shownSettings env (tabPresses events) (focusMode s') page.
Proof.
  cbv zeta.
  pose proof (run_modeOf page events (initState env w page) 0
                (initState_modeOf w page)) as H.
  cbn [Nat.add] in H. unfold modeOf in H.
  apply pair_equal_spec in H as [Hm Hs].
  split; [exact Hm|]. rewrite Hs, Hm. reflexivity.
Qed.

End Modes.

Section FirstPerson.

Variable env : Env.

Lemma updateMouseLook_camera s : camera (updateMouseLook s) = camera s.
Proof. unfold updateMouseLook. destruct (isPointerLocked s); reflexivity. Qed.

Lemma updateScoreDisplay_camera s : camera (updateScoreDisplay s) = camera s.
Proof. unfold updateScoreDisplay. destruct (scoreEl _); reflexivity. Qed.

Lemma hitTarget_camera b i j t s : camera (hitTarget env b i j t s) = camera s.
Proof.
  cbv beta zeta delta [hitTarget]. rewrite updateScoreDisplay_camera.
  frame camera. reflexivity.
Qed.

(** The camera before the last step of [update] is the one of the frame
    before. *)
Lemma loops_camera delta s :
  camera (updatePaintballs env delta
            (updateTargets env delta (updatePlayer env delta (updateMouseLook s))))
  = camera s.
Proof.
  loops_frame env camera s.
  - intros b i j t s0 _ <-. apply hitTarget_camera.
  - unfold updateTargets, updatePlayer. frame camera. apply updateMouseLook_camera.
Qed.

(** X2. The first-person camera follows the player.  After an update the
    camera is at the eye of the player as this update left the player (1.6
    above the feet), moved in broad mode by the sway of that moment along x
    and y; it looks from there along the direction given by yaw and pitch;
    and its field of view is not touched. *)
Theorem camera_follows_player now delta s :
  let s' := update env now delta s in
  let time := (now * 0.001)%float in
  let position :=
    match focusMode s with
    | focused => eye (player s')
    | broad =>
        mkVec3 (vx (eye (player s')) + Math_sin env (time * 0.5) * 0.02)
               (vy (eye (player s')) + Math_cos env (time * 0.7) * 0.015)
               (vz (eye (player s')))
    end in
  c_position (camera s') = position /\
  c_lookAt (camera s') = Vector3.add position (lookDir env (player s')) /\
  c_fov (camera s') = c_fov (camera s).
Proof.
  cbv zeta.
  pose proof (update_backdrop env now delta s) as Hb.
  pose proof (loops_camera delta s) as Hc.
  unfold update in *.
  set (s3 := updatePaintballs env delta _) in *.
  assert (Hm : focusMode s3 = focusMode s).
  { assert (H : backdrop (updateCamera env now s3) = backdrop s3) by reflexivity.
    rewrite H in Hb. unfold backdrop in Hb. congruence. }
  clearbody s3.
  assert (Hp : player (updateCamera env now s3) = player s3) by reflexivity.
  rewrite Hp.
  assert (Hcam : camera (updateCamera env now s3) =
    let position :=
      match focusMode s3 with
      | broad =>
          mkVec3 (vx (eye (player s3)) + Math_sin env (now * 0.001 * 0.5) * 0.02)
                 (vy (eye (player s3)) + Math_cos env (now * 0.001 * 0.7) * 0.015)
                 (vz (eye (player s3)))
      | focused => eye (player s3)
      end in
    mkCamera position (Vector3.add position (lookDir env (player s3)))
      (c_fov (camera s3))) by reflexivity.
  rewrite Hcam, Hm, Hc. cbv zeta. destruct (focusMode s); repeat split; reflexivity.
Qed.

End FirstPerson.

Section Lock.

Variable env : Env.

(** X3. The lock flag follows the browser and nothing else: after any
    sequence of events [isPointerLocked] is what the last
    [pointerlockchange] event reported, and what it was before if there was
    none.  Clicks, the Escape key and frames do not write it. *)
Theorem lock_follows_browser events s :
  isPointerLocked (run env events s) = lastLock (isPointerLocked s) events.
Proof.
  revert s. induction events as [|e events IH]; intros s; [reflexivity|].
  change (run env (e :: events) s) with (run env events (step env s e)).
  rewrite IH, step_isPointerLocked. destruct e; reflexivity.
Qed.

End Lock.

(** ** More on numbers *)

Lemma ltb_leb (x y : float) : (x <? y)%float = true -> (x <=? y)%float = true.
Proof.
  rewrite ltb_spec, leb_spec. unfold SFltb, SFleb.
  destruct (SFcompare _ _) as [[]|]; congruence.
Qed.

Lemma sub_0_r (x : float) : (x - 0)%float = x.
Proof.
  apply Prim2SF_inj. rewrite sub_spec.
  change (Prim2SF 0) with (S754_zero false).
  destruct (Prim2SF x) as [[]|[]| |]; reflexivity.
Qed.

(** The clamp of the pitch, case by case. *)
Lemma clampPitch_cases (x : float) :
  (is_nan x = true /\ clampPitch x = nan) \/
  clampPitch x = minPitch \/ clampPitch x = maxPitch \/
  (clampPitch x = x /\ (minPitch <? x)%float = true /\ (x <? maxPitch)%float = true).
Proof.
  unfold clampPitch, Math_min.
  change (is_nan maxPitch) with false. cbn [orb].
  destruct (is_nan x) eqn:En; [left; split; reflexivity|].
  destruct (maxPitch <? x)%float eqn:E1; [right; right; left; reflexivity|].
  destruct (x <? maxPitch)%float eqn:E2.
  - unfold Math_max. change (is_nan minPitch) with false. rewrite En. cbn [orb].
    destruct (minPitch <? x)%float eqn:E3; [right; right; right; auto|].
    destruct (x <? minPitch)%float; [right; left; reflexivity|].
    change (is_zero minPitch && get_sign minPitch)%bool with false.
    right; left; reflexivity.
  - change (is_zero maxPitch && negb (get_sign maxPitch))%bool with false.
    right; right; left; reflexivity.
Qed.

Lemma clampPitch_range (x : float) :
  is_nan (clampPitch x) = true \/
  ((minPitch <=? clampPitch x)%float && (clampPitch x <=? maxPitch)%float)%bool = true.
Proof.
  destruct (clampPitch_cases x) as [[_ ->]|[->|[->|(-> & H1 & H2)]]].
  - left; reflexivity.
  - right; reflexivity.
  - right; reflexivity.
  - right. by rewrite (ltb_leb _ _ H1), (ltb_leb _ _ H2).
Qed.

Lemma clampPitch_idem (x : float) : clampPitch (clampPitch x) = clampPitch x.
Proof.
  destruct (clampPitch_cases x) as [[_ H]|[H|[H|(H & _)]]]; rewrite !H; reflexivity.
Qed.

Section Looking.

Variable env : Env.

Lemma player_set_player p s : player (set_player p s) = p.
Proof. reflexivity. Qed.

(** What an event does to the player: only a frame moves or turns it, and
    only a shot sets its recoil. *)
Lemma step_player s e :
  player (step env s e) =
  match e with
  | Frame now delta => stepPlayer env delta (keys s) (player (updateMouseLook s))
  | MouseDown button =>
      if ((button =? 0)%Z && isPointerLocked s)%bool
      then player (shootPaintball env s) else player s
  | _ => player s
  end.
Proof.
  destruct e as [l|mx my|code t0 t1|code|button|now delta|now]; cbn [step].
  - reflexivity.
  - unfold mousemove. destruct (isPointerLocked s); reflexivity.
  - unfold keydown. cbv zeta. destruct (String.eqb code "Tab"); [|reflexivity].
    by destruct (controls_inv _ _ (toggleFocusMode_controls env t0 t1
                                     (set_keys (<[code:=true]> (keys s)) s))) as (-> & _).
  - reflexivity.
  - unfold mousedown. destruct (_ && _); reflexivity.
  - apply update_player.
  - by destruct (controls_inv _ _ (fovFrame_controls env now s)) as (-> & _).
Qed.

Lemma shootPaintball_player s :
  p_position (player (shootPaintball env s)) = p_position (player s) /\
  p_velocity (player (shootPaintball env s)) = p_velocity (player s) /\
  p_onGround (player (shootPaintball env s)) = p_onGround (player s) /\
  view (player (shootPaintball env s)) = view (player s).
Proof. repeat split; reflexivity. Qed.

Lemma updateMouseLook_player s :
  player (updateMouseLook s) =
  if isPointerLocked s then mouseLook (mouseDeltaX s) (mouseDeltaY s) (player s)
  else player s.
Proof. unfold updateMouseLook. destruct (isPointerLocked s); reflexivity. Qed.

Lemma mouseLook_pitch dx dy p :
  p_pitch (mouseLook dx dy p) = clampPitch (p_pitch p - dy * 0.002).
Proof. reflexivity. Qed.

Lemma mouseLook_yaw dx dy p : p_yaw (mouseLook dx dy p) = (p_yaw p - dx * 0.002)%float.
Proof. reflexivity. Qed.

(** The pitch after an event. *)
Lemma step_pitch s e :
  p_pitch (player (step env s e)) =
  match e with
  | Frame _ _ =>
      if isPointerLocked s
      then clampPitch (p_pitch (player s) - mouseDeltaY s * 0.002)
      else p_pitch (player s)
  | _ => p_pitch (player s)
  end.
Proof.
  rewrite step_player.
  destruct e as [l|mx my|code t0 t1|code|button|now delta|now]; try reflexivity.
  - destruct (_ && _); reflexivity.
  - destruct (stepPlayer_view env delta (keys s) (player (updateMouseLook s))) as [_ ->].
    rewrite updateMouseLook_player. destruct (isPointerLocked s); reflexivity.
Qed.

Lemma initState_player w page :
  player (initState env w page)
  = mkPlayer (mkVec3 0 (playerHeight / 2) 0) 0 (mkVec3 0 0 0) false 0 0 None None.
Proof.
  pose proof (initState_controls env w page) as H.
  revert H. generalize (initState env w page). intros s H.
  unfold controls in H. injection H as Hp _ _ _ _. exact Hp.
Qed.

(** X4. Looking up and down is clamped.  After any sequence of events the
    pitch of the player lies between -pi/2 + 0.1 and pi/2 - 0.1 (about 84
    degrees down and up), unless it is NaN. *)
Theorem pitch_stays_in_range w page events :
  pitchInRange (player (run env events (initState env w page))).
Proof.
  assert (H0 : pitchInRange (player (initState env w page))).
  { rewrite initState_player. right. reflexivity. }
  revert H0. generalize (initState env w page).
  induction events as [|e events IH]; intros s Hs; [exact Hs|].
  change (run env (e :: events) s) with (run env events (step env s e)).
  apply IH. unfold pitchInRange. rewrite step_pitch.
  destruct e as [l|mx my|code t0 t1|code|button|now delta|now]; try exact Hs.
  destruct (isPointerLocked s); [apply clampPitch_range | exact Hs].
Qed.

(** A frame under pointer lock clears the accumulated mouse movement. *)
Lemma update_mouseDelta now delta s :
  isPointerLocked s = true ->
  mouseDeltaX (update env now delta s) = 0%float /\
  mouseDeltaY (update env now delta s) = 0%float.
Proof.
  intros Hl.
  destruct (controls_inv _ _ (update_controls env now delta s)) as (_ & _ & -> & -> & _).
  assert (Hx : forall x, mouseDeltaX (updatePlayer env delta x) = mouseDeltaX x)
    by reflexivity.
  assert (Hy : forall x, mouseDeltaY (updatePlayer env delta x) = mouseDeltaY x)
    by reflexivity.
  rewrite Hx, Hy. unfold updateMouseLook. rewrite Hl. split; reflexivity.
Qed.

(** X5. A movement of the mouse is used once.  The frame that follows it
    turns the player and clears the accumulated movement, so that a second
    frame with no event in between leaves yaw and pitch as the first left
    them. *)
Theorem mouse_movement_used_once now1 delta1 now2 delta2 s :
  view (player (update env now2 delta2 (update env now1 delta1 s)))
  = view (player (update env now1 delta1 s)).
Proof.
  pose proof (update_player env now1 delta1 s) as Hpl.
  pose proof (update_isPointerLocked env now1 delta1 s) as Hlock.
  pose proof (update_mouseDelta now1 delta1 s) as Hd.
  rewrite (update_player env now2 delta2).
  generalize dependent (update env now1 delta1 s). intros s1 Hpl Hlock Hd.
  destruct (stepPlayer_view env delta2 (keys s1) (player (updateMouseLook s1)))
    as [Hy Hp].
  unfold view. rewrite Hy, Hp, updateMouseLook_player, Hlock.
  destruct (isPointerLocked s) eqn:El; [|reflexivity].
  destruct (Hd eq_refl) as [-> ->].
  rewrite mouseLook_pitch, mouseLook_yaw.
  change (0 * 0.002)%float with 0%float. rewrite !sub_0_r.
  f_equal. rewrite Hpl.
  destruct (stepPlayer_view env delta1 (keys s) (player (updateMouseLook s)))
    as [_ Hp1].
  rewrite Hp1, updateMouseLook_player, El, mouseLook_pitch.
  apply clampPitch_idem.
Qed.

End Looking.

Section Keyboard.

Variable env : Env.

Lemma keydown_keys code t0 t1 s :
  keys (keydown env code t0 t1 s) = <[code := true]> (keys s).
Proof.
  unfold keydown. cbv zeta. destruct (String.eqb code "Tab"); [|reflexivity].
  by destruct (controls_inv _ _ (toggleFocusMode_controls env t0 t1
                                   (set_keys (<[code:=true]> (keys s)) s)))
    as (_ & _ & _ & _ & ->).
Qed.

Lemma keyDown_insert ks code b other :
  keyDown (<[code := b]> ks) other
  = if String.eqb other code then b else keyDown ks other.
Proof.
  unfold keyDown. destruct (String.eqb_spec other code) as [->|Hne].
  - by rewrite lookup_insert_eq.
  - by rewrite lookup_insert_ne.
Qed.

(** X6. A key counts as held from its [keydown] to its [keyup].  After a
    key went down it reads as held, after it went up again it reads as
    released, and every other key reads as before. *)
Theorem key_held_until_released code other t0 t1 s :
  keyDown (keys (keydown env code t0 t1 s)) other
    = (if String.eqb other code then true else keyDown (keys s) other) /\
  keyDown (keys (keyup code (keydown env code t0 t1 s))) other
    = (if String.eqb other code then false else keyDown (keys s) other) /\
  keyDown (keys (keyup code s)) other
    = (if String.eqb other code then false else keyDown (keys s) other).
Proof.
  assert (Hup : forall x, keys (keyup code x) = <[code := false]> (keys x))
    by reflexivity.
  rewrite !Hup, keydown_keys, !keyDown_insert.
  repeat split; try reflexivity.
  destruct (String.eqb other code); reflexivity.
Qed.

End Keyboard.

Section Walking.

Variable env : Env.

(** With no movement key held, or with opposite keys held together, the
    movement step stops the player horizontally. *)
Lemma movement_rest ks p :
  keyDown ks "KeyW" = keyDown ks "KeyS" ->
  keyDown ks "KeyA" = keyDown ks "KeyD" ->
  movement env ks p = set_velocity (mkVec3 0 (vy (p_velocity p)) 0) p.
Proof.
  intros HW HA. unfold movement. rewrite HW, HA.
  destruct (keyDown ks "KeyS"), (keyDown ks "KeyD"); reflexivity.
Qed.

Lemma stepPlayer_horizontal delta ks p :
  vx (p_velocity (stepPlayer env delta ks p)) = vx (p_velocity (movement env ks p)) /\
  vz (p_velocity (stepPlayer env delta ks p)) = vz (p_velocity (movement env ks p)).
Proof.
  destruct (stepPlayer_physics env delta ks p) as (_ & -> & _).
  unfold groundCollision, jump. cbv zeta.
  destruct (_ <? _)%float; destruct (_ && _); split; reflexivity.
Qed.

(** X7. Opposite keys cancel.  If W and S are both held or both released,
    and A and D likewise, the update leaves the player without horizontal
    velocity, whatever the yaw. *)
Theorem opposite_keys_cancel now delta s :
  keyDown (keys s) "KeyW" = keyDown (keys s) "KeyS" ->
  keyDown (keys s) "KeyA" = keyDown (keys s) "KeyD" ->
  vx (p_velocity (player (update env now delta s))) = 0%float /\
  vz (p_velocity (player (update env now delta s))) = 0%float.
Proof.
  intros HW HA. rewrite update_player.
  destruct (stepPlayer_horizontal delta (keys s) (player (updateMouseLook s)))
    as [-> ->].
  rewrite movement_rest by assumption. split; reflexivity.
Qed.

Lemma movement_onGround ks p : p_onGround (movement env ks p) = p_onGround p.
Proof. unfold movement. cbv zeta. destruct (_ <? _)%float; reflexivity. Qed.

Lemma movement_Space held ks p :
  movement env (<["Space" := held]> ks) p = movement env ks p.
Proof. unfold movement. by rewrite !keyDown_insert. Qed.

(** X8. No jump in the air.  While the player is not on the ground the
    Space key has no effect: the update moves the player the same whether
    Space is held or not. *)
Theorem no_jump_in_the_air now delta held s :
  p_onGround (player s) = false ->
  player (update env now delta (set_keys (<["Space" := held]> (keys s)) s))
  = player (update env now delta s).
Proof.
  intros Hair. rewrite !update_player.
  assert (Hk : keys (set_keys (<["Space" := held]> (keys s)) s)
               = <["Space" := held]> (keys s)) by reflexivity.
  assert (Hp : player (updateMouseLook (set_keys (<["Space" := held]> (keys s)) s))
               = player (updateMouseLook s)).
  { unfold updateMouseLook.
    change (isPointerLocked (set_keys _ s)) with (isPointerLocked s).
    destruct (isPointerLocked s); reflexivity. }
  rewrite Hk, Hp.
  assert (Hg : p_onGround (player (updateMouseLook s)) = false).
  { rewrite updateMouseLook_player. destruct (isPointerLocked s); exact Hair. }
  generalize dependent (player (updateMouseLook s)). intros p _ Hg.
  unfold stepPlayer. rewrite movement_Space.
  unfold jump. rewrite movement_onGround, Hg, !andb_false_r. reflexivity.
Qed.

Lemma groundCollision_height p :
  (vy (p_position (groundCollision p)) <? 0)%float = false.
Proof.
  unfold groundCollision. cbv zeta.
  destruct (vy (p_position p) <? 0)%float eqn:E; [reflexivity | exact E].
Qed.

(** The height of the player after an event. *)
Lemma step_height s e :
  (vy (p_position (player s)) <? 0)%float = false ->
  (vy (p_position (player (step env s e))) <? 0)%float = false.
Proof.
  intros H. rewrite step_player.
  destruct e as [l|mx my|code t0 t1|code|button|now delta|now]; try exact H.
  - destruct (_ && _); exact H.
  - destruct (stepPlayer_physics env delta (keys s) (player (updateMouseLook s)))
      as (-> & _).
    apply groundCollision_height.
Qed.

(** X9. The player never sinks below the ground.  After any sequence of
    events the height of the player is not below 0. *)
Theorem player_stays_above_ground w page events :
  (vy (p_position (player (run env events (initState env w page)))) <? 0)%float = false.
Proof.
  assert (H0 : (vy (p_position (player (initState env w page))) <? 0)%float = false)
    by (rewrite initState_player; reflexivity).
  revert H0. generalize (initState env w page).
  induction events as [|e events IH]; intros s Hs; [exact Hs|].
  change (run env (e :: events) s) with (run env events (step env s e)).
  apply IH, step_height, Hs.
Qed.

End Walking.

Section Score.

Variable env : Env.

Lemma updateScoreDisplay_scoreShown s : scoreShown (updateScoreDisplay s).
Proof.
  unfold scoreShown, updateScoreDisplay. destruct (scoreEl (dom s)) eqn:E.
  - reflexivity.
  - by rewrite E.
Qed.

Lemma updateScoreDisplay_score s : score (updateScoreDisplay s) = score s.
Proof. unfold updateScoreDisplay. destruct (scoreEl _); reflexivity. Qed.

Lemma hitTarget_score b i j t s :
  score (hitTarget env b i j t s) = (score s + t_score t)%float.
Proof.
  cbv beta zeta delta [hitTarget]. rewrite updateScoreDisplay_score.
  frame score. reflexivity.
Qed.

(** The target a hit spawns is a target as [createTarget] makes it. *)
Lemma hitTarget_fresh b i j t s :
  exists fresh,
    targets (hitTarget env b i j t s) = delete j (targets s) ++ [fresh] /\
    worthTen fresh /\ t_lookAt fresh = None.
Proof.
  cbv beta zeta delta [hitTarget]. rewrite updateScoreDisplay_targets.
  frame targets. rewrite pushTarget_targets. targets_set.
  frame targets. eexists. split; [reflexivity|]. split; [split|]; reflexivity.
Qed.

Lemma hitTarget_scoreShown b i j t s : scoreShown (hitTarget env b i j t s).
Proof. cbv beta zeta delta [hitTarget]. apply updateScoreDisplay_scoreShown. Qed.

Lemma updateMouseLook_scoreboard s : scoreboard (updateMouseLook s) = scoreboard s.
Proof. unfold updateMouseLook. destruct (isPointerLocked s); reflexivity. Qed.

Lemma updateFOV_scoreboard a now s : scoreboard (updateFOV env a now s) = scoreboard s.
Proof. unfold updateFOV. cbv zeta. destruct (_ <? 1)%float; reflexivity. Qed.

Lemma fovFrame_scoreboard now s : scoreboard (fovFrame env now s) = scoreboard s.
Proof.
  unfold fovFrame.
  change (scoreboard s) with (scoreboard (set_fovAnimations [] s)).
  generalize (set_fovAnimations [] s). generalize (fovAnimations s).
  intros l; induction l as [|a l IH]; intros s0; [reflexivity|].
  cbn [fold_left]. rewrite IH. apply updateFOV_scoreboard.
Qed.

Lemma toggleFocusMode_scoreboard t0 t1 s :
  scoreboard (toggleFocusMode env t0 t1 s) = scoreboard s.
Proof.
  cbv beta zeta delta [toggleFocusMode animateFOV]. frame scoreboard.
  rewrite updateFOV_scoreboard. reflexivity.
Qed.

(** Only a frame changes the targets, the score or what the page shows of
    it. *)
Lemma step_scoreboard s e :
  match e with
  | Frame _ _ => True
  | _ => scoreboard (step env s e) = scoreboard s
  end.
Proof.
  destruct e as [l|mx my|code t0 t1|code|button|now delta|now]; cbn [step].
  - reflexivity.
  - unfold mousemove. destruct (isPointerLocked s); reflexivity.
  - unfold keydown. cbv zeta. destruct (String.eqb code "Tab"); [|reflexivity].
    rewrite toggleFocusMode_scoreboard. reflexivity.
  - reflexivity.
  - unfold mousedown. destruct (_ && _); reflexivity.
  - exact I.
  - apply fovFrame_scoreboard.
Qed.

(** A property of the scoreboard that a hit keeps and that does not depend
    on where the targets are is kept by [update]. *)
Lemma update_scoreboard (Q : State -> Prop) now delta s :
  (forall x y, scoreboard x = scoreboard y -> Q y -> Q x) ->
  (forall b i j t x, targets x !! j = Some t -> Q x -> Q (hitTarget env b i j t x)) ->
  (forall f x,
     (forall t, t_score (f t) = t_score t /\ t_hitRadius (f t) = t_hitRadius t) ->
     Q x -> Q (set_targets (map f (targets x)) x)) ->
  Q s -> Q (update env now delta s).
Proof.
  intros Hview Hhit Hmap HQ. unfold update, updateCamera.
  match goal with |- Q (set_camera ?c ?x) =>
    apply (Hview (set_camera c x) x); [reflexivity|]
  end.
  apply (loops_updatePaintballs env Q);
    try (intros v x; apply Hview; reflexivity).
  - exact Hhit.
  - unfold updateTargets. apply Hmap.
    + intros t. unfold updateTarget. cbv zeta.
      destruct (_ <? 2)%float; split; reflexivity.
    + unfold updatePlayer.
      match goal with |- Q (set_player ?p ?x) =>
        apply (Hview (set_player p x) x); [reflexivity|]
      end.
      apply (Hview _ s); [apply updateMouseLook_scoreboard | exact HQ].
Qed.

Lemma spawnTargets_worthTen n s :
  Forall worthTen (targets s) -> Forall worthTen (targets (spawnTargets env n s)).
Proof.
  revert s. induction n as [|n IH]; intros s Hs; [exact Hs|].
  cbn [spawnTargets]. apply IH. rewrite pushTarget_targets.
  apply Forall_app. split; [exact Hs|]. repeat constructor.
Qed.

Lemma initState_targets w page : Forall worthTen (targets (initState env w page)).
Proof.
  unfold initState. cbv zeta. frame targets. rewrite updateScoreDisplay_targets.
  apply spawnTargets_worthTen. constructor.
Qed.

Lemma initState_score w page : score (initState env w page) = 0%float.
Proof.
  unfold initState. cbv zeta. frame score. rewrite updateScoreDisplay_score.
  rewrite (spawn_spawnTargets env score); reflexivity.
Qed.

Lemma set_dom_scoreShown fm vg s :
  scoreShown s -> scoreShown (set_dom (mkDom (scoreEl (dom s)) fm vg) s).
Proof. intros H. exact H. Qed.

Lemma initState_scoreShown w page : scoreShown (initState env w page).
Proof.
  unfold initState. cbv zeta.
  apply set_dom_scoreShown, updateScoreDisplay_scoreShown.
Qed.

(** X10. The page shows the score.  After any sequence of events the score
    element of the page, if there is one, shows the current score: every
    change of the score is followed by [updateScoreDisplay]. *)
Theorem score_display_in_sync w page events :
  scoreShown (run env events (initState env w page)).
Proof.
  pose proof (initState_scoreShown w page) as H0.
  revert H0. generalize (initState env w page).
  induction events as [|e events IH]; intros s Hs; [exact Hs|].
  change (run env (e :: events) s) with (run env events (step env s e)).
  apply IH. pose proof (step_scoreboard s e) as He.
  assert (Hview : forall x y, scoreboard x = scoreboard y -> scoreShown y -> scoreShown x).
  { intros x y Hxy. unfold scoreboard in Hxy. unfold scoreShown.
    injection Hxy as _ -> ->. auto. }
  destruct e as [l|mx my|code t0 t1|code|button|now delta|now];
    try exact (Hview _ _ He Hs).
  cbn [step].
  apply (update_scoreboard scoreShown now delta s); [exact Hview| | |exact Hs].
  - intros b i j t x _ _. apply hitTarget_scoreShown.
  - intros f x _ H. exact H.
Qed.

End Score.

Section Animation.

Variable env : Env.

Lemma updateFOV_spec a now s :
  fovAnimations (updateFOV env a now s)
    = fovAnimations s ++ (if running now a then [a] else []) /\
  camera (updateFOV env a now s)
    = mkCamera (c_position (camera s)) (c_lookAt (camera s)) (easedFOV env a now).
Proof.
  unfold updateFOV, running, easedFOV, progress. cbv zeta.
  destruct (_ <? 1)%float; split; try reflexivity.
  symmetry. apply app_nil_r.
Qed.

Lemma fold_updateFOV now l : forall s,
  fovAnimations (fold_left (fun s a => updateFOV env a now s) l s)
    = fovAnimations s ++ List.filter (running now) l /\
  camera (fold_left (fun s a => updateFOV env a now s) l s)
    = match last l with
      | Some a => mkCamera (c_position (camera s)) (c_lookAt (camera s))
                    (easedFOV env a now)
      | None => camera s
      end.
Proof.
  induction l as [|a l IH]; intros s.
  - split; [symmetry; apply app_nil_r | reflexivity].
  - cbn [fold_left List.filter].
    destruct (IH (updateFOV env a now s)) as [-> ->].
    destruct (updateFOV_spec a now s) as [-> ->].
    split.
    + rewrite <- app_assoc. destruct (running now a); reflexivity.
    + rewrite last_cons. destruct (last l); reflexivity.
Qed.

(** X12. Animations of the field of view overlap.  A toggle of the focus
    mode starts an animation from the current field of view to the one of
    the new mode and cancels none: the animations that were pending stay
    pending.  An animation frame runs every pending animation once, in the
    order they were started; those that are not over stay pending, and the
    field of view of the camera is the one the animation started last sets
    (the others are overwritten within the frame).  Position and direction of
    the camera are not touched. *)
Theorem fov_animations_overlap t0 t1 now s :
  (let a := mkFovAnim (c_fov (camera s))
              (fov (focusModes (otherMode (focusMode s)))) t0 in
   fovAnimations (toggleFocusMode env t0 t1 s)
     = fovAnimations s ++ (if running t1 a then [a] else []) /\
   c_fov (camera (toggleFocusMode env t0 t1 s)) = easedFOV env a t1) /\
  fovAnimations (fovFrame env now s) = List.filter (running now) (fovAnimations s) /\
  c_fov (camera (fovFrame env now s))
    = match last (fovAnimations s) with
      | Some a => easedFOV env a now
      | None => c_fov (camera s)
      end /\
  c_position (camera (fovFrame env now s)) = c_position (camera s) /\
  c_lookAt (camera (fovFrame env now s)) = c_lookAt (camera s).
Proof.
  split.
  { cbv zeta. cbv beta zeta delta [toggleFocusMode animateFOV].
    frame fovAnimations. frame camera.
    match goal with |- context [updateFOV env ?a t1 ?x] =>
      destruct (updateFOV_spec a t1 x) as [-> ->]
    end.
    split; reflexivity. }
  unfold fovFrame.
  destruct (fold_updateFOV now (fovAnimations s) (set_fovAnimations [] s)) as [-> ->].
  split; [reflexivity|].
  destruct (last (fovAnimations s)); repeat split; reflexivity.
Qed.

End Animation.

(** ** More on lists *)

Lemma delete_app_l {A} (j : nat) (l1 l2 : list A) :
  j < length l1 -> delete j (l1 ++ l2) = delete j l1 ++ l2.
Proof.
  revert j. induction l1 as [|x l1 IH]; intros [|j] H; simpl in *; try lia.
  - reflexivity.
  - rewrite IH by lia. reflexivity.
Qed.

Lemma delete_app_r {A} (j : nat) (l1 l2 : list A) :
  length l1 <= j -> delete j (l1 ++ l2) = l1 ++ delete (j - length l1) l2.
Proof.
  revert j. induction l1 as [|x l1 IH]; intros j H; simpl in *.
  - by rewrite Nat.sub_0_r.
  - destruct j as [|j]; [lia|]. simpl. rewrite IH by lia. reflexivity.
Qed.

Section TargetList.

Variable env : Env.

Lemma beforePaintballs_targets delta s :
  targets (beforePaintballs env delta s)
  = map (updateTarget env delta (c_position (camera s))) (targets s).
Proof.
  unfold beforePaintballs, updateTargets. rewrite targets_set_targets.
  unfold updatePlayer. frame targets. frame camera.
  rewrite updateMouseLook_targets, updateMouseLook_camera. reflexivity.
Qed.

(** The targets after a frame: those of the old list that were not hit,
    moved, then those spawned in the frame. *)
Lemma update_targets_kept now delta s :
  exists kept spawned,
    targets (update env now delta s) = kept ++ spawned /\
    kept `sublist_of` map (updateTarget env delta (c_position (camera s))) (targets s) /\
    Forall justSpawned spawned /\
    length kept + length spawned = length (targets s).
Proof.
  set (L := map (updateTarget env delta (c_position (camera s))) (targets s)).
  set (Q := fun x : State =>
              exists kept spawned,
                targets x = kept ++ spawned /\ kept `sublist_of` L /\
                Forall justSpawned spawned).
  assert (HQ : Q (update env now delta s)).
  { unfold update, updateCamera.
    match goal with |- Q (set_camera ?c ?x) =>
      assert (Hx : Q x); [|exact Hx]
    end.
    apply (loops_updatePaintballs env Q); try (intros v x H; exact H).
    - intros b i j t x Hj (kept & spawned & Hx & Hsub & Hsp).
      destruct (hitTarget_fresh env b i j t x) as (fresh & Hf & Hw & Hl).
      unfold Q. rewrite Hf, Hx.
      destruct (decide (j < length kept)) as [Hlt|Hge].
      + exists (delete j kept), (spawned ++ [fresh]). split; [|split].
        * rewrite delete_app_l by exact Hlt. by rewrite app_assoc.
        * etrans; [apply sublist_delete | exact Hsub].
        * apply Forall_app. split; [exact Hsp|].
          constructor; [by split | constructor].
      + exists kept, (delete (j - length kept) spawned ++ [fresh]). split; [|split].
        * rewrite delete_app_r by lia. by rewrite app_assoc.
        * exact Hsub.
        * apply Forall_app. split; [by apply Forall_delete|].
          constructor; [by split | constructor].
    - exists L, []. split; [|split; [reflexivity | constructor]].
      rewrite app_nil_r. apply beforePaintballs_targets. }
  destruct HQ as (kept & spawned & Hx & Hsub & Hsp).
  exists kept, spawned. repeat split; try assumption.
  rewrite <- length_app, <- Hx. apply update_targets_length.
Qed.


End TargetList.

(** ** The city *)

Lemma digits2_pos_size m : digits2_pos m = Pos.size m.
Proof. induction m; simpl; congruence. Qed.

(** A number above 3 has an integer part of at least 3. *)
Lemma floorZ_above_3 (y : float) z :
  (3 <? y)%float = true -> floorZ y = Some z -> (3 <= z)%Z.
Proof.
  rewrite ltb_spec. pose proof (Prim2SF_valid y) as V. unfold floorZ.
  change (Prim2SF 3) with (S754_finite false 6755399441055744 (-51)).
  destruct (Prim2SF y) as [s|s| |s m e]; cbn [SFltb SFcompare];
    try discriminate; try (destruct s; discriminate).
  destruct s; [discriminate|]. intros Hlt [= <-].
    unfold valid_binary, bounded, canonical_mantissa, fexp in V.
    apply andb_prop in V. destruct V as [Hc _]. apply Z.eqb_eq in Hc.
    rewrite digits2_pos_size in Hc.
    pose proof (Pos.size_le m) as Hsize.
    destruct (-51 ?= e)%Z eqn:Ee; try discriminate.
    + apply Z.compare_eq in Ee. subst e.
      change (0 <=? -51)%Z with false. cbv iota.
      destruct (Pos.compare_cont Eq 6755399441055744 m) eqn:Em; try discriminate.
      assert (Hm : (6755399441055744 < m)%positive) by exact Em.
      apply Z.div_le_lower_bound; [reflexivity|]. lia.
    + assert (Hgt : (-51 < e)%Z) by exact Ee.
      assert (HD : Z.pos (Pos.size m) = 53%Z) by (unfold emin, prec, emax in Hc; lia).
      assert (Hm : (2 ^ 52 <= Z.pos m)%Z).
      { injection HD as HD. rewrite HD in Hsize.
        change (2 ^ 53)%positive with (9007199254740992)%positive in Hsize.
        change (2 ^ 52)%Z with 4503599627370496%Z. lia. }
      destruct (0 <=? e)%Z eqn:E0.
      * apply Z.leb_le in E0.
        assert (1 <= 2 ^ e)%Z by (apply Z.lt_pred_le, Z.pow_pos_nonneg; lia).
        change (2 ^ 52)%Z with 4503599627370496%Z in Hm. nia.
      * apply Z.leb_gt in E0.
        apply Z.div_le_lower_bound; [apply Z.pow_pos_nonneg; lia|].
        assert (2 ^ (- e) <= 2 ^ 50)%Z by (apply Z.pow_le_mono_r; lia).
        change (2 ^ 52)%Z with 4503599627370496%Z in Hm.
        change (2 ^ 50)%Z with 1125899906842624%Z in H. lia.
Qed.

(** The loop of [addStairs] makes no round, if the number of steps is NaN, or
    at least four. *)
Lemma rounds_Math_max_3 (y : float) n :
  rounds (Math_max 3 y) = Some n -> n = 0 \/ 4 <= n.
Proof.
  unfold Math_max. change (is_nan 3) with false. cbn [orb].
  destruct (is_nan y) eqn:En.
  { change (rounds nan) with (Some 0). intros [= <-]. by left. }
  assert (H3 : rounds 3 = Some 4) by reflexivity.
  destruct (3 <? y)%float eqn:E1.
  2:{ destruct (y <? 3)%float; [|change (is_zero 3 && get_sign 3)%bool with false];
        cbv iota; rewrite H3; intros [= <-]; right; lia. }
  clear H3. intros H. right.
  assert (Hz : forall z, floorZ y = Some z -> (3 <= z)%Z)
    by (intros z; exact (floorZ_above_3 y z E1)).
  unfold rounds in H. rewrite ltb_spec in E1.
  change (Prim2SF 3) with (S754_finite false 6755399441055744 (-51)) in E1.
  destruct (Prim2SF y) as [s|s| |s m e] eqn:Ey; cbn [SFltb SFcompare] in E1;
    try discriminate E1.
  - destruct s; [discriminate E1 | discriminate H].
  - destruct s; [discriminate E1|].
    destruct (floorZ y) as [z|]; [|discriminate].
    specialize (Hz z eq_refl).
    destruct (z <? 2 ^ 53)%Z; [|discriminate].
    injection H as <-. lia.
Qed.


Lemma builtOn_refl wd : builtOn wd wd [].
Proof. split; [by rewrite app_nil_r|]. split; [reflexivity | simpl; lia]. Qed.

Lemma builtOn_trans wd1 wd2 wd3 l1 l2 :
  builtOn wd1 wd2 l1 -> builtOn wd2 wd3 l2 -> builtOn wd1 wd3 (l1 ++ l2).
Proof.
  intros (H1 & H2 & H3) (H4 & H5 & H6). unfold builtOn, numbered in *.
  rewrite H4, H1, H6, H3, length_app, map_app, H2, H5, H3, seq_app, app_assoc.
  repeat split; lia.
Qed.

(** ** When the loop of the stairs ends *)


(** The mantissa of a number has at most 53 binary digits. *)
Lemma valid_mantissa (x : float) s m e :
  Prim2SF x = S754_finite s m e ->
  (Z.pos m < 2 ^ 53)%Z /\ ((-1074 < e)%Z -> (2 ^ 52 <= Z.pos m)%Z).
Proof.
  intros E. pose proof (Prim2SF_valid x) as V. rewrite E in V.
  unfold valid_binary, bounded, canonical_mantissa, fexp in V.
  apply andb_prop in V. destruct V as [Hc _]. apply Z.eqb_eq in Hc.
  rewrite digits2_pos_size in Hc. unfold emin, prec, emax in Hc.
  pose proof (Pos.size_gt m) as Hgt. pose proof (Pos.size_le m) as Hle.
  assert (Hgt' : (Z.pos m < 2 ^ Z.pos (Pos.size m))%Z).
  { rewrite <- Pos2Z.inj_pow. lia. }
  assert (Hle' : (2 ^ Z.pos (Pos.size m) <= 2 * Z.pos m)%Z).
  { rewrite <- Pos2Z.inj_pow. lia. }
  split.
  - assert (Hs : (Z.pos (Pos.size m) <= 53)%Z) by lia.
    assert (2 ^ Z.pos (Pos.size m) <= 2 ^ 53)%Z by (apply Z.pow_le_mono_r; lia).
    lia.
  - intros He. assert (Hs : Z.pos (Pos.size m) = 53%Z) by lia.
    rewrite Hs in Hle'. change (2 ^ 53)%Z with (2 * 2 ^ 52)%Z in Hle'. lia.
Qed.




(** ** The size of numbers

    Rounding to nearest keeps a result below the next power of two, so that
    the size of the numbers a computation meets, and with it the absence of
    infinities, can be followed through sums, products, quotients and square
    roots. *)

Section Magnitude.

Local Open Scope Z_scope.

Lemma pow2_pos k : 0 <= k -> 0 < 2 ^ k.
Proof. intros H. apply Z.pow_pos_nonneg; lia. Qed.

Lemma pow2_split a b : 0 <= a -> 0 <= b -> 2 ^ (a + b) = 2 ^ a * 2 ^ b.
Proof. intros. apply Z.pow_add_r; lia. Qed.

Lemma pow2_le a b : a <= b -> 2 ^ a <= 2 ^ b.
Proof.
  intros H. destruct (Z_lt_le_dec a 0) as [Hneg|Hpos].
  - rewrite (Z.pow_neg_r 2 a) by lia. apply Z.pow_nonneg. lia.
  - apply Z.pow_le_mono_r; lia.
Qed.

(** A positive mantissa below 2^t leaves room: t is positive. *)
Lemma below_pow_pos m t : 0 < m -> m < 2 ^ t -> 0 < t.
Proof.
  intros Hm Hlt. destruct (Z_lt_le_dec 0 t) as [H|H]; [exact H|].
  destruct (Z.eq_dec t 0) as [->|Hne].
  - change (2 ^ 0) with 1 in Hlt. lia.
  - rewrite Z.pow_neg_r in Hlt by lia. lia.
Qed.

Lemma digits_le m t : 0 <= m -> 0 <= t -> m < 2 ^ t -> Zdigits2 m <= t.
Proof.
  intros Hm Ht Hlt. destruct m as [|p|p]; [exact Ht | | lia].
  cbn [Zdigits2]. rewrite digits2_pos_size.
  pose proof (Pos.size_le p) as Hle.
  assert (Hle' : 2 ^ Z.pos (Pos.size p) <= 2 * Z.pos p).
  { rewrite <- Pos2Z.inj_pow. lia. }
  destruct (Z_lt_le_dec t (Z.pos (Pos.size p))) as [Hgt|]; [|lia].
  assert (2 ^ (t + 1) <= 2 ^ Z.pos (Pos.size p)) by (apply pow2_le; lia).
  rewrite pow2_split in H by lia. change (2 ^ 1) with 2 in H. lia.
Qed.

Lemma belowSF_mono k k' x : k <= k' -> belowSF k x -> belowSF k' x.
Proof.
  intros Hk. destruct x as [s|s| |s m e]; cbn [belowSF]; try tauto.
  intros H. assert (2 ^ (k - e) <= 2 ^ (k' - e)) by (apply pow2_le; lia). lia.
Qed.

(** *** Rounding *)

Lemma shr_1_half mrs :
  0 <= shr_m mrs -> 0 <= shr_m (shr_1 mrs) /\ 2 * shr_m (shr_1 mrs) <= shr_m mrs.
Proof.
  destruct mrs as [m r s]. cbn [shr_m shr_1].
  destruct m as [|p|p]; [cbn; lia | | lia].
  destruct p; cbn [shr_m]; lia.
Qed.

Lemma iter_shr_1 p : forall mrs,
  0 <= shr_m mrs ->
  0 <= shr_m (SpecFloat.iter_pos shr_1 p mrs) /\
  2 ^ Z.pos p * shr_m (SpecFloat.iter_pos shr_1 p mrs) <= shr_m mrs.
Proof.
  induction p as [p IH|p IH|]; intros mrs Hm; cbn [SpecFloat.iter_pos].
  - destruct (shr_1_half mrs Hm) as [H0 H1].
    destruct (IH _ H0) as [H2 H3]. destruct (IH _ H2) as [H4 H5].
    split; [exact H4|].
    rewrite (Pos2Z.inj_xI p), Z.add_1_r, Z.pow_succ_r, Z.pow_twice_r by lia.
    assert (0 < 2 ^ Z.pos p) by (apply pow2_pos; lia). nia.
  - destruct (IH _ Hm) as [H2 H3]. destruct (IH _ H2) as [H4 H5].
    split; [exact H4|].
    rewrite (Pos2Z.inj_xO p), Z.pow_twice_r.
    assert (0 < 2 ^ Z.pos p) by (apply pow2_pos; lia). nia.
  - change (2 ^ 1) with 2. apply shr_1_half, Hm.
Qed.

Lemma shr_m_of_loc m l : shr_m (shr_record_of_loc m l) = m.
Proof. destruct l as [|[]]; reflexivity. Qed.

Lemma fexp_le t k : t <= k -> -1074 <= k -> fexp prec emax t <= k.
Proof. unfold fexp, emin, prec, emax. lia. Qed.

(** A mantissa of size below 2^k keeps that size through the shift to its
    exponent. *)
Lemma shr_fexp_below m e l k :
  0 <= m -> m < 2 ^ (k - e) -> e <= k -> -1074 <= k ->
  0 <= shr_m (fst (shr_fexp prec emax m e l)) /\
  shr_m (fst (shr_fexp prec emax m e l)) < 2 ^ (k - snd (shr_fexp prec emax m e l)) /\
  snd (shr_fexp prec emax m e l) <= k /\
  (snd (shr_fexp prec emax m e l) <= e \/
   snd (shr_fexp prec emax m e l) <= Z.max (k - 53) (-1074)).
Proof.
  intros Hm Hlt He Hk. unfold shr_fexp, shr.
  assert (Hd : Zdigits2 m + e <= k).
  { pose proof (digits_le m (k - e) Hm ltac:(lia) Hlt). lia. }
  pose proof (fexp_le _ _ Hd Hk) as Hf.
  assert (Hf' : fexp prec emax (Zdigits2 m + e) <= Z.max (k - 53) (-1074))
    by (unfold fexp, emin, prec, emax; lia).
  destruct (fexp prec emax (Zdigits2 m + e) - e) as [|p|p] eqn:En;
    cbn [fst snd]; rewrite ?shr_m_of_loc.
  - repeat split; try assumption. by left.
  - destruct (iter_shr_1 p (shr_record_of_loc m l)) as [H0 H1];
      [by rewrite shr_m_of_loc|].
    rewrite shr_m_of_loc in H1.
    split; [exact H0|]. split; [|split; [lia | right; lia]].
    replace (k - e) with (Z.pos p + (k - (e + Z.pos p))) in Hlt by lia.
    rewrite pow2_split in Hlt by lia.
    assert (0 < 2 ^ Z.pos p) by (apply pow2_pos; lia). nia.
  - repeat split; try assumption. by left.
Qed.

Lemma round_nearest_even_bounds m l :
  m <= round_nearest_even m l <= m + 1.
Proof.
  unfold round_nearest_even. destruct l as [|[]]; try lia.
  destruct (Z.even m); lia.
Qed.

(** Rounding a mantissa of size below 2^k gives a number below 2^(k+1), and
    not infinity. *)
Lemma binary_round_aux_below s m e l k :
  0 <= m -> m < 2 ^ (k - e) -> e <= k -> -1074 <= k -> k <= 970 ->
  belowSF (k + 1) (binary_round_aux prec emax s m e l).
Proof.
  intros Hm Hlt He Hk Hk'. unfold binary_round_aux.
  pose proof (shr_fexp_below m e l k Hm Hlt He Hk) as (H0 & H1 & H2 & H3).
  destruct (shr_fexp prec emax m e l) as [mrs1 e1]. cbn [fst snd] in *.
  pose proof (round_nearest_even_bounds (shr_m mrs1) (loc_of_shr_record mrs1)) as Hr.
  set (m2 := round_nearest_even _ _) in *.
  assert (Hm2 : m2 < 2 ^ (k + 1 - e1)).
  { replace (k + 1 - e1) with (1 + (k - e1)) by lia.
    rewrite pow2_split by lia. change (2 ^ 1) with 2. lia. }
  pose proof (shr_fexp_below m2 e1 loc_Exact (k + 1) ltac:(lia) Hm2 ltac:(lia) ltac:(lia))
    as (H4 & H5 & H6 & H7).
  destruct (shr_fexp prec emax m2 e1 loc_Exact) as [mrs2 e2]. cbn [fst snd] in *.
  destruct (shr_m mrs2) as [|p|p]; cbn [belowSF]; [exact I | | exact I].
  destruct (e2 <=? emax - prec) eqn:E; cbn [belowSF]; [exact H5|].
  apply Z.leb_gt in E. unfold emax, prec in E.
  assert (0 < k + 1 - e2) by (apply (below_pow_pos (Z.pos p)); lia).
  lia.
Qed.

(** *** Multiplication *)

Lemma SFmul_below kx ky x y :
  belowSF kx x -> belowSF ky y -> -1074 <= kx + ky -> kx + ky <= 970 ->
  belowSF (kx + ky + 1) (SFmul prec emax x y).
Proof.
  intros Hx Hy Hlo Hhi.
  destruct x as [sx|sx| |sx mx ex], y as [sy|sy| |sy my ey];
    cbn [SFmul belowSF] in *; try exact I; try contradiction.
  pose proof (below_pow_pos (Z.pos mx) _ ltac:(lia) Hx) as Hax.
  pose proof (below_pow_pos (Z.pos my) _ ltac:(lia) Hy) as Hay.
  apply binary_round_aux_below; try lia.
  replace (kx + ky - (ex + ey)) with ((kx - ex) + (ky - ey)) by lia.
  rewrite pow2_split by lia. rewrite Pos2Z.inj_mul.
  assert (0 < 2 ^ (kx - ex)) by (apply pow2_pos; lia).
  assert (0 < 2 ^ (ky - ey)) by (apply pow2_pos; lia). nia.
Qed.

(** *** Addition and subtraction *)

Lemma pos_iter_xO m d : Z.pos (Pos.iter xO m d) = Z.pos m * 2 ^ Z.pos d.
Proof.
  rewrite (Pos.iter_swap_gen _ _ Z.pos xO (Z.mul 2)) by reflexivity.
  rewrite <- Z.shiftl_mul_pow2 by lia. reflexivity.
Qed.

(** Aligning a mantissa to a smaller exponent keeps its size. *)
Lemma shl_align_below m e e' k :
  Z.pos m < 2 ^ (k - e) ->
  Z.pos (fst (shl_align m e e')) < 2 ^ (k - snd (shl_align m e e')) /\
  snd (shl_align m e e') = Z.min e e'.
Proof.
  intros H. unfold shl_align.
  destruct (e' - e) as [|d|d] eqn:Ed; cbn [fst snd]; try (split; [exact H | lia]).
  split; [|lia]. rewrite pos_iter_xO.
  pose proof (below_pow_pos (Z.pos m) _ ltac:(lia) H) as Ha.
  replace (k - e') with ((k - e) + Z.pos d) by lia.
  rewrite pow2_split by lia.
  assert (0 < 2 ^ Z.pos d) by (apply pow2_pos; lia). nia.
Qed.

Lemma binary_round_below s m e k :
  Z.pos m < 2 ^ (k - e) -> -1074 <= k -> k <= 970 ->
  belowSF (k + 1) (binary_round prec emax s m e).
Proof.
  intros H Hlo Hhi. unfold binary_round.
  pose proof (shl_align_below m e (fexp prec emax (Z.pos (digits2_pos m) + e)) k H)
    as [H1 H2].
  destruct (shl_align _ _ _) as [mz ez]. cbn [fst snd] in *.
  pose proof (below_pow_pos (Z.pos mz) _ ltac:(lia) H1) as Ha.
  apply binary_round_aux_below; lia.
Qed.

Lemma binary_normalize_below z e k szero :
  Z.abs z < 2 ^ (k - e) -> -1074 <= k -> k <= 970 ->
  belowSF (k + 1) (binary_normalize prec emax z e szero).
Proof.
  intros H Hlo Hhi. destruct z as [|p|p]; cbn [binary_normalize]; [exact I | |];
    apply binary_round_below; assumption.
Qed.

Lemma aligned_sum_below sx mx ex sy my ey kx ky (op : Z -> Z -> Z) :
  (forall a b, Z.abs (op a b) <= Z.abs a + Z.abs b) ->
  Z.pos mx < 2 ^ (kx - ex) -> Z.pos my < 2 ^ (ky - ey) ->
  -1074 <= Z.max kx ky + 1 -> Z.max kx ky + 1 <= 970 ->
  belowSF (Z.max kx ky + 2)
    (binary_normalize prec emax
       (op (cond_Zopp sx (Z.pos (fst (shl_align mx ex (Z.min ex ey)))))
           (cond_Zopp sy (Z.pos (fst (shl_align my ey (Z.min ex ey))))))
       (Z.min ex ey) false).
Proof.
  intros Hop Hx Hy Hlo Hhi.
  destruct (shl_align_below mx ex (Z.min ex ey) kx Hx) as [H1 H2].
  destruct (shl_align_below my ey (Z.min ex ey) ky Hy) as [H3 H4].
  replace (Z.max kx ky + 2) with (Z.max kx ky + 1 + 1) by lia.
  apply binary_normalize_below; try lia.
  set (a := Z.pos (fst (shl_align mx ex (Z.min ex ey)))) in *.
  set (b := Z.pos (fst (shl_align my ey (Z.min ex ey)))) in *.
  rewrite H2 in H1. rewrite H4 in H3.
  replace (Z.min ex (Z.min ex ey)) with (Z.min ex ey) in H1 by lia.
  replace (Z.min ey (Z.min ex ey)) with (Z.min ex ey) in H3 by lia.
  pose proof (below_pow_pos a _ ltac:(unfold a; lia) H1) as Ha.
  pose proof (below_pow_pos b _ ltac:(unfold b; lia) H3) as Hb.
  assert (Hle1 : 2 ^ (kx - Z.min ex ey) <= 2 ^ (Z.max kx ky - Z.min ex ey))
    by (apply pow2_le; lia).
  assert (Hle2 : 2 ^ (ky - Z.min ex ey) <= 2 ^ (Z.max kx ky - Z.min ex ey))
    by (apply pow2_le; lia).
  replace (Z.max kx ky + 1 - Z.min ex ey) with (1 + (Z.max kx ky - Z.min ex ey)) by lia.
  rewrite pow2_split by lia. change (2 ^ 1) with 2.
  specialize (Hop (cond_Zopp sx a) (cond_Zopp sy b)).
  assert (Z.abs (cond_Zopp sx a) = a) by (unfold a; destruct sx; cbn [cond_Zopp]; lia).
  assert (Z.abs (cond_Zopp sy b) = b) by (unfold b; destruct sy; cbn [cond_Zopp]; lia).
  lia.
Qed.

Lemma SFadd_below kx ky x y :
  belowSF kx x -> belowSF ky y ->
  -1074 <= Z.max kx ky + 1 -> Z.max kx ky + 1 <= 970 ->
  belowSF (Z.max kx ky + 2) (SFadd prec emax x y).
Proof.
  intros Hx Hy Hlo Hhi.
  destruct x as [sx|sx| |sx mx ex], y as [sy|sy| |sy my ey];
    cbn [SFadd belowSF] in *; try exact I; try contradiction.
  - destruct sx, sy; exact I.
  - revert Hy. apply (belowSF_mono ky _ (S754_finite sy my ey)). lia.
  - revert Hx. apply (belowSF_mono kx _ (S754_finite sx mx ex)). lia.
  - apply (aligned_sum_below sx mx ex sy my ey kx ky Z.add); try assumption.
    intros a b. lia.
Qed.

Lemma SFsub_below kx ky x y :
  belowSF kx x -> belowSF ky y ->
  -1074 <= Z.max kx ky + 1 -> Z.max kx ky + 1 <= 970 ->
  belowSF (Z.max kx ky + 2) (SFsub prec emax x y).
Proof.
  intros Hx Hy Hlo Hhi.
  destruct x as [sx|sx| |sx mx ex], y as [sy|sy| |sy my ey];
    cbn [SFsub belowSF] in *; try exact I; try contradiction.
  - destruct sx, sy; exact I.
  - revert Hy. apply (belowSF_mono ky _ (S754_finite sy my ey)). lia.
  - revert Hx. apply (belowSF_mono kx _ (S754_finite sx mx ex)). lia.
  - apply (aligned_sum_below sx mx ex sy my ey kx ky Z.sub); try assumption.
    intros a b. lia.
Qed.

(** *** Division *)

(** Dividing by a number of size at least 2^(j-1). *)
Lemma SFdiv_below kx j x sy my ey :
  belowSF kx x ->
  Zdigits2 (Z.pos my) + ey = j -> 2 ^ (j - 1 - ey) <= Z.pos my -> 0 <= j - 1 - ey ->
  -1074 <= kx - j + 1 -> kx - j + 1 <= 970 ->
  belowSF (kx - j + 2) (SFdiv prec emax x (S754_finite sy my ey)).
Proof.
  intros Hx Hj Hlow Hexp Hlo Hhi.
  destruct x as [sx|sx| |sx mx ex]; cbn [SFdiv belowSF] in *;
    try exact I; try contradiction.
  pose proof (below_pow_pos (Z.pos mx) _ ltac:(lia) Hx) as Hax.
  assert (Hd1 : Zdigits2 (Z.pos mx) + ex <= kx).
  { pose proof (digits_le (Z.pos mx) (kx - ex) ltac:(lia) ltac:(lia) Hx). lia. }
  unfold SFdiv_core_binary. rewrite Hj.
  set (e' := Z.min (fexp prec emax (Zdigits2 (Z.pos mx) + ex - j)) (ex - ey)).
  assert (He' : e' <= kx - j + 1 /\ e' <= ex - ey).
  { unfold e', fexp, emin, prec, emax. lia. }
  set (m' := match ex - ey - e' with
             | 0 => Z.pos mx
             | Z.pos _ => Z.shiftl (Z.pos mx) (ex - ey - e')
             | Z.neg _ => 0
             end).
  assert (Hm' : 0 <= m' < 2 ^ (kx - j + 1 - e') * 2 ^ (j - 1 - ey)).
  { rewrite <- pow2_split by lia. unfold m'.
    destruct (ex - ey - e') as [|p|p] eqn:Es.
    - replace (kx - j + 1 - e' + (j - 1 - ey)) with (kx - ex) by lia. lia.
    - rewrite Z.shiftl_mul_pow2 by lia.
      replace (kx - j + 1 - e' + (j - 1 - ey)) with ((kx - ex) + Z.pos p) by lia.
      rewrite pow2_split by lia.
      assert (0 < 2 ^ Z.pos p) by (apply pow2_pos; lia). nia.
    - lia. }
  clearbody m'.
  pose proof (Z_div_mod m' (Z.pos my) ltac:(lia)) as Hdiv.
  destruct (Z.div_eucl m' (Z.pos my)) as [q r].
  destruct Hdiv as [Hq Hr].
  assert (Hp : 0 < 2 ^ (kx - j + 1 - e')) by (apply pow2_pos; lia).
  replace (kx - j + 2) with (kx - j + 1 + 1) by lia.
  apply binary_round_aux_below; try lia; nia.
Qed.

(** *** Square root *)

Lemma SFsqrt_below kx x :
  belowSF kx x -> -1074 <= (kx + 1) / 2 -> (kx + 1) / 2 <= 970 ->
  belowSF ((kx + 1) / 2 + 1) (SFsqrt prec emax x).
Proof.
  intros Hx Hlo Hhi.
  destruct x as [sx|sx| |sx mx ex]; cbn [SFsqrt belowSF] in *;
    try exact I; try contradiction.
  destruct sx; [exact I|].
  pose proof (below_pow_pos (Z.pos mx) _ ltac:(lia) Hx) as Hax.
  assert (Hd1 : Zdigits2 (Z.pos mx) + ex <= kx).
  { pose proof (digits_le (Z.pos mx) (kx - ex) ltac:(lia) ltac:(lia) Hx). lia. }
  unfold SFsqrt_core_binary.
  set (K := (kx + 1) / 2) in *.
  assert (HK : kx <= 2 * K) by (unfold K; pose proof (Z.div_mod (kx + 1) 2 ltac:(lia));
    pose proof (Z.mod_pos_bound (kx + 1) 2 ltac:(lia)); lia).
  set (e' := Z.min (fexp prec emax (Z.div2 (Zdigits2 (Z.pos mx) + ex + 1))) (Z.div2 ex)).
  assert (He' : e' <= K /\ 2 * e' <= ex).
  { unfold e', fexp, emin, prec, emax. rewrite !Z.div2_div.
    assert ((Zdigits2 (Z.pos mx) + ex + 1) / 2 <= K)
      by (unfold K; apply Z.div_le_mono; lia).
    pose proof (Z.div_mod ex 2 ltac:(lia)).
    pose proof (Z.mod_pos_bound ex 2 ltac:(lia)). lia. }
  set (m' := match ex - 2 * e' with
             | 0 => Z.pos mx
             | Z.pos _ => Z.shiftl (Z.pos mx) (ex - 2 * e')
             | Z.neg _ => 0
             end).
  assert (Hm' : 0 <= m' < 2 ^ (K - e') * 2 ^ (K - e')).
  { rewrite <- pow2_split by lia.
    assert (Hle : 2 ^ (kx - 2 * e') <= 2 ^ (K - e' + (K - e'))) by (apply pow2_le; lia).
    unfold m'. destruct (ex - 2 * e') as [|p|p] eqn:Es.
    - replace (kx - 2 * e') with (kx - ex) in Hle by lia. lia.
    - rewrite Z.shiftl_mul_pow2 by lia.
      replace (kx - 2 * e') with ((kx - ex) + Z.pos p) in Hle by lia.
      rewrite pow2_split in Hle by lia.
      assert (0 < 2 ^ Z.pos p) by (apply pow2_pos; lia). nia.
    - lia. }
  clearbody m'.
  pose proof (Z.sqrtrem_spec m' ltac:(lia)) as Hs.
  destruct (Z.sqrtrem m') as [q r]. destruct Hs as [Hq Hr].
  assert (Hp : 0 < 2 ^ (K - e')) by (apply pow2_pos; lia).
  apply binary_round_aux_below; try lia; nia.
Qed.

(** *** The operations on numbers *)

Lemma below_mono k k' x : k <= k' -> below k x -> below k' x.
Proof. apply belowSF_mono. Qed.

Lemma below_mul kx ky x y :
  below kx x -> below ky y -> -1074 <= kx + ky -> kx + ky <= 970 ->
  below (kx + ky + 1) (x * y).
Proof. unfold below. rewrite mul_spec. apply SFmul_below. Qed.

Lemma below_add kx ky x y :
  below kx x -> below ky y ->
  -1074 <= Z.max kx ky + 1 -> Z.max kx ky + 1 <= 970 ->
  below (Z.max kx ky + 2) (x + y).
Proof. unfold below. rewrite add_spec. apply SFadd_below. Qed.

Lemma below_sub kx ky x y :
  below kx x -> below ky y ->
  -1074 <= Z.max kx ky + 1 -> Z.max kx ky + 1 <= 970 ->
  below (Z.max kx ky + 2) (x - y).
Proof. unfold below. rewrite sub_spec. apply SFsub_below. Qed.

Lemma below_sqrt kx x :
  below kx x -> -1074 <= (kx + 1) / 2 -> (kx + 1) / 2 <= 970 ->
  below ((kx + 1) / 2 + 1) (PrimFloat.sqrt x).
Proof. unfold below. rewrite sqrt_spec. apply SFsqrt_below. Qed.

Lemma below_div_3half kx x :
  below kx x -> -1074 <= kx -> kx <= 970 -> below (kx + 1) (x / 1.5).
Proof.
  intros Hx Hlo Hhi. unfold below. rewrite div_spec.
  change (Prim2SF 1.5) with (S754_finite false 6755399441055744 (-52)).
  replace (kx + 1) with (kx - 1 + 2) by lia.
  apply SFdiv_below; try lia; try assumption; reflexivity.
Qed.

Lemma belowSF_opp k x : belowSF k x -> belowSF k (SFopp x).
Proof. destruct x; exact (fun H => H). Qed.

Lemma ofZ_below z k :
  Z.abs z < 2 ^ k -> 0 <= k -> k <= 62 -> below (k + 1) (ofZ z).
Proof.
  intros Hz Hlo Hhi. unfold below, ofZ.
  assert (Hw : forall n, 0 <= n < 2 ^ k -> Uint63Axioms.to_Z (Uint63Axioms.of_Z n) = n).
  { intros n Hn. rewrite Uint63.of_Z_spec. apply Z.mod_small.
    assert (2 ^ k <= 2 ^ 62) by (apply pow2_le; lia).
    change Uint63Axioms.wB with (2 ^ 63). change (2 ^ 63) with (2 * 2 ^ 62). lia. }
  destruct (z <? 0) eqn:E.
  - apply Z.ltb_lt in E. rewrite opp_spec. apply belowSF_opp.
    rewrite of_uint63_spec, Hw by lia.
    apply binary_normalize_below; try lia. rewrite Z.sub_0_r. lia.
  - apply Z.ltb_ge in E. rewrite of_uint63_spec, Hw by lia.
    apply binary_normalize_below; try lia. rewrite Z.sub_0_r. lia.
Qed.

(** [Math.floor] of a number below 2^k is below 2^(k+2). *)
Lemma below_floor k x :
  below k x -> 0 <= k -> k <= 60 -> below (k + 2) (Math_floor x).
Proof.
  intros Hx Hlo Hhi. unfold Math_floor, floorZ.
  assert (Hsame : below (k + 2) x) by (revert Hx; apply below_mono; lia).
  unfold below in Hx.
  destruct (Prim2SF x) as [s|s| |s m e] eqn:E; try exact Hsame.
  destruct (e <? 0) eqn:Ee; [|exact Hsame].
  apply Z.ltb_lt in Ee. cbn [belowSF] in Hx.
  destruct (0 <=? e) eqn:E0; [apply Z.leb_le in E0; lia|].
  replace (k + 2) with (k + 1 + 1) by lia.
  apply ofZ_below; try lia.
  replace (k - e) with (k + - e) in Hx by lia.
  rewrite pow2_split in Hx by lia.
  assert (Hp : 0 < 2 ^ (- e)) by (apply pow2_pos; lia).
  assert (Hk : 0 < 2 ^ k) by (apply pow2_pos; lia).
  replace (k + 1) with (1 + k) by lia. rewrite pow2_split by lia. change (2 ^ 1) with 2.
  destruct s.
  - assert (- 2 ^ k <= Z.neg m / 2 ^ (- e)).
    { apply Z.div_le_lower_bound; [exact Hp|]. nia. }
    assert (Z.neg m / 2 ^ (- e) <= 0).
    { apply Z.div_le_upper_bound; [exact Hp|]. lia. }
    lia.
  - assert (0 <= Z.pos m / 2 ^ (- e)) by (apply Z.div_pos; lia).
    assert (Z.pos m / 2 ^ (- e) < 2 ^ k).
    { apply Z.div_lt_upper_bound; [exact Hp|]. nia. }
    lia.
Qed.

Lemma below_Math_max_3 k y : below k y -> 2 <= k -> below k (Math_max 3 y).
Proof.
  intros Hy Hk. unfold Math_max.
  assert (H3 : below k 3).
  { unfold below. change (Prim2SF 3) with (S754_finite false 6755399441055744 (-51)).
    cbn [belowSF]. assert (2 ^ 53 <= 2 ^ (k - -51)) by (apply pow2_le; lia).
    change (2 ^ 53) with 9007199254740992 in H. lia. }
  destruct (_ || _)%bool; [exact I|].
  destruct (3 <? y)%float; [exact Hy|].
  destruct (y <? 3)%float; [exact H3|].
  destruct (_ && _)%bool; [exact Hy | exact H3].
Qed.

(** The loop [for (let i = 0; i <= steps; i++)] ends for a number of steps
    below 2^53, and for NaN. *)
Lemma rounds_of_below (x : float) : below 53 x -> exists n, rounds x = Some n.
Proof.
  unfold below, rounds, floorZ.
  destruct (Prim2SF x) as [s|s| |s m e]; cbn [belowSF]; try (intros; eauto; fail).
  - intros []. 
  - intros H. destruct s; [eauto|].
    pose proof (below_pow_pos (Z.pos m) _ ltac:(lia) H) as Ha.
    assert (Hz : (if 0 <=? e then Z.pos m * 2 ^ e else Z.pos m / 2 ^ (- e)) < 2 ^ 53).
    { destruct (0 <=? e) eqn:E0.
      - apply Z.leb_le in E0.
        assert (Hs : 2 ^ 53 = 2 ^ (53 - e) * 2 ^ e)
          by (rewrite <- pow2_split by lia; f_equal; lia).
        rewrite Hs.
        assert (0 < 2 ^ e) by (apply pow2_pos; lia). nia.
      - apply Z.leb_gt in E0.
        replace (53 - e) with (53 + - e) in H by lia. rewrite pow2_split in H by lia.
        apply Z.div_lt_upper_bound; [apply pow2_pos; lia | lia]. }
    apply Z.ltb_lt in Hz. rewrite Hz. eauto.
Qed.

Lemma inUnit_below (x : float) : inUnit x = true -> below 0 x.
Proof.
  unfold inUnit, below. rewrite leb_spec, ltb_spec.
  change (Prim2SF 0) with (S754_zero false).
  change (Prim2SF 1) with (S754_finite false 4503599627370496 (-52)).
  intros H. apply andb_prop in H as [H0 H1].
  destruct (Prim2SF x) as [s|s| |s m e] eqn:E; cbn [belowSF SFleb SFltb SFcompare] in *;
    try exact I; try discriminate; try (destruct s; discriminate).
  destruct s; [discriminate|].
  destruct (valid_mantissa x false m e E) as [Hm _].
  destruct (e ?= -52) eqn:Ee; try discriminate.
  - apply Z.compare_eq in Ee. subst e.
    remember (4503599627370496%positive) as c eqn:Hc.
    destruct (Pos.compare_cont Eq m c) eqn:Em; try discriminate.
    assert (Hlt : (m < c)%positive) by exact Em.
    assert (Z.pos c = 2 ^ 52) by (rewrite Hc; reflexivity).
    change (0 - -52) with 52. lia.
  - assert (He : e < -52) by exact Ee.
    assert (2 ^ 53 <= 2 ^ (0 - e)) by (apply pow2_le; lia). lia.
Qed.

(** The stairs between two places within 2^40 of the origin are built. *)
Lemma addStairs_ends sx sz ex ez sh eh width wd :
  below 40 sx -> below 40 sz -> below 40 ex -> below 40 ez ->
  exists wd', addStairs sx sz ex ez sh eh width wd = Some wd'.
Proof.
  intros Hsx Hsz Hex Hez. unfold addStairs. cbv zeta.
  assert (Hdx : below 42 (ex - sx)) by (apply (below_sub 40 40); assumption || lia).
  assert (Hdz : below 42 (ez - sz)) by (apply (below_sub 40 40); assumption || lia).
  assert (Hxx : below 85 ((ex - sx) * (ex - sx)))
    by (apply (below_mul 42 42); assumption || lia).
  assert (Hzz : below 85 ((ez - sz) * (ez - sz)))
    by (apply (below_mul 42 42); assumption || lia).
  assert (Hsum : below 87 ((ex - sx) * (ex - sx) + (ez - sz) * (ez - sz)))
    by (apply (below_add 85 85); assumption || lia).
  assert (Hsqrt : below 45 (PrimFloat.sqrt ((ex - sx) * (ex - sx) + (ez - sz) * (ez - sz)))).
  { apply (below_sqrt 87); [assumption | |]; change ((87 + 1) / 2) with 44; lia. }
  assert (Hdiv : below 46
            (PrimFloat.sqrt ((ex - sx) * (ex - sx) + (ez - sz) * (ez - sz)) / 1.5))
    by (apply (below_div_3half 45); assumption || lia).
  assert (Hfl : below 48
            (Math_floor
               (PrimFloat.sqrt ((ex - sx) * (ex - sx) + (ez - sz) * (ez - sz)) / 1.5)))
    by (apply (below_floor 46); assumption || lia).
  assert (Hmax : below 53
            (Math_max 3 (Math_floor
               (PrimFloat.sqrt ((ex - sx) * (ex - sx) + (ez - sz) * (ez - sz)) / 1.5)))).
  { apply (below_mono 48); [lia|]. apply below_Math_max_3; [assumption | lia]. }
  destruct (rounds_of_below _ Hmax) as [n ->]. eauto.
Qed.

End Magnitude.

Lemma below_half : below 0 0.5.
Proof. unfold below. vm_compute. reflexivity. Qed.

Lemma below_80 : below 7 80.
Proof. unfold below. vm_compute. reflexivity. Qed.

(** A coordinate of a building, [(Math.random() - 0.5) * 80], is within
    1024 of the origin. *)
Lemma coordinate_below (r : float) : inUnit r = true -> below 10 ((r - 0.5) * 80).
Proof.
  intros H. apply (below_mul 2 7); [|exact below_80|lia|lia].
  apply (below_sub 0 0); [by apply inUnit_below | exact below_half | lia | lia].
Qed.

Section CityProperties.

Variable env : Env.

Lemma generateBuildings_spec n : forall wd,
  exists bs,
    length bs = n /\
    w_buildings (generateBuildings env n wd) = w_buildings wd ++ bs /\
    Forall standsOnGround bs /\
    builtOn wd (generateBuildings env n wd) (map bd_mesh bs).
Proof.
  induction n as [|n IH]; intros wd.
  - exists []. split; [reflexivity|]. split; [by rewrite app_nil_r|].
    split; [constructor | apply builtOn_refl].
  - cbn [generateBuildings]. cbv zeta.
    match goal with |- context [generateBuildings env n ?wd1] =>
      destruct (IH wd1) as (bs & Hn & Hb & Hs & Hm);
      set (wd2 := generateBuildings env n wd1) in *
    end.
    match type of Hb with _ = w_buildings (addBuilding env ?x ?z ?w ?d ?h ?wd0) ++ _ =>
      set (b := mkBuilding
                  (mkMesh (w_nextId wd) (BoxGeometry w h d) (mkVec3 x (h / 2) z) Unrotated)
                  x z w d h) in *;
      assert (Hadd : builtOn wd (addBuilding env x z w d h wd0) [bd_mesh b])
        by (split; [reflexivity|]; split; [reflexivity | simpl; lia]);
      change (w_buildings (addBuilding env x z w d h wd0))
        with (w_buildings wd ++ [b]) in Hb
    end.
    exists (b :: bs). split; [simpl; lia|].
    split; [by rewrite Hb, <- app_assoc|].
    split; [constructor; [repeat split | exact Hs]|].
    exact (builtOn_trans _ _ _ _ _ Hadd Hm).
Qed.

Lemma stairSteps_spec n : forall i sx sz sh dx dz dh steps len width wd,
  exists added,
    length added = n /\
    Forall (isStep width) added /\
    w_buildings (stairSteps n i sx sz sh dx dz dh steps len width wd) = w_buildings wd /\
    builtOn wd (stairSteps n i sx sz sh dx dz dh steps len width wd) added.
Proof.
  induction n as [|n IH]; intros i sx sz sh dx dz dh steps len width wd.
  - exists []. split; [reflexivity|]. split; [constructor|].
    split; [reflexivity | apply builtOn_refl].
  - cbn [stairSteps]. cbv zeta.
    match goal with |- context [stairSteps n ?i1 _ _ _ _ _ _ _ _ _ ?wd1] =>
      destruct (IH i1 sx sz sh dx dz dh steps len width wd1) as (added & Hn & Hs & Hb & Hm);
      set (wd2 := stairSteps n i1 sx sz sh dx dz dh steps len width wd1) in *;
      assert (Hadd : exists m, builtOn wd wd1 [m] /\ isStep width m)
    end.
    { eexists. split.
      - split; [reflexivity|]. split; [reflexivity | simpl; lia].
      - split; [eexists|]; reflexivity. }
    destruct Hadd as (m & Hadd & Hstep).
    exists (m :: added). split; [simpl; lia|].
    split; [by constructor|]. split; [exact Hb|].
    exact (builtOn_trans _ _ _ _ _ Hadd Hm).
Qed.

Lemma addStairs_spec sx sz ex ez sh eh width wd wd' :
  addStairs sx sz ex ez sh eh width wd = Some wd' ->
  exists added,
    (added = [] \/ 4 <= length added) /\
    Forall (isStep width) added /\
    w_buildings wd' = w_buildings wd /\
    builtOn wd wd' added.
Proof.
  unfold addStairs. cbv zeta.
  destruct (rounds _) as [n|] eqn:Hn; [|discriminate].
  intros [= <-]. apply rounds_Math_max_3 in Hn.
  match goal with |- context [stairSteps n ?i ?a ?b ?c ?d ?e ?f ?g ?h ?w ?x] =>
    destruct (stairSteps_spec n i a b c d e f g h w x) as (added & Hl & Hs & Hb & Hm)
  end.
  exists added. split; [|by split].
  destruct Hn as [->|Hn]; [left | right; lia].
  by destruct added.
Qed.

Lemma generateStairs_spec bs :
  (forall wd wd', generateStairs bs wd = Some wd' ->
     exists stairs, Forall (isStep 2) stairs /\ w_buildings wd' = w_buildings wd /\
                    builtOn wd wd' stairs) /\
  (forall b wd wd', generateStairs (b :: bs) wd = Some wd' ->
     exists stairs, Forall (isStep 2) stairs /\ w_buildings wd' = w_buildings wd /\
                    builtOn wd wd' stairs).
Proof.
  induction bs as [|b2 rest [IH1 IH2]].
  - split; intros; simplify_eq/=; exists []; (split; [constructor|]);
      (split; [reflexivity | apply builtOn_refl]).
  - split; [exact (IH2 b2)|]. intros b1 wd wd'. cbn [generateStairs].
    destruct (addStairs _ _ _ _ _ _ _ _) as [wd1|] eqn:Ha; [|discriminate].
    intros Hg. apply addStairs_spec in Ha as (added & _ & Hs & Hb & Hm).
    destruct (IH1 _ _ Hg) as (stairs & Hs' & Hb' & Hm').
    exists (added ++ stairs). split; [by apply Forall_app|].
    split; [congruence|]. exact (builtOn_trans _ _ _ _ _ Hm Hm').
Qed.

Lemma addSimpleBridge_spec b1 b2 wd :
  exists bridge, isBridge bridge /\
    w_buildings (addSimpleBridge b1 b2 wd) = w_buildings wd /\
    builtOn wd (addSimpleBridge b1 b2 wd) [bridge].
Proof.
  unfold addSimpleBridge. cbv zeta.
  match goal with |- context [mkWorld _ (_ ++ [?m]) _ _] => exists m end.
  split; [split; eexists; reflexivity|]. split; [reflexivity|].
  split; [reflexivity|]. split; [reflexivity | simpl; lia].
Qed.

Lemma generateBridges_spec bs :
  let P := fun bs =>
    forall wd, exists bridges,
      length bridges = (length bs + 1) / 3 /\ Forall isBridge bridges /\
      w_buildings (generateBridges bs wd) = w_buildings wd /\
      builtOn wd (generateBridges bs wd) bridges in
  P bs /\ (forall a, P (a :: bs)) /\ (forall a b, P (a :: b :: bs)).
Proof.
  cbv zeta. induction bs as [|c rest (IH1 & IH2 & IH3)].
  - split; [|split]; intros; try (exists []; split; [reflexivity|];
      split; [constructor|]; split; [reflexivity | apply builtOn_refl]).
    cbn [generateBridges].
    destruct (addSimpleBridge_spec a b wd) as (bridge & Hb & Hbs & Hm).
    exists [bridge]. split; [reflexivity|].
    split; [constructor; [exact Hb | constructor]|].
    by split.
  - split; [exact (IH2 c)|]. split; [exact (fun a => IH3 a c)|].
    intros a b wd. cbn [generateBridges].
    destruct (addSimpleBridge_spec a b wd) as (bridge & Hb & Hbs & Hm).
    destruct (IH1 (addSimpleBridge a b wd)) as (bridges & Hl & Hf & Hbs' & Hm').
    exists (bridge :: bridges). split; [|split; [by constructor|]].
    + cbn [length]. rewrite Hl.
      replace (S (S (S (length rest))) + 1) with (length rest + 1 + 1 * 3) by lia.
      rewrite Nat.div_add by lia. lia.
    + split; [congruence|].
      exact (builtOn_trans _ _ _ [bridge] bridges Hm Hm').
Qed.

Lemma generateCity_spec rng0 w :
  generateCity env rng0 = Some w ->
  exists stairs bridges,
    length (w_buildings w) = 15 /\
    Forall standsOnGround (w_buildings w) /\
    Forall (isStep 2) stairs /\
    Forall isBridge bridges /\ length bridges = 5 /\
    builtOn (mkWorld [] [] 3 rng0) w (map bd_mesh (w_buildings w) ++ stairs ++ bridges).
Proof.
  unfold generateCity. cbv zeta.
  destruct (generateBuildings_spec 15 (mkWorld [] [] 3 rng0))
    as (bs & Hl & Hb & Hg & Hm).
  cbn [w_buildings app] in Hb.
  set (wd1 := generateBuildings env 15 _) in *.
  destruct (generateStairs (w_buildings wd1) wd1) as [wd2|] eqn:Hs; [|discriminate].
  intros [= <-].
  destruct (proj1 (generateStairs_spec _) _ _ Hs) as (stairs & Hst & Hbs & Hm2).
  destruct (proj1 (generateBridges_spec (w_buildings wd2)) wd2)
    as (bridges & Hlb & Hbr & Hbs' & Hm3).
  pose proof (builtOn_trans _ _ _ _ _ Hm (builtOn_trans _ _ _ _ _ Hm2 Hm3)) as HM.
  set (wd3 := generateBridges (w_buildings wd2) wd2) in *.
  assert (Hbs3 : w_buildings wd3 = bs) by congruence.
  rewrite Hbs, Hb, Hl in Hlb.
  exists stairs, bridges. rewrite Hbs3.
  split; [exact Hl|]. split; [exact Hg|]. split; [exact Hst|].
  split; [exact Hbr|]. split; [exact Hlb | exact HM].
Qed.

End CityProperties.

Section CityIsBuilt.

Variable env : Env.
Hypothesis random_in_unit : unitRandom env.

Lemma generateBuildings_placed n : forall wd,
  Forall placed (w_buildings wd) ->
  Forall placed (w_buildings (generateBuildings env n wd)).
Proof.
  induction n as [|n IH]; intros wd H; [exact H|].
  cbn [generateBuildings]. cbv zeta. apply IH.
  unfold addBuilding. cbv zeta. cbn [w_buildings].
  apply Forall_app. split; [exact H|].
  constructor; [|constructor].
  split; cbn [bd_x bd_z]; apply coordinate_below, random_in_unit.
Qed.

Lemma placed_below b : placed b -> below 40 (bd_x b) /\ below 40 (bd_z b).
Proof. intros [Hx Hz]. split; (eapply below_mono; [|eassumption]); lia. Qed.

Lemma generateStairs_ends bs :
  (Forall placed bs -> forall wd, exists wd', generateStairs bs wd = Some wd') /\
  (forall b, Forall placed (b :: bs) ->
     forall wd, exists wd', generateStairs (b :: bs) wd = Some wd').
Proof.
  induction bs as [|b2 rest [IH1 IH2]].
  - split; intros; eexists; reflexivity.
  - split; [exact (IH2 b2)|]. intros b1 H wd. cbn [generateStairs].
    apply Forall_cons in H as [H1 H]. apply Forall_cons in H as [H2 H].
    destruct (placed_below b1 H1) as [Hx1 Hz1].
    destruct (placed_below b2 H2) as [Hx2 Hz2].
    destruct (addStairs_ends (bd_x b1) (bd_z b1) (bd_x b2) (bd_z b2) (bd_h b1) (bd_h b2)
                2 wd Hx1 Hz1 Hx2 Hz2) as [wd1 ->].
    by apply IH1.
Qed.

(** With [Math.random()] as specified the script builds its city. *)
Lemma generateCity_total rng0 : exists w, generateCity env rng0 = Some w.
Proof.
  unfold generateCity. cbv zeta.
  set (wd := generateBuildings env 15 _).
  assert (H : Forall placed (w_buildings wd))
    by (apply generateBuildings_placed; constructor).
  destruct (proj1 (generateStairs_ends (w_buildings wd)) H wd) as [wd' ->].
  eauto.
Qed.

End CityIsBuilt.

Section CityTheorems.

Variable env : Env.

(** X14. What the city is made of.  With [Math.random()] as it is
    specified, from 0 up to but not including 1, the script builds its city:
    every loop of [addStairs] ends, as all buildings lie within 1024 of the
    origin.  The city has fifteen buildings, each a box of its own width,
    height and depth that stands on the ground (centred at half its height
    over its place).  The meshes that stop paintballs are, in creation
    order, the fifteen buildings, then the steps of the stairs (slabs 0.3
    high and 2 deep), then five bridges (planks 1 wide and 0.2 high, each
    turned towards one of its ends). *)
Theorem city_structure rng0 :
  (unitRandom env -> exists w, generateCity env rng0 = Some w) /\
  (forall w,
     generateCity env rng0 = Some w ->
     length (w_buildings w) = 15 /\
     Forall standsOnGround (w_buildings w) /\
     exists stairs bridges,
       w_meshes w = map bd_mesh (w_buildings w) ++ stairs ++ bridges /\
       Forall (isStep 2) stairs /\
       Forall isBridge bridges /\ length bridges = 5).
Proof.
  split; [intros H; by apply generateCity_total|].
  intros w H. destruct (generateCity_spec env rng0 w H)
    as (stairs & bridges & Hl & Hg & Hs & Hb & Hlb & Hm & _).
  split; [exact Hl|]. split; [exact Hg|]. exists stairs, bridges.
  split; [exact Hm|]. by repeat split.
Qed.


End CityTheorems.

(** ** The scene and the lists of the game *)

Lemma filter_ne_notin (o : objId) (l : list objId) :
  o ∉ l -> filter (fun x => x <> o) l = l.
Proof.
  induction l as [|x l IH]; intros H; [reflexivity|].
  rewrite not_elem_of_cons in H. destruct H as [Hx Hl].
  rewrite filter_cons_True by congruence. by rewrite IH.
Qed.

Lemma elem_of_filter_ne (o x : objId) (l : list objId) :
  x ∈ filter (fun y => y <> o) l <-> x ∈ l /\ x <> o.
Proof. rewrite list_elem_of_filter. tauto. Qed.

Section Tidy.

Variable fixed : list objId.

(** A state with the same scene, counter, live meshes and disposals. *)
Lemma tidy_same s s' :
  scene s' = scene s -> nextId s' = nextId s -> live s' ≡ₚ live s ->
  disposed s' = disposed s ->
  tidy fixed s -> tidy fixed s'.
Proof.
  unfold tidy. intros -> -> -> ->. auto.
Qed.

(** A fresh mesh is added to the scene and to one of the lists. *)
Lemma tidy_add s s' :
  scene s' = filter (fun x => x <> nextId s) (scene s) ++ [nextId s] ->
  nextId s' = S (nextId s) ->
  live s' ≡ₚ nextId s :: live s ->
  disposed s' = disposed s ->
  tidy fixed s -> tidy fixed s'.
Proof.
  unfold tidy. intros -> -> -> -> (Hp & Hn & Hb & Hd).
  assert (Hfresh : nextId s ∉ scene s).
  { intros Hin. rewrite Forall_forall in Hb. specialize (Hb _ Hin). lia. }
  rewrite filter_ne_notin by exact Hfresh.
  split; [rewrite Hp; solve_Permutation|].
  split.
  { apply NoDup_app. split; [exact Hn|]. split; [|apply NoDup_singleton].
    intros x Hx. rewrite list_elem_of_singleton. intros ->. contradiction. }
  split.
  { apply Forall_app. split.
    - eapply Forall_impl; [exact Hb|]. intros; simpl in *; lia.
    - repeat constructor. }
  eapply Forall_impl; [exact Hd|]. intros o [Ho Hs]. split; [lia|].
  rewrite elem_of_app, list_elem_of_singleton. intros [?|?]; [contradiction | lia].
Qed.

(** A live mesh is removed from the scene and from its list, and disposed
    or not. *)
Lemma tidy_remove o s s' :
  scene s' = filter (fun x => x <> o) (scene s) ->
  nextId s' = nextId s ->
  live s ≡ₚ o :: live s' ->
  disposed s' = disposed s \/ disposed s' = disposed s ++ [o] ->
  tidy fixed s -> tidy fixed s'.
Proof.
  unfold tidy. intros -> -> Hl Hdisp (Hp & Hn & Hb & Hd).
  assert (Hp' : scene s ≡ₚ o :: fixed ++ live s').
  { rewrite Hp, Hl. solve_Permutation. }
  assert (Hn' : NoDup (o :: fixed ++ live s')) by (by rewrite <- Hp').
  apply NoDup_cons in Hn' as [Ho Hn'].
  split.
  { rewrite Hp'. rewrite filter_cons_False by (intros H; by apply H).
    by rewrite filter_ne_notin. }
  split; [by apply NoDup_filter|].
  split.
  { apply Forall_forall. intros x Hx. apply elem_of_filter_ne in Hx as [Hx _].
    rewrite Forall_forall in Hb. by apply Hb. }
  assert (Hd' : Forall (fun o0 => o0 < nextId s /\
                          o0 ∉ filter (fun x => x <> o) (scene s)) (disposed s)).
  { eapply Forall_impl; [exact Hd|]. intros x [Hx Hs]. split; [exact Hx|].
    rewrite elem_of_filter_ne. tauto. }
  destruct Hdisp as [->| ->]; [exact Hd'|].
  apply Forall_app. split; [exact Hd'|]. repeat constructor.
  - rewrite Forall_forall in Hb. apply Hb. rewrite Hp'. left.
  - rewrite elem_of_filter_ne. tauto.
Qed.

End Tidy.

(** A fixture is taken out of the scene. *)
Lemma tidy_unfix fixed rest o s s' :
  fixed ≡ₚ o :: rest ->
  scene s' = filter (fun x => x <> o) (scene s) ->
  nextId s' = nextId s -> live s' = live s -> disposed s' = disposed s ->
  tidy fixed s -> tidy rest s'.
Proof.
  unfold tidy. intros Hf -> -> -> -> (Hp & Hn & Hb & Hd).
  assert (Hp' : scene s ≡ₚ o :: rest ++ live s) by (by rewrite Hp, Hf).
  assert (Hn' : NoDup (o :: rest ++ live s)) by (by rewrite <- Hp').
  apply NoDup_cons in Hn' as [Ho Hn'].
  split.
  { rewrite Hp'. rewrite filter_cons_False by (intros H; by apply H).
    by rewrite filter_ne_notin. }
  split; [by apply NoDup_filter|].
  split.
  { apply Forall_forall. intros x Hx. apply elem_of_filter_ne in Hx as [Hx _].
    rewrite Forall_forall in Hb. by apply Hb. }
  eapply Forall_impl; [exact Hd|]. intros x [Hx Hs]. split; [exact Hx|].
  rewrite elem_of_filter_ne. tauto.
Qed.

(** A new object is added to the scene as a fixture. *)
Lemma tidy_fix fixed s s' :
  scene s' = filter (fun x => x <> nextId s) (scene s) ++ [nextId s] ->
  nextId s' = S (nextId s) -> live s' = live s -> disposed s' = disposed s ->
  tidy fixed s -> tidy (fixed ++ [nextId s]) s'.
Proof.
  unfold tidy. intros -> -> -> -> (Hp & Hn & Hb & Hd).
  assert (Hfresh : nextId s ∉ scene s).
  { intros Hin. rewrite Forall_forall in Hb. specialize (Hb _ Hin). lia. }
  rewrite filter_ne_notin by exact Hfresh.
  split; [rewrite Hp; solve_Permutation|].
  split.
  { apply NoDup_app. split; [exact Hn|]. split; [|apply NoDup_singleton].
    intros x Hx. rewrite list_elem_of_singleton. intros ->. contradiction. }
  split.
  { apply Forall_app. split.
    - eapply Forall_impl; [exact Hb|]. intros; simpl in *; lia.
    - repeat constructor. }
  eapply Forall_impl; [exact Hd|]. intros o [Ho Hs]. split; [lia|].
  rewrite elem_of_app, list_elem_of_singleton. intros [?|?]; [contradiction | lia].
Qed.

Section TidyOps.

Variable env : Env.
Variable fixed : list objId.

Lemma live_targets_snoc s s' t :
  targets s' = targets s ++ [t] -> paintballs s' = paintballs s ->
  splatters s' = splatters s ->
  live s' ≡ₚ t_mesh t :: live s.
Proof.
  unfold live. intros -> -> ->. rewrite map_app. simpl. solve_Permutation.
Qed.

Lemma live_paintballs_snoc s s' b :
  targets s' = targets s -> paintballs s' = paintballs s ++ [b] ->
  splatters s' = splatters s ->
  live s' ≡ₚ b_mesh b :: live s.
Proof.
  unfold live. intros -> -> ->. rewrite map_app. simpl. solve_Permutation.
Qed.

Lemma live_splatters_snoc s s' d :
  targets s' = targets s -> paintballs s' = paintballs s ->
  splatters s' = splatters s ++ [d] ->
  live s' ≡ₚ d_mesh d :: live s.
Proof.
  unfold live. intros -> -> ->. rewrite map_app. simpl. solve_Permutation.
Qed.

Lemma map_delete_Permutation {A} (f : A -> objId) (l : list A) j x :
  l !! j = Some x -> map f l ≡ₚ f x :: map f (delete j l).
Proof.
  intros H. rewrite <- (take_drop_middle l j x H) at 1.
  rewrite delete_take_drop, !map_app. simpl. solve_Permutation.
Qed.

Lemma live_targets_delete s s' j t :
  targets s !! j = Some t ->
  targets s' = delete j (targets s) -> paintballs s' = paintballs s ->
  splatters s' = splatters s ->
  live s ≡ₚ t_mesh t :: live s'.
Proof.
  unfold live. intros H -> -> ->.
  rewrite (map_delete_Permutation t_mesh _ _ _ H). solve_Permutation.
Qed.

Lemma live_paintballs_delete s s' i b :
  paintballs s !! i = Some b ->
  targets s' = targets s -> paintballs s' = delete i (paintballs s) ->
  splatters s' = splatters s ->
  live s ≡ₚ b_mesh b :: live s'.
Proof.
  unfold live. intros H -> -> ->.
  rewrite (map_delete_Permutation b_mesh _ _ _ H). solve_Permutation.
Qed.

Lemma createParticle_tidy pos c s :
  tidy fixed s -> tidy fixed (createParticle env pos c s).
Proof.
  apply tidy_add; try reflexivity.
  eapply (live_paintballs_snoc s _ (mkPaintball (nextId s) _ _ _ _)); reflexivity.
Qed.

Lemma createParticles_tidy n pos c : forall s,
  tidy fixed s -> tidy fixed (createParticles env n pos c s).
Proof.
  induction n as [|n IH]; intros s H; [exact H|].
  cbn [createParticles]. by apply IH, createParticle_tidy.
Qed.

Lemma pushTarget_tidy s : tidy fixed s -> tidy fixed (pushTarget env s).
Proof.
  apply tidy_add; try reflexivity.
  eapply (live_targets_snoc s _ (fst (createTarget env s))); reflexivity.
Qed.

Lemma pushDecal_tidy hit c s : tidy fixed s -> tidy fixed (pushDecal env hit c s).
Proof.
  apply tidy_add; try reflexivity.
  eapply (live_splatters_snoc s _ (newDecal env hit c s)); reflexivity.
Qed.

Lemma trimSplatters_tidy s : tidy fixed s -> tidy fixed (trimSplatters s).
Proof.
  intros H. unfold trimSplatters. destruct (_ <? _); [|exact H].
  destruct (splatters s) as [|old rest] eqn:E; [exact H|].
  revert H. apply (tidy_remove fixed (d_mesh old)); try reflexivity.
  - unfold live. rewrite E.
    change (splatters (dispose _ (scene_remove _ (set_splatters rest s)))) with rest.
    change (targets (dispose _ (scene_remove _ (set_splatters rest s)))) with (targets s).
    change (paintballs (dispose _ (scene_remove _ (set_splatters rest s))))
      with (paintballs s).
    simpl. solve_Permutation.
  - right. reflexivity.
Qed.

Lemma addDecal_tidy hit c s : tidy fixed s -> tidy fixed (addDecal env hit c s).
Proof. intros H. unfold addDecal. by apply trimSplatters_tidy, pushDecal_tidy. Qed.

Lemma removeTarget_tidy j t s :
  targets s !! j = Some t -> tidy fixed s -> tidy fixed (removeTarget j t s).
Proof.
  intros Hj. apply (tidy_remove fixed (t_mesh t)); try reflexivity.
  - by apply (live_targets_delete s _ j t).
  - left. reflexivity.
Qed.

Lemma removePaintball_tidy i b b0 s :
  paintballs s !! i = Some b0 -> b_mesh b0 = b_mesh b ->
  tidy fixed s -> tidy fixed (removePaintball i b s).
Proof.
  intros Hi Hm. apply (tidy_remove fixed (b_mesh b)); try reflexivity.
  - rewrite <- Hm. by apply (live_paintballs_delete s _ i b0).
  - right. reflexivity.
Qed.

(** The removal of a paintball that fell through the ground: its mesh is
    not disposed. *)
Lemma dropPaintball_tidy i b b0 s :
  paintballs s !! i = Some b0 -> b_mesh b0 = b_mesh b ->
  tidy fixed s ->
  tidy fixed (set_paintballs (delete i (paintballs (scene_remove (b_mesh b) s)))
                (scene_remove (b_mesh b) s)).
Proof.
  intros Hi Hm. apply (tidy_remove fixed (b_mesh b)); try reflexivity.
  - rewrite <- Hm. by apply (live_paintballs_delete s _ i b0).
  - left. reflexivity.
Qed.

(** A paintball is replaced by one with the same mesh. *)
Lemma movePaintball_tidy i b b0 s :
  paintballs s !! i = Some b0 -> b_mesh b = b_mesh b0 ->
  tidy fixed s -> tidy fixed (set_paintballs (<[i:=b]> (paintballs s)) s).
Proof.
  intros Hi Hm. apply tidy_same; try reflexivity.
  unfold live. rewrite paintballs_set_paintballs.
  change (targets (set_paintballs _ s)) with (targets s).
  change (splatters (set_paintballs _ s)) with (splatters s).
  assert (Hmap : map b_mesh (<[i:=b]> (paintballs s)) = map b_mesh (paintballs s)).
  { change (b_mesh <$> <[i:=b]> (paintballs s) = b_mesh <$> paintballs s).
    rewrite list_fmap_insert, Hm. apply list_insert_id.
    by rewrite list_lookup_fmap, Hi. }
  by rewrite Hmap.
Qed.

End TidyOps.

Section TidyLoops.

Variable env : Env.
Variable fixed : list objId.

Lemma tidy_stock s s' : stock s' = stock s -> tidy fixed s -> tidy fixed s'.
Proof.
  unfold stock. intros [= Hsc Hn Ht Hb Hs Hd].
  apply tidy_same; try assumption. unfold live. by rewrite Ht, Hb, Hs.
Qed.

Lemma updateScoreDisplay_stock s : stock (updateScoreDisplay s) = stock s.
Proof. unfold updateScoreDisplay. destruct (scoreEl _); reflexivity. Qed.

(** A hit, in its pieces. *)
Lemma hitTarget_pieces b i j t s :
  hitTarget env b i j t s =
  updateScoreDisplay
    (removePaintball i b
       (pushTarget env
          (removeTarget j t
             (createExplosion env (t_position t) (b_color b)
                (set_score (score s + t_score t) s))))).
Proof. reflexivity. Qed.

Lemma createParticles_targets n pos c : forall s,
  targets (createParticles env n pos c s) = targets s.
Proof.
  induction n as [|n IH]; intros s; [reflexivity|].
  cbn [createParticles]. by rewrite IH.
Qed.

Lemma createParticles_disposed n pos c : forall s,
  disposed (createParticles env n pos c s) = disposed s.
Proof.
  induction n as [|n IH]; intros s; [reflexivity|].
  cbn [createParticles]. by rewrite IH.
Qed.

Lemma hitTarget_rest_tidy b i j t b0 s :
  targets s !! j = Some t ->
  paintballs s !! i = Some b0 -> b_mesh b0 = b_mesh b ->
  tidy fixed s ->
  tidy fixed (removePaintball i b (pushTarget env (removeTarget j t s))).
Proof.
  intros Hj Hi Hm H.
  apply (removePaintball_tidy fixed i b b0); [exact Hi | exact Hm |].
  apply pushTarget_tidy, removeTarget_tidy; assumption.
Qed.

Lemma hitTarget_tidy b i j t b0 s :
  targets s !! j = Some t ->
  paintballs s !! i = Some b0 -> b_mesh b0 = b_mesh b ->
  tidy fixed s -> tidy fixed (hitTarget env b i j t s).
Proof.
  intros Hj Hi Hm H. rewrite hitTarget_pieces.
  apply (tidy_stock _ _ (updateScoreDisplay_stock _)).
  unfold createExplosion.
  apply (hitTarget_rest_tidy b i j t b0).
  - rewrite createParticles_targets. exact Hj.
  - destruct (createParticles_paintballs env 20 (t_position t) (b_color b)
                (set_score (score s + t_score t) s)) as (ps & -> & _).
    apply lookup_app_l_Some. exact Hi.
  - exact Hm.
  - apply createParticles_tidy. revert H. apply tidy_stock. reflexivity.
Qed.

Lemma hitTarget_disposed b i j t s :
  disposed (hitTarget env b i j t s) = disposed s ++ [b_mesh b].
Proof.
  rewrite hitTarget_pieces.
  assert (H1 : forall x, disposed (updateScoreDisplay x) = disposed x).
  { intros x. unfold updateScoreDisplay. destruct (scoreEl _); reflexivity. }
  rewrite H1.
  assert (H2 : forall x, disposed (removePaintball i b (pushTarget env (removeTarget j t x)))
                         = disposed x ++ [b_mesh b]) by reflexivity.
  rewrite H2. unfold createExplosion. rewrite createParticles_disposed. reflexivity.
Qed.

(** After a hit the paintball is no longer in the list. *)
Lemma hitTarget_unlisted b i j t s :
  tidy fixed (hitTarget env b i j t s) -> listed b (hitTarget env b i j t s) = false.
Proof.
  intros (Hp & _ & _ & Hd).
  pose proof (hitTarget_disposed b i j t s) as Hdis.
  generalize dependent (hitTarget env b i j t s). intros s' Hp Hd Hdis.
  destruct (listed b s') eqn:E; [exfalso | reflexivity].
  unfold listed in E. apply existsb_exists in E as (p & Hin & Heq).
  apply Nat.eqb_eq in Heq. apply list_elem_of_In in Hin.
  rewrite Forall_forall in Hd.
  destruct (Hd (b_mesh b)) as [_ Hout].
  { rewrite Hdis. apply elem_of_app. right. by apply list_elem_of_singleton. }
  apply Hout. rewrite Hp. apply elem_of_app. right.
  unfold live. apply elem_of_app. right. apply elem_of_app. left.
  rewrite <- Heq. apply (list_elem_of_fmap_2 b_mesh). exact Hin.
Qed.

(** The loop over the targets does nothing or ends with a hit. *)
Lemma targetLoop_cases b i n s :
  targetLoop env b i n s = s \/
  exists j t, targets s !! j = Some t /\ reaches (b_position b) t = true /\
              (forall k t', j < k < n -> targets s !! k = Some t' ->
                            reaches (b_position b) t' = false) /\
              j < n /\
              targetLoop env b i n s = hitTarget env b i j t s.
Proof.
  induction n as [|j IH]; [by left|]. cbn [targetLoop].
  destruct (targets s !! j) as [t|] eqn:Ht; [|by left].
  destruct (Vector3.distanceTo (b_position b) (t_position t) <? t_hitRadius t)%float
    eqn:E.
  - right. exists j, t. split; [exact Ht|]. split; [exact E|].
    split; [intros; lia|]. split; [lia | reflexivity].
  - destruct IH as [IH|(j' & t' & H1 & H2 & H3 & H4 & H5)]; [by left|].
    right. exists j', t'. split; [exact H1|]. split; [exact H2|].
    split; [|split; [lia | exact H5]].
    intros k tk Hk Htk. destruct (decide (k = j)) as [->|Hne].
    + rewrite Ht in Htk. injection Htk as <-. exact E.
    + apply (H3 k); [lia | exact Htk].
Qed.

Lemma paintballIter_tidy delta i s :
  tidy fixed s -> tidy fixed (paintballIter env delta i s).
Proof.
  intros H. unfold paintballIter.
  destruct (paintballs s !! i) as [b0|] eqn:Hi; [|exact H].
  cbv beta zeta.
  pose proof (lookup_lt_Some _ _ _ Hi) as Hlt.
  set (b1 := set_life (b_life b0 - delta) b0).
  set (s0 := set_paintballs (<[i:=b1]> (paintballs s)) s).
  assert (H0 : tidy fixed s0) by (by apply (movePaintball_tidy fixed i b1 b0)).
  assert (Hi0 : paintballs s0 !! i = Some b1)
    by (unfold s0; rewrite paintballs_set_paintballs; by apply list_lookup_insert_eq).
  assert (Hlt0 : i < length (paintballs s0)) by (by eapply lookup_lt_Some).
  clearbody s0. clear H Hi Hlt.
  destruct (b_life b1 <=? 0)%float.
  { by apply (removePaintball_tidy fixed i b1 b1). }
  set (b2 := set_position _ b1).
  set (s1 := set_paintballs (<[i:=b2]> (paintballs s0)) s0).
  assert (H1 : tidy fixed s1) by (by apply (movePaintball_tidy fixed i b2 b1)).
  assert (Hi1 : paintballs s1 !! i = Some b2)
    by (unfold s1; rewrite paintballs_set_paintballs; by apply list_lookup_insert_eq).
  assert (Hl1 : listed b2 s1 = true) by (by apply listed_at).
  clearbody s1. clear H0 Hi0.
  destruct (targetLoop_cases b2 i (length (targets s1)) s1)
    as [->|(j & t & Hj & _ & _ & _ & ->)].
  - rewrite Hl1. cbn [negb].
    set (s3 := set_raycaster _ s1).
    assert (H3 : tidy fixed s3) by (revert H1; apply tidy_stock; reflexivity).
    assert (Hi3 : paintballs s3 !! i = Some b2) by exact Hi1.
    assert (Hray : raycaster s3 = raycaster s3) by reflexivity.
    destruct (intersectObjects env (raycaster s3) (buildingMeshes s3 ++ [ground]))
      as [|hit rest].
    + destruct (_ <? _)%float; [|exact H3].
      by apply (dropPaintball_tidy fixed i b2 b2).
    + apply (removePaintball_tidy fixed i b2 b2); [|reflexivity|by apply addDecal_tidy].
      by rewrite addDecal_paintballs.
  - pose proof (hitTarget_tidy b2 i j t b2 s1 Hj Hi1 eq_refl H1) as H2.
    rewrite (hitTarget_unlisted b2 i j t s1 H2). exact H2.
Qed.

Lemma paintballLoop_tidy delta n : forall s,
  tidy fixed s -> tidy fixed (paintballLoop env delta n s).
Proof.
  induction n as [|i IH]; intros s H; [exact H|].
  cbn [paintballLoop]. by apply IH, paintballIter_tidy.
Qed.

Lemma updateMouseLook_stock s : stock (updateMouseLook s) = stock s.
Proof. unfold updateMouseLook. destruct (isPointerLocked s); reflexivity. Qed.

Lemma update_tidy now delta s : tidy fixed s -> tidy fixed (update env now delta s).
Proof.
  intros H. unfold update.
  match goal with |- tidy fixed (updateCamera env now ?x) =>
    apply (tidy_stock x); [reflexivity|]
  end.
  apply paintballLoop_tidy.
  match goal with |- tidy fixed (updateTargets env delta ?x) =>
    apply (tidy_same fixed x); try reflexivity;
      [|apply (tidy_stock (updateMouseLook s));
         [reflexivity | by apply (tidy_stock _ _ (updateMouseLook_stock s))]]
  end.
  unfold live, updateTargets. rewrite targets_set_targets.
  change (paintballs (set_targets _ ?x)) with (paintballs x).
  change (splatters (set_targets _ ?x)) with (splatters x).
  rewrite map_map.
  erewrite (map_ext (fun x => t_mesh (updateTarget env delta _ x)) t_mesh);
    [reflexivity|].
  intros t. unfold updateTarget. cbv zeta. destruct (_ <? 2)%float; reflexivity.
Qed.

Lemma updateFOV_stock a now s : stock (updateFOV env a now s) = stock s.
Proof. unfold updateFOV. cbv zeta. destruct (_ <? 1)%float; reflexivity. Qed.

Lemma fovFrame_stock now s : stock (fovFrame env now s) = stock s.
Proof.
  unfold fovFrame.
  change (stock s) with (stock (set_fovAnimations [] s)).
  generalize (set_fovAnimations [] s). generalize (fovAnimations s).
  intros l; induction l as [|a l IH]; intros s0; [reflexivity|].
  cbn [fold_left]. rewrite IH. apply updateFOV_stock.
Qed.

Lemma toggleFocusMode_stock t0 t1 s : stock (toggleFocusMode env t0 t1 s) = stock s.
Proof.
  cbv beta zeta delta [toggleFocusMode animateFOV]. frame stock.
  rewrite updateFOV_stock. reflexivity.
Qed.

Lemma shootPaintball_tidy s : tidy fixed s -> tidy fixed (shootPaintball env s).
Proof.
  apply tidy_add; try reflexivity.
  eapply (live_paintballs_snoc s _ (mkPaintball (nextId s) _ _ _ _)); reflexivity.
Qed.

Lemma step_tidy s e : tidy fixed s -> tidy fixed (step env s e).
Proof.
  intros H.
  destruct e as [l|mx my|code t0 t1|code|button|now delta|now]; cbn [step].
  - revert H. apply tidy_stock. reflexivity.
  - unfold mousemove. destruct (isPointerLocked s); [|exact H].
    revert H. apply tidy_stock. reflexivity.
  - unfold keydown. cbv zeta. destruct (String.eqb code "Tab").
    + apply (tidy_stock _ _ (toggleFocusMode_stock _ _ _)).
      revert H. apply tidy_stock. reflexivity.
    + revert H. apply tidy_stock. reflexivity.
  - revert H. apply tidy_stock. reflexivity.
  - unfold mousedown. destruct (_ && _); [by apply shootPaintball_tidy | exact H].
  - by apply update_tidy.
  - by apply (tidy_stock _ _ (fovFrame_stock now s)).
Qed.

Lemma run_tidy events : forall s, tidy fixed s -> tidy fixed (run env events s).
Proof.
  induction events as [|e events IH]; intros s H; [exact H|].
  change (run env (e :: events) s) with (run env events (step env s e)).
  by apply IH, step_tidy.
Qed.

Lemma spawnTargets_tidy n : forall s,
  tidy fixed s -> tidy fixed (spawnTargets env n s).
Proof.
  induction n as [|n IH]; intros s H; [exact H|].
  cbn [spawnTargets]. by apply IH, pushTarget_tidy.
Qed.

End TidyLoops.

Section TidyGame.

Variable env : Env.

Lemma fixtures_seq w :
  numbered 3 (w_meshes w) -> w_nextId w = 3 + length (w_meshes w) ->
  fixtures w = seq 0 (3 + (length (w_meshes w) + 1)).
Proof.
  intros Hn Hid. unfold fixtures. rewrite Hn, Hid, !seq_app. reflexivity.
Qed.

Lemma set_dom_stock d s : stock (set_dom d s) = stock s.
Proof. reflexivity. Qed.

Lemma initState_tidy w page :
  numbered 3 (w_meshes w) -> w_nextId w = 3 + length (w_meshes w) ->
  tidy (fixtures w) (initState env w page).
Proof.
  intros Hn Hid. unfold initState. cbv zeta.
  match goal with |- tidy _ (set_dom ?d ?x) =>
    apply (tidy_stock _ x _ (set_dom_stock d x))
  end.
  match goal with |- tidy _ (updateScoreDisplay ?x) =>
    apply (tidy_stock _ x _ (updateScoreDisplay_stock x))
  end.
  apply spawnTargets_tidy.
  match goal with |- tidy _ ?x =>
    assert (Hsc : scene x = fixtures w) by reflexivity;
    assert (Hl : live x = []) by reflexivity;
    assert (Hid' : nextId x = S (w_nextId w)) by reflexivity;
    assert (Hd : disposed x = []) by reflexivity;
    generalize dependent x
  end.
  intros s0 Hsc Hl Hid' Hd. unfold tidy. rewrite Hsc, Hl, Hid', Hd, app_nil_r.
  rewrite (fixtures_seq w Hn Hid).
  split; [reflexivity|]. split; [apply NoDup_seq|]. split; [|constructor].
  apply Forall_forall. intros x Hx. apply elem_of_seq in Hx. lia.
Qed.

(** X16. The scene holds what is alive, and nothing else.  Call the scene
    tidy for a list of fixtures (what else is in the scene: lights, ground,
    city, the capsule of the player or, once it has loaded, the soldier
    model) when its children are the fixtures and the meshes of the listed
    targets, paintballs and splatters, each exactly once, and no mesh in it
    has had its geometry and material disposed.  Every event listener and
    every frame keeps the scene tidy, whatever the fixtures are: what leaves
    a list leaves the scene, what enters one enters the scene.  So does the
    exchange of a fixture for a new object and the addition of a new object
    as a fixture, which is what the loader callbacks of the script (not
    among the events) do to the scene.  The game starts tidy, with the
    fixtures of the script, in the city that the script builds with
    [Math.random()] as specified. *)
Theorem scene_stays_tidy :
  (forall fixed s e, tidy fixed s -> tidy fixed (step env s e)) /\
  (forall fixed events s, tidy fixed s -> tidy fixed (run env events s)) /\
  (forall fixed rest o s,
     tidy fixed s -> fixed ≡ₚ o :: rest ->
     tidy (rest ++ [nextId s])
       (set_nextId (S (nextId s)) (scene_add (nextId s) (scene_remove o s)))) /\
  (forall fixed s,
     tidy fixed s ->
     tidy (fixed ++ [nextId s]) (set_nextId (S (nextId s)) (scene_add (nextId s) s))) /\
  (forall rng0 w page,
     generateCity env rng0 = Some w -> tidy (fixtures w) (initState env w page)) /\
  (unitRandom env ->
   forall rng0 page, exists w,
     generateCity env rng0 = Some w /\ tidy (fixtures w) (initState env w page)).
Proof.
  assert (Hinit : forall rng0 w page,
            generateCity env rng0 = Some w -> tidy (fixtures w) (initState env w page)).
  { intros rng0 w page Hw.
    destruct (generateCity_spec env rng0 w Hw)
      as (stairs & bridges & _ & _ & _ & _ & _ & Hm & Hn & Hid).
    cbn [w_meshes w_nextId app] in Hm, Hn, Hid.
    apply initState_tidy.
    - by rewrite Hm.
    - by rewrite Hm. }
  split; [intros fixed s e; apply step_tidy|].
  split; [intros fixed events s; apply run_tidy|].
  split.
  { intros fixed rest o s Ht Hf.
    apply (tidy_fix rest (scene_remove o s)); try reflexivity.
    by apply (tidy_unfix fixed rest o s). }
  split; [intros fixed s; by apply tidy_fix|].
  split; [exact Hinit|].
  intros Hu rng0 page. destruct (generateCity_total env Hu rng0) as [w Hw].
  exists w. split; [exact Hw | by apply (Hinit rng0)].
Qed.

End TidyGame.

Section Hits.

Variable env : Env.

(** The loop over the targets stops at the last target in reach. *)
Lemma targetLoop_hit b i j t s : forall n,
  targets s !! j = Some t ->
  reaches (b_position b) t = true ->
  (forall k t', j < k -> targets s !! k = Some t' ->
                reaches (b_position b) t' = false) ->
  j < n -> n <= length (targets s) ->
  targetLoop env b i n s = hitTarget env b i j t s.
Proof.
  intros n Hj Hr Hlast. induction n as [|m IH]; intros Hjn Hn; [lia|].
  cbn [targetLoop].
  destruct (targets s !! m) as [t'|] eqn:Hm.
  2:{ apply lookup_ge_None in Hm. lia. }
  destruct (decide (m = j)) as [->|Hne].
  - rewrite Hj in Hm. injection Hm as <-. unfold reaches in Hr. by rewrite Hr.
  - assert (Hr' : reaches (b_position b) t' = false) by (apply (Hlast m); [lia|done]).
    unfold reaches in Hr'. rewrite Hr'. apply IH; lia.
Qed.

Lemma createParticles_nextId n pos c : forall s,
  nextId (createParticles env n pos c s) = nextId s + n.
Proof.
  induction n as [|n IH]; intros s; [simpl; lia|].
  cbn [createParticles]. rewrite IH.
  change (nextId (createParticle env pos c s)) with (S (nextId s)). lia.
Qed.

(** The particles of an explosion. *)
Lemma createParticles_spec n pos c : forall s,
  exists ps,
    paintballs (createParticles env n pos c s) = paintballs s ++ ps /\
    length ps = n /\
    Forall (fun p => particle p /\ b_position p = pos /\ b_color p = c) ps.
Proof.
  induction n as [|n IH]; intros s.
  - exists []. split; [by rewrite app_nil_r|]. split; [reflexivity | constructor].
  - cbn [createParticles].
    destruct (IH (createParticle env pos c s)) as (ps & -> & Hl & Hps).
    eexists (_ :: ps). split; [|split].
    + change (paintballs (createParticle env pos c s))
        with (paintballs s ++ [mkPaintball (nextId s) pos
                (mkVec3 ((Math_random env (rng s + 0) - 0.5) * 10)
                        ((Math_random env (rng s + 1) - 0.5) * 10)
                        ((Math_random env (rng s + 2) - 0.5) * 10)) c 0.5]).
      rewrite <- app_assoc. reflexivity.
    + simpl. lia.
    + constructor; [repeat split | exact Hps].
Qed.

(** What a hit leaves behind. *)
Lemma hitTarget_spec b i j t s :
  i < length (paintballs s) ->
  Forall (fun o => o < nextId s) (scene s) ->
  t_mesh t ∈ scene s ->
  let s' := hitTarget env b i j t s in
  score s' = (score s + t_score t)%float /\
  (exists fresh,
     targets s' = delete j (targets s) ++ [fresh] /\
     justSpawned fresh /\ t_mesh fresh = nextId s + 20) /\
  (exists particles,
     paintballs s' = delete i (paintballs s) ++ particles /\
     length particles = 20 /\
     Forall (fun p => particle p /\ b_position p = t_position t /\
                      b_color p = b_color b) particles) /\
  (t_mesh t ∉ scene s') /\ (b_mesh b ∉ scene s') /\
  disposed s' = disposed s ++ [b_mesh b] /\
  splatters s' = splatters s.
Proof.
  intros Hi Hb Ht. cbv zeta.
  split; [apply hitTarget_score|].
  split; [|split; [|split; [|split; [|split;
    [apply hitTarget_disposed | apply hitTarget_splatters]]]]].
  - rewrite hitTarget_pieces, updateScoreDisplay_targets.
    assert (H1 : forall x,
      targets (removePaintball i b (pushTarget env (removeTarget j t x)))
      = delete j (targets x) ++ [fst (createTarget env (removeTarget j t x))])
      by reflexivity.
    rewrite H1. unfold createExplosion. rewrite createParticles_targets.
    eexists. split; [reflexivity|]. split; [repeat split|].
    assert (H2 : forall x, t_mesh (fst (createTarget env (removeTarget j t x))) = nextId x)
      by reflexivity.
    rewrite H2, createParticles_nextId. reflexivity.
  - rewrite hitTarget_pieces, updateScoreDisplay_paintballs.
    assert (H1 : forall x,
      paintballs (removePaintball i b (pushTarget env (removeTarget j t x)))
      = delete i (paintballs x)) by reflexivity.
    rewrite H1. unfold createExplosion.
    destruct (createParticles_spec 20 (t_position t) (b_color b)
                (set_score (score s + t_score t) s)) as (ps & -> & Hl & Hps).
    exists ps. split; [|by split].
    change (paintballs (set_score _ s)) with (paintballs s).
    by apply delete_app_l.
  - rewrite hitTarget_pieces.
    assert (H0 : forall x, scene (updateScoreDisplay x) = scene x).
    { intros x. unfold updateScoreDisplay. destruct (scoreEl _); reflexivity. }
    assert (H1 : forall x,
      scene (removePaintball i b (pushTarget env (removeTarget j t x)))
      = filter (fun o => o <> b_mesh b)
          (filter (fun o => o <> nextId x)
             (filter (fun o => o <> t_mesh t) (scene x)) ++ [nextId x]))
      by reflexivity.
    rewrite H0, H1. unfold createExplosion. rewrite createParticles_nextId.
    rewrite elem_of_filter_ne, elem_of_app, !elem_of_filter_ne, list_elem_of_singleton.
    intros [[[[_ Hne] _]|Heq] _]; [by apply Hne|].
    rewrite Forall_forall in Hb. apply Hb in Ht.
    change (nextId (set_score _ s)) with (nextId s) in Heq. lia.
  - rewrite hitTarget_pieces.
    assert (H0 : forall x, scene (updateScoreDisplay x) = scene x).
    { intros x. unfold updateScoreDisplay. destruct (scoreEl _); reflexivity. }
    assert (H1 : forall x,
      scene (removePaintball i b x) = filter (fun o => o <> b_mesh b) (scene x))
      by reflexivity.
    rewrite H0, H1, elem_of_filter_ne. tauto.
Qed.

(** The round of a paintball that reaches a target is the hit of the last
    target in reach. *)
Lemma paintballIter_hit fixed delta i j s b target :
  tidy fixed s ->
  paintballs s !! i = Some b ->
  alive (flown delta b) ->
  targets s !! j = Some target ->
  reaches (b_position (flown delta b)) target = true ->
  (forall k t', j < k -> targets s !! k = Some t' ->
                reaches (b_position (flown delta b)) t' = false) ->
  paintballIter env delta i s
  = hitTarget env (flown delta b) i j target
      (set_paintballs (<[i:=flown delta b]> (paintballs s)) s).
Proof.
  intros Htidy Hb Halive Hj Hr Hlast.
  pose proof (lookup_lt_Some _ _ _ Hb) as Hlt.
  unfold paintballIter. rewrite Hb. cbv beta zeta.
  change (b_life (set_life (b_life b - delta) b)) with (b_life (flown delta b)).
  unfold alive in Halive. rewrite Halive.
  match goal with |- context [targetLoop env ?b' _ _ _] =>
    change b' with (flown delta b)
  end.
  rewrite paintballs_set_paintballs, list_insert_insert_eq.
  assert (Hset : forall l l' x, set_paintballs l (set_paintballs l' x) = set_paintballs l x)
    by reflexivity.
  rewrite Hset.
  set (s1 := set_paintballs (<[i:=flown delta b]> (paintballs s)) s).
  assert (Ht1 : targets s1 = targets s) by reflexivity.
  assert (Hi1 : paintballs s1 !! i = Some (flown delta b))
    by (unfold s1; rewrite paintballs_set_paintballs; by apply list_lookup_insert_eq).
  assert (H1 : tidy fixed s1) by (by apply (movePaintball_tidy fixed i _ b)).
  clearbody s1.
  rewrite (targetLoop_hit (flown delta b) i j target s1 (length (targets s1)));
    try (rewrite ?Ht1; assumption).
  - rewrite (hitTarget_unlisted env fixed); [reflexivity|].
    apply (hitTarget_tidy env fixed _ i j target (flown delta b)); try assumption.
    + by rewrite Ht1.
    + reflexivity.
  - rewrite Ht1. by eapply lookup_lt_Some.
  - reflexivity.
Qed.

(** X17. A paintball that reaches a target.  In a tidy state, when a
    paintball that is still alive comes within the hit radius of a target,
    the last such target in the list is hit: its score is added to the score;
    it leaves the list and the scene, and a target spawned at that moment is
    pushed; twenty particles of the colour of the paintball, with half a
    second to live, start from where the target was; the paintball leaves the
    list and the scene and is disposed; no splatter is made.  The mesh of the
    target is not disposed. *)
Theorem target_hit fixed delta i j s b target :
  tidy fixed s ->
  paintballs s !! i = Some b ->
  alive (flown delta b) ->
  targets s !! j = Some target ->
  reaches (b_position (flown delta b)) target = true ->
  (forall k t', j < k -> targets s !! k = Some t' ->
                reaches (b_position (flown delta b)) t' = false) ->
  let s' := paintballIter env delta i s in
  score s' = (score s + t_score target)%float /\
  (exists fresh,
     targets s' = delete j (targets s) ++ [fresh] /\
     justSpawned fresh /\ t_mesh fresh = nextId s + 20) /\
  (exists particles,
     paintballs s' = delete i (paintballs s) ++ particles /\
     length particles = 20 /\
     Forall (fun p => particle p /\ b_position p = t_position target /\
                      b_color p = b_color b) particles) /\
  (t_mesh target ∉ scene s') /\ (b_mesh b ∉ scene s') /\
  disposed s' = disposed s ++ [b_mesh b] /\
  splatters s' = splatters s.
Proof.
  intros Htidy Hb Halive Hj Hr Hlast. cbv zeta.
  rewrite (paintballIter_hit fixed delta i j s b target) by assumption.
  pose proof (lookup_lt_Some _ _ _ Hb) as Hlt.
  destruct Htidy as (Hp & _ & Hbound & _).
  assert (Hin : t_mesh target ∈ scene s).
  { rewrite Hp. apply elem_of_app. right. unfold live. apply elem_of_app. left.
    apply (list_elem_of_fmap_2 t_mesh). apply list_elem_of_lookup. eauto. }
  set (s1 := set_paintballs (<[i:=flown delta b]> (paintballs s)) s).
  assert (Hl1 : i < length (paintballs s1))
    by (unfold s1; rewrite paintballs_set_paintballs, length_insert; exact Hlt).
  assert (Hd1 : delete i (paintballs s1) = delete i (paintballs s))
    by (unfold s1; rewrite paintballs_set_paintballs; apply delete_insert_same).
  assert (Hs1 : (score s1, targets s1, nextId s1, scene s1, disposed s1, splatters s1)
                = (score s, targets s, nextId s, scene s, disposed s, splatters s))
    by reflexivity.
  clearbody s1. injection Hs1 as Hsc Ht Hn Hscene Hdis Hspl.
  rewrite <- Hscene, <- Hn in Hbound. rewrite <- Hscene in Hin.
  destruct (hitTarget_spec (flown delta b) i j target s1 Hl1 Hbound Hin)
    as (H1 & H2 & H3 & H4 & H5 & H6 & H7).
  rewrite Hsc in H1. rewrite Ht, Hn in H2. rewrite Hd1 in H3.
  rewrite Hdis in H6. rewrite Hspl in H7.
  repeat split; assumption.
Qed.

(** X18. A paintball that falls through.  When a paintball that is still
    alive reaches no target, the ray along its path meets nothing and it ends
    below height 0 (a shot beyond the edge of the ground), it leaves the list
    and the scene; no splatter is made, and its geometry and material are not
    disposed, unlike those of a paintball that expires or hits something. *)
Theorem fallen_paintball_not_disposed delta i s b :
  paintballs s !! i = Some b ->
  alive (flown delta b) ->
  existsb (reaches (b_position (flown delta b))) (targets s) = false ->
  intersectObjects env
    (mkRay (b_position b) (Vector3.normalize (b_velocity b))
       (Vector3.distanceTo (b_position b) (b_position (flown delta b))))
    (buildingMeshes s ++ [ground]) = [] ->
  (vy (b_position (flown delta b)) <? 0)%float = true ->
  let s' := paintballIter env delta i s in
  paintballs s' = delete i (paintballs s) /\
  scene s' = filter (fun o => o <> b_mesh b) (scene s) /\
  disposed s' = disposed s /\
  splatters s' = splatters s /\ targets s' = targets s /\ score s' = score s.
Proof.
  intros Hb Halive Hmiss Hray Hy. cbv zeta.
  rewrite (paintballIter_flight env delta i s b Hb Halive Hmiss). cbv zeta.
  rewrite Hray, Hy.
  split; [|repeat split; reflexivity].
  rewrite paintballs_set_paintballs.
  match goal with |- delete i (paintballs ?x) = _ =>
    change (paintballs x) with (<[i:=flown delta b]> (paintballs s))
  end.
  apply delete_insert_same.
Qed.

End Hits.

Section Landing.

Variable env : Env.

(** X19. On the ground until the next jump.  Once the player is on the
    ground it stays on the ground through every update in which Space is
    not held: only a jump clears [onGround], nothing the player walks over or
    off does. *)
Theorem grounded_until_jump now delta s :
  p_onGround (player s) = true ->
  keyDown (keys s) "Space" = false ->
  p_onGround (player (update env now delta s)) = true.
Proof.
  intros Hg Hk. rewrite update_player.
  destruct (stepPlayer_physics env delta (keys s) (player (updateMouseLook s)))
    as (_ & _ & ->).
  assert (Hg' : p_onGround (player (updateMouseLook s)) = true).
  { rewrite updateMouseLook_player. destruct (isPointerLocked s); exact Hg. }
  generalize dependent (player (updateMouseLook s)). intros p Hp.
  unfold jump. rewrite Hk. cbn [andb].
  unfold groundCollision. cbv zeta.
  destruct (_ <? _)%float; [reflexivity|].
  change (p_onGround (integrate delta (applyGravity delta (movement env (keys s) p))))
    with (p_onGround (movement env (keys s) p)).
  by rewrite movement_onGround.
Qed.

End Landing.

(** ** The end of an animation *)

Lemma opp_involutive (x : float) : (- - x)%float = x.
Proof.
  apply Prim2SF_inj. rewrite !opp_spec.
  destruct (Prim2SF x) as [s|s| |s m e]; cbn [SFopp]; rewrite ?negb_involutive;
    reflexivity.
Qed.

Lemma mul_opp_r (x y : float) : (x * - y)%float = (- (x * y))%float.
Proof.
  apply Prim2SF_inj. rewrite mul_spec, !opp_spec, mul_spec.
  destruct (Prim2SF x) as [sx|sx| |sx mx ex], (Prim2SF y) as [sy|sy| |sy my ey];
    cbn [SF64mul SFmul SFopp]; rewrite <- ?negb_xorb_r; try reflexivity.
  apply binary_round_aux_negb.
Qed.

(** Multiplying by 1 is exact. *)
Lemma mul_1_r (x : float) : (x * 1)%float = x.
Proof.
  change 1%float with (- (-1))%float.
  by rewrite mul_opp_r, mul_minus_one, opp_involutive.
Qed.

(** A number that is neither below nor above 1 is 1. *)
Lemma not_lt_1_eq (x : float) :
  is_nan x = false -> (x <? 1)%float = false -> (1 <? x)%float = false -> x = 1%float.
Proof.
  unfold is_nan. rewrite FloatAxioms.eqb_spec, !ltb_spec.
  assert (H1 : Prim2SF 1 = S754_finite false 4503599627370496 (-52)) by reflexivity.
  rewrite H1. intros Hn Hlt Hgt. apply Prim2SF_inj. rewrite H1. clear H1.
  generalize dependent (4503599627370496%positive). intros one Hlt Hgt.
  destruct (Prim2SF x) as [s|s| |s m e]; cbn [SFltb SFcompare SFeqb] in *;
    try discriminate; try (destruct s; discriminate).
  destruct s; [discriminate|].
  rewrite (Z.compare_antisym e (-52)) in Hgt.
  destruct (e ?= -52)%Z eqn:Ee; cbn [CompOpp] in *; try discriminate.
  apply Z.compare_eq in Ee. subst e.
  pose proof (Pos.compare_cont_antisym m one Eq) as Ha. cbn [CompOpp] in Ha.
  rewrite <- Ha in Hgt.
  destruct (Pos.compare_cont Eq m one) eqn:Em; cbn [CompOpp] in *; try discriminate.
  assert (Heq : m = one) by (apply Pos.compare_eq; exact Em).
  by subst m.
Qed.

Lemma progress_done (a : FovAnim) (now : float) :
  running now a = false -> is_nan (progress a now) = false -> progress a now = 1%float.
Proof.
  unfold running, progress, Math_min.
  generalize ((now - startTime a) / 1000)%float. intros x.
  change (is_nan 1) with false. rewrite orb_false_r.
  destruct (is_nan x) eqn:En; [intros _ H; discriminate H|].
  destruct (x <? 1)%float eqn:E1; [intros H; rewrite E1 in H; discriminate H|].
  destruct (1 <? x)%float eqn:E2; [reflexivity|].
  destruct (_ && _); [reflexivity|]. intros _ _.
  by apply not_lt_1_eq.
Qed.

Lemma Math_min_1_nan (x : float) : is_nan x = false -> is_nan (Math_min x 1) = false.
Proof.
  intros H. unfold Math_min. rewrite H. change (is_nan 1) with false. cbn [orb].
  destruct (x <? 1)%float; [exact H|].
  destruct (1 <? x)%float; [reflexivity|].
  destruct (_ && _); [reflexivity | exact H].
Qed.

Section Ending.

Variable env : Env.

(** X20. Where an animation of the field of view ends.  The run of
    [updateFOV] that asks for no further animation frame (the progress of
    the animation, a number, is no longer below 1) sets the field of view of
    the camera to startFOV + (targetFOV - startFOV), given that
    [Math.pow(0, 2)] is 0: the target up to rounding, and exactly the target
    for an animation between the fields of view of the two modes, 45 and
    90. *)
Theorem fov_animation_ends a now s :
  fovAnimations (updateFOV env a now s) = fovAnimations s ->
  is_nan ((now - startTime a) / 1000) = false ->
  Math_pow env 0 2 = 0%float ->
  let fov' := c_fov (camera (updateFOV env a now s)) in
  fov' = (startFOV a + (targetFOV a - startFOV a))%float /\
  (startFOV a = 45%float -> targetFOV a = 90%float -> fov' = 90%float) /\
  (startFOV a = 90%float -> targetFOV a = 45%float -> fov' = 45%float).
Proof.
  intros Hlist Hn Hpow. cbv zeta.
  destruct (updateFOV_spec env a now s) as [Hl Hc].
  assert (Hr : running now a = false).
  { rewrite Hl in Hlist. destruct (running now a); [|reflexivity].
    rewrite <- (app_nil_r (fovAnimations s)) in Hlist at 2.
    apply app_inv_head in Hlist. discriminate Hlist. }
  assert (Hp : is_nan (progress a now) = false) by (by apply Math_min_1_nan).
  assert (H : c_fov (camera (updateFOV env a now s))
              = (startFOV a + (targetFOV a - startFOV a))%float).
  { rewrite Hc. cbn [c_fov].
    unfold easedFOV. rewrite (progress_done a now Hr Hp). cbv zeta.
    change (1 <? 0.5)%float with false. cbv iota.
    change (-2 * 1 + 2)%float with 0%float. rewrite Hpow.
    change (1 - 0 / 2)%float with 1%float. by rewrite mul_1_r. }
  split; [exact H|]. split; intros Hs Ht; rewrite H, Hs, Ht; reflexivity.
Qed.

End Ending.

(** * The frame, round by round *)

(** ** The rounds of a frame *)

Section Rounds.

Variable env : Env.

(** The loop over the paintballs comes to every index below the number it
    is entered with. *)
Lemma paintballLoop_rounds delta i : forall n s,
  i < n ->
  paintballLoop env delta n s
  = paintballLoop env delta i
      (paintballIter env delta i (roundsAbove env delta i n s)).
Proof.
  induction n as [|m IH]; intros s Hi; [lia|].
  cbn [paintballLoop roundsAbove].
  destruct (i <? m) eqn:E.
  - apply Nat.ltb_lt in E. by apply IH.
  - apply Nat.ltb_ge in E. assert (i = m) by lia. subst. reflexivity.
Qed.

(** The rounds above [i] leave the paintballs up to [i] alone. *)
Lemma roundsAbove_take delta i : forall n s,
  take (S i) (paintballs (roundsAbove env delta i n s)) = take (S i) (paintballs s).
Proof.
  induction n as [|m IH]; intros s; [reflexivity|].
  cbn [roundsAbove]. destruct (i <? m) eqn:E; [|reflexivity].
  apply Nat.ltb_lt in E. rewrite IH.
  replace (S i) with (S i `min` m) by lia. rewrite <- !take_take.
  by rewrite paintballIter_take.
Qed.

Lemma roundsAbove_lookup delta i n s :
  paintballs (roundsAbove env delta i n s) !! i = paintballs s !! i.
Proof.
  rewrite <- (lookup_take_lt (paintballs (roundsAbove env delta i n s)) (S i) i) by lia.
  rewrite roundsAbove_take. apply lookup_take_lt. lia.
Qed.

Lemma roundsAbove_backdrop delta i n s :
  backdrop (roundsAbove env delta i n s) = backdrop s.
Proof.
  apply (loops_roundsAbove env (fun x => backdrop x = backdrop s));
    try (intros ? ? H; exact H); [|reflexivity].
  intros b i0 j t s0 _ <-. apply hitTarget_backdrop.
Qed.

Lemma roundsAbove_buildingMeshes delta i n s :
  buildingMeshes (roundsAbove env delta i n s) = buildingMeshes s.
Proof.
  pose proof (roundsAbove_backdrop delta i n s) as H.
  unfold backdrop in H. by injection H.
Qed.

(** Every paintball of the list has its round in the frame. *)
Lemma update_rounds now delta i s b :
  paintballs s !! i = Some b ->
  update env now delta s
  = updateCamera env now
      (paintballLoop env delta i (paintballIter env delta i (roundOf env delta i s))) /\
  paintballs (roundOf env delta i s) !! i = Some b /\
  buildingMeshes (roundOf env delta i s) = buildingMeshes s.
Proof.
  intros Hb. pose proof (lookup_lt_Some _ _ _ Hb) as Hlt.
  unfold roundOf. cbv zeta. unfold beforePaintballs.
  split; [|split].
  - unfold update, updatePaintballs.
    rewrite (paintballLoop_rounds delta i); [reflexivity|].
    by rewrite update_paintballs_before.
  - rewrite roundsAbove_lookup, update_paintballs_before. exact Hb.
  - rewrite roundsAbove_buildingMeshes.
    unfold updateTargets, updatePlayer. frame buildingMeshes.
    unfold updateMouseLook. destruct (isPointerLocked s); reflexivity.
Qed.

(** What was disposed stays disposed. *)
Lemma paintballLoop_disposed o delta n s :
  o ∈ disposed s -> o ∈ disposed (paintballLoop env delta n s).
Proof.
  apply (loops_paintballLoop env (fun x => o ∈ disposed x));
    try (intros ? ? H; exact H).
  - intros o' x H. unfold dispose. apply elem_of_app. by left.
  - intros b i j t x _ H. rewrite hitTarget_disposed. apply elem_of_app. by left.
Qed.

(** In a tidy state a mesh that was disposed is in no list and not in the
    scene. *)
Lemma tidy_disposed fixed o s :
  tidy fixed s -> o ∈ disposed s ->
  (o ∉ scene s) /\ Forall (fun p => b_mesh p <> o) (paintballs s).
Proof.
  intros (Hp & _ & _ & Hd) Ho. rewrite Forall_forall in Hd.
  destruct (Hd o Ho) as [_ Hout]. split; [exact Hout|].
  apply Forall_forall. intros p Hin Heq. apply Hout. rewrite Hp.
  apply elem_of_app. right. unfold live. apply elem_of_app. right.
  apply elem_of_app. left. rewrite <- Heq. by apply (list_elem_of_fmap_2 b_mesh).
Qed.

(** A mesh disposed in the round at [i] is gone at the end of the frame. *)
Lemma update_disposed now delta i s o :
  i < length (paintballs s) ->
  o ∈ disposed (paintballIter env delta i (roundOf env delta i s)) ->
  (o ∈ disposed (update env now delta s)) /\
  forall fixed, tidy fixed s ->
    (o ∉ scene (update env now delta s)) /\
    Forall (fun p => b_mesh p <> o) (paintballs (update env now delta s)).
Proof.
  intros Hlt Ho.
  assert (H : o ∈ disposed (update env now delta s)).
  { destruct (paintballs s !! i) as [b|] eqn:Hb.
    2:{ apply lookup_ge_None in Hb. lia. }
    destruct (update_rounds now delta i s b Hb) as (-> & _).
    unfold updateCamera. frame disposed. by apply paintballLoop_disposed. }
  split; [exact H|]. intros fixed Ht.
  apply (tidy_disposed fixed); [by apply update_tidy | exact H].
Qed.

End Rounds.

Section Survivors.

Variable env : Env.
Variable fixed : list objId.

Lemma beforePaintballs_tidy delta s :
  tidy fixed s -> tidy fixed (beforePaintballs env delta s).
Proof.
  intros H. unfold beforePaintballs.
  match goal with |- tidy fixed (updateTargets env delta ?x) =>
    apply (tidy_same fixed x); try reflexivity;
      [|apply (tidy_stock fixed (updateMouseLook s));
         [reflexivity | by apply (tidy_stock fixed _ _ (updateMouseLook_stock s))]]
  end.
  unfold live, updateTargets. rewrite targets_set_targets.
  change (paintballs (set_targets _ ?x)) with (paintballs x).
  change (splatters (set_targets _ ?x)) with (splatters x).
  rewrite map_map.
  erewrite (map_ext (fun x => t_mesh (updateTarget env delta _ x)) t_mesh);
    [reflexivity|].
  intros t. unfold updateTarget. cbv zeta. destruct (_ <? 2)%float; reflexivity.
Qed.

Lemma roundsAbove_tidy delta i : forall n s,
  tidy fixed s -> tidy fixed (roundsAbove env delta i n s).
Proof.
  induction n as [|m IH]; intros s H; [exact H|].
  cbn [roundsAbove]. destruct (i <? m); [|exact H].
  by apply IH, paintballIter_tidy.
Qed.

Lemma roundOf_tidy delta i s : tidy fixed s -> tidy fixed (roundOf env delta i s).
Proof. intros H. by apply roundsAbove_tidy, beforePaintballs_tidy. Qed.

(** In a tidy state the round at [i] leaves the paintballs behind [i] in
    the list where they are, or one place to the front. *)
Lemma paintballIter_drop delta i s :
  tidy fixed s ->
  exists mid ps,
    drop i (paintballs (paintballIter env delta i s))
    = mid ++ drop (S i) (paintballs s) ++ ps.
Proof.
  intros H. unfold paintballIter.
  destruct (paintballs s !! i) as [b0|] eqn:Hi.
  2:{ apply lookup_ge_None in Hi. exists [], []. rewrite !drop_ge by lia. reflexivity. }
  cbv beta zeta.
  pose proof (lookup_lt_Some _ _ _ Hi) as Hlt.
  set (b1 := set_life (b_life b0 - delta) b0).
  set (s0 := set_paintballs (<[i:=b1]> (paintballs s)) s).
  assert (H0 : tidy fixed s0) by (by apply (movePaintball_tidy fixed i b1 b0)).
  assert (Hi0 : paintballs s0 !! i = Some b1)
    by (unfold s0; rewrite paintballs_set_paintballs; by apply list_lookup_insert_eq).
  assert (Hd0 : drop (S i) (paintballs s0) = drop (S i) (paintballs s))
    by (unfold s0; rewrite paintballs_set_paintballs; apply drop_insert_lt; lia).
  rewrite <- Hd0.
  clearbody s0. clear H Hi Hlt Hd0.
  destruct (b_life b1 <=? 0)%float.
  { exists [], []. rewrite app_nil_r. cbn [app].
    rewrite paintballs_set_paintballs. frame paintballs. apply drop_delete_same. }
  set (b2 := set_position _ b1).
  set (s1 := set_paintballs (<[i:=b2]> (paintballs s0)) s0).
  pose proof (lookup_lt_Some _ _ _ Hi0) as Hlt0.
  assert (H1 : tidy fixed s1) by (by apply (movePaintball_tidy fixed i b2 b1)).
  assert (Hi1 : paintballs s1 !! i = Some b2)
    by (unfold s1; rewrite paintballs_set_paintballs; by apply list_lookup_insert_eq).
  assert (Hl1 : listed b2 s1 = true) by (by apply listed_at).
  assert (Hd1 : drop (S i) (paintballs s1) = drop (S i) (paintballs s0))
    by (unfold s1; rewrite paintballs_set_paintballs; apply drop_insert_lt; lia).
  rewrite <- Hd1.
  pose proof (lookup_lt_Some _ _ _ Hi1) as Hlt1.
  clearbody s1. clear H0 Hi0 Hd1 Hlt0.
  destruct (targetLoop_cases env b2 i (length (targets s1)) s1)
    as [->|(j & t & Hj & _ & _ & _ & ->)].
  - rewrite Hl1. cbn [negb].
    set (s3 := set_raycaster _ s1).
    assert (Hp3 : paintballs s3 = paintballs s1) by reflexivity.
    destruct (intersectObjects env (raycaster s3) (buildingMeshes s3 ++ [ground]))
      as [|hit rest].
    + destruct (_ <? _)%float.
      * exists [], []. rewrite app_nil_r. cbn [app].
        rewrite paintballs_set_paintballs. frame paintballs. apply drop_delete_same.
      * exists [b2], []. rewrite app_nil_r, Hp3.
        rewrite (drop_S _ b2 i) by exact Hi1. reflexivity.
    + exists [], []. rewrite app_nil_r. cbn [app].
      rewrite paintballs_set_paintballs. frame paintballs.
      rewrite addDecal_paintballs, Hp3. apply drop_delete_same.
  - pose proof (hitTarget_tidy env fixed b2 i j t b2 s1 Hj Hi1 eq_refl H1) as H2.
    rewrite (hitTarget_unlisted env fixed b2 i j t s1 H2). cbn [negb].
    destruct (hitTarget_paintballs env b2 i j t s1) as (ps & -> & _).
    exists [], ps. cbn [app]. rewrite drop_delete_same.
    apply drop_app_le. lia.
Qed.

(** In a tidy state the rest of the loop keeps the paintballs behind the
    index it starts from. *)
Lemma paintballLoop_keeps delta p : forall n s,
  tidy fixed s -> p ∈ drop n (paintballs s) ->
  p ∈ paintballs (paintballLoop env delta n s).
Proof.
  induction n as [|i IH]; intros s Ht Hin; [by rewrite drop_0 in Hin|].
  cbn [paintballLoop]. apply IH; [by apply paintballIter_tidy|].
  destruct (paintballIter_drop delta i s Ht) as (mid & ps & ->).
  apply elem_of_app. right. apply elem_of_app. by left.
Qed.

(** A paintball that is listed at [i] after its round is listed at the end
    of the frame. *)
Lemma update_keeps now delta i s b p :
  tidy fixed s ->
  paintballs s !! i = Some b ->
  paintballs (paintballIter env delta i (roundOf env delta i s)) !! i = Some p ->
  p ∈ paintballs (update env now delta s).
Proof.
  intros Ht Hb Hp.
  destruct (update_rounds env now delta i s b Hb) as (-> & _).
  unfold updateCamera. frame paintballs.
  apply paintballLoop_keeps.
  - by apply paintballIter_tidy, roundOf_tidy.
  - apply list_elem_of_lookup. exists 0. rewrite lookup_drop.
    by replace (i + 0) with i by lia.
Qed.

End Survivors.

Section FrameClaims.

Variable env : Env.

(** C2. Hit detection against the world is done by raycasting, each
    frame, for every surviving paintball.  [update] runs the loop over the
    paintballs from the last to the first: for the paintball [b] at index
    [i] the frame is the rounds above [i], which leave [b] where it is, then
    the round of [b], then the rounds below [i] and the camera.  If [b]
    survives in its round (its life has not run out and it reaches no
    target) a ray is cast from the position it had before moving, along its
    normalised velocity, with range the distance it moved, against the
    building meshes and the ground.  If the ray meets something, a decal for
    the first intersection (the nearest one, three.js sorting them by
    distance) is pushed last on the splatters, at the point and on the
    object of the hit, with the normal of the hit and the colour of the
    paintball, its mesh in the scene if the scene was tidy; and the
    paintball is deleted from the list, removed from the scene and disposed:
    at the end of the frame it is disposed and, in a tidy scene, neither in
    the scene nor in the list.  If the ray meets nothing no splatter is
    added. *)
Theorem raycast_hit_detection now delta i s b :
  paintballs s !! i = Some b ->
  let s1 := roundOf env delta i s in
  let s2 := paintballIter env delta i s1 in
  let ray :=
    mkRay (b_position b) (Vector3.normalize (b_velocity b))
      (Vector3.distanceTo (b_position b) (b_position (flown delta b))) in
  update env now delta s = updateCamera env now (paintballLoop env delta i s2) /\
  paintballs s1 !! i = Some b /\
  (alive (flown delta b) ->
   existsb (reaches (b_position (flown delta b))) (targets s1) = false ->
   raycaster s2 = ray /\
   match intersectObjects env ray (buildingMeshes s ++ [ground]) with
   | hit :: rest =>
       (nearestFirst env ->
        Forall (fun h => (hit_distance hit <=? hit_distance h)%float = true) rest) /\
       (exists d,
          last (splatters s2) = Some d /\
          d_position d = hit_point hit /\ d_normal d = hit_normal hit /\
          d_object d = hit_object hit /\ d_color d = b_color b /\
          forall fixed, tidy fixed s -> d_mesh d ∈ scene s2) /\
       paintballs s2 = delete i (paintballs s1) /\
       (b_mesh b ∉ scene s2) /\
       (b_mesh b ∈ disposed s2) /\
       (b_mesh b ∈ disposed (update env now delta s)) /\
       (forall fixed, tidy fixed s ->
          (b_mesh b ∉ scene (update env now delta s)) /\
          Forall (fun p => b_mesh p <> b_mesh b) (paintballs (update env now delta s)))
   | [] =>
       splatters s2 = splatters s1 /\
       paintballs s2 =
         if (vy (b_position (flown delta b)) <? 0)%float
         then delete i (paintballs s1)
         else <[i:=flown delta b]> (paintballs s1)
   end).
Proof.
  intros Hb. cbv zeta.
  pose proof (lookup_lt_Some _ _ _ Hb) as Hlt.
  destruct (update_rounds env now delta i s b Hb) as (Hu & Hb1 & Hbm).
  split; [exact Hu|]. split; [exact Hb1|].
  intros Halive Hmiss.
  pose proof (paintballIter_raycast env delta i _ b Hb1 Halive Hmiss) as H.
  cbv zeta in H. rewrite Hbm in H. destruct H as [Hray H].
  split; [exact Hray|].
  destruct (intersectObjects env _ _) as [|hit rest] eqn:E; [exact H|].
  destruct H as (Hlast & Hgone & Hscene & Hdis).
  split; [intros Hnear; exact (Hnear _ _ _ _ E)|].
  split.
  { exists (newDecal env hit (b_color b) (roundOf env delta i s)).
    split; [exact Hlast|]. do 4 (split; [reflexivity|]).
    intros fixed Ht.
    assert (H2 : tidy fixed (paintballIter env delta i (roundOf env delta i s)))
      by (by apply paintballIter_tidy, roundOf_tidy).
    destruct H2 as (Hp & _). rewrite Hp.
    apply elem_of_app. right. unfold live. do 2 (apply elem_of_app; right).
    apply (list_elem_of_fmap_2 d_mesh). by apply last_Some_elem_of. }
  split; [exact Hgone|]. split; [exact Hscene|]. split; [exact Hdis|].
  exact (update_disposed env now delta i s (b_mesh b) Hlt Hdis).
Qed.

End FrameClaims.

Section Lifecycle.

Variable env : Env.

Lemma stock_paintballs s s' : stock s' = stock s -> paintballs s' = paintballs s.
Proof. unfold stock. by intros [= _ _ _ H _ _]. Qed.

(** Outside the frames only a shot changes the list of paintballs, by one
    paintball with 3 seconds to live. *)
Lemma step_paintballs s e :
  match e with
  | Frame _ _ => True
  | _ =>
      paintballs (step env s e) = paintballs s \/
      exists ball,
        paintballs (step env s e) = paintballs s ++ [ball] /\ b_life ball = 3%float
  end.
Proof.
  destruct e as [l|mx my|code t0 t1|code|button|now delta|now]; cbn [step].
  - by left.
  - left. unfold mousemove. destruct (isPointerLocked s); reflexivity.
  - left. unfold keydown. cbv zeta. destruct (String.eqb code "Tab"); [|reflexivity].
    rewrite (stock_paintballs _ _ (toggleFocusMode_stock env t0 t1 _)). reflexivity.
  - by left.
  - unfold mousedown. destruct (_ && _); [|by left].
    right. eexists. split; reflexivity.
  - exact I.
  - left. apply stock_paintballs, fovFrame_stock.
Qed.

(** C4. Paintball lifecycle.  A fired paintball starts with a life of 3
    seconds: [shootPaintball] pushes one such paintball, and outside the
    frames nothing else changes the list.  Each frame every paintball of the
    list has its round (after the rounds above it, which leave it where it
    is).  If its life, less delta, is at most 0 it is deleted from the list,
    removed from the scene and disposed in that round, and at the end of the
    frame it is disposed and, in a tidy scene, neither in the scene nor in
    the list.  If not, and it reaches no target, the ray along its path
    meets nothing and it is not below the ground, it stays in the list,
    moved and with its life decremented by delta, to the end of the frame.
    After an update every listed paintball is either a particle of an
    explosion of this frame or a paintball of the old list, moved and with
    its life decremented by delta, and none has a life of at most 0. *)
Theorem paintball_lifecycle now delta s :
  (exists ball,
     paintballs (shootPaintball env s) = paintballs s ++ [ball] /\
     b_life ball = 3%float) /\
  (forall e,
     match e with
     | Frame _ _ => True
     | _ =>
         paintballs (step env s e) = paintballs s \/
         exists ball,
           paintballs (step env s e) = paintballs s ++ [ball] /\
           b_life ball = 3%float
     end) /\
  (forall i b,
     paintballs s !! i = Some b ->
     let s1 := roundOf env delta i s in
     let s2 := paintballIter env delta i s1 in
     update env now delta s = updateCamera env now (paintballLoop env delta i s2) /\
     paintballs s1 !! i = Some b /\
     if (b_life b - delta <=? 0)%float then
       paintballs s2 = delete i (paintballs s1) /\
       (b_mesh b ∉ scene s2) /\
       (b_mesh b ∈ disposed s2) /\
       (b_mesh b ∈ disposed (update env now delta s)) /\
       (forall fixed, tidy fixed s ->
          (b_mesh b ∉ scene (update env now delta s)) /\
          Forall (fun p => b_mesh p <> b_mesh b) (paintballs (update env now delta s)))
     else
       existsb (reaches (b_position (flown delta b))) (targets s1) = false ->
       intersectObjects env
         (mkRay (b_position b) (Vector3.normalize (b_velocity b))
            (Vector3.distanceTo (b_position b) (b_position (flown delta b))))
         (buildingMeshes s ++ [ground]) = [] ->
       (vy (b_position (flown delta b)) <? 0)%float = false ->
       paintballs s2 = <[i:=flown delta b]> (paintballs s1) /\
       exists p,
         paintballs s2 !! i = Some p /\
         b_mesh p = b_mesh b /\
         b_life p = (b_life b - delta)%float /\
         forall fixed, tidy fixed s -> p ∈ paintballs (update env now delta s)) /\
  Forall (fun b' =>
            (b_life b' <=? 0)%float = false /\
            (particle b' \/ exists b0, b0 ∈ paintballs s /\ b' = flown delta b0))
         (paintballs (update env now delta s)).
Proof.
  split; [eexists; split; reflexivity|].
  split; [intros e; apply step_paintballs|].
  split.
  - intros i b Hb. cbv zeta.
    pose proof (lookup_lt_Some _ _ _ Hb) as Hlt.
    destruct (update_rounds env now delta i s b Hb) as (Hu & Hb1 & Hbm).
    split; [exact Hu|]. split; [exact Hb1|].
    destruct (b_life b - delta <=? 0)%float eqn:Hlife.
    + destruct (paintballIter_expired env delta i _ b Hb1 Hlife) as (Hp & Hs & Hd).
      assert (Hin : b_mesh b ∈ disposed (paintballIter env delta i (roundOf env delta i s))).
      { rewrite Hd. apply elem_of_app. right. by apply list_elem_of_singleton. }
      split; [exact Hp|]. split; [rewrite Hs, list_elem_of_filter; tauto|].
      split; [exact Hin|].
      exact (update_disposed env now delta i s (b_mesh b) Hlt Hin).
    + intros Hmiss Hray Hy.
      pose proof (paintballIter_raycast env delta i _ b Hb1 Hlife Hmiss) as H.
      cbv zeta in H. rewrite Hbm, Hray, Hy in H. destruct H as (_ & _ & Hp).
      split; [exact Hp|].
      assert (Hi : paintballs (paintballIter env delta i (roundOf env delta i s)) !! i
                   = Some (flown delta b)).
      { rewrite Hp. apply list_lookup_insert_eq. by apply lookup_lt_Some in Hb1. }
      exists (flown delta b). split; [exact Hi|]. do 2 (split; [reflexivity|]).
      intros fixed Ht.
      by apply (update_keeps env fixed now delta i s b).
  - apply update_Forall.
    + intros p Hp. split; [by apply particle_alive | by left].
    + intros b0 Hb0 Hb0alive. split; [exact Hb0alive | right; eauto].
Qed.

End Lifecycle.

Section FrameTargets.

Variable env : Env.

(** A round in which the paintball reaches no target leaves the targets
    alone. *)
Lemma paintballIter_targets_miss delta i s :
  (forall b, paintballs s !! i = Some b -> alive (flown delta b) ->
     existsb (reaches (b_position (flown delta b))) (targets s) = false) ->
  targets (paintballIter env delta i s) = targets s.
Proof.
  intros Hmiss.
  destruct (paintballs s !! i) as [b|] eqn:Hb.
  2:{ by rewrite paintballIter_none. }
  destruct (b_life b - delta <=? 0)%float eqn:Hlife.
  - unfold paintballIter. rewrite Hb. cbv beta zeta.
    change (b_life (set_life (b_life b - delta) b)) with (b_life b - delta)%float.
    rewrite Hlife. reflexivity.
  - rewrite (paintballIter_flight env delta i s b Hb Hlife (Hmiss b eq_refl Hlife)).
    cbv zeta. destruct (intersectObjects _ _ _).
    + destruct (_ <? 0)%float; reflexivity.
    + frame targets. rewrite addDecal_targets. reflexivity.
Qed.

Lemma paintballLoop_targets_miss (l0 : list Paintball) (ts : list Target) delta :
  (forall b, b ∈ l0 -> alive (flown delta b) ->
     existsb (reaches (b_position (flown delta b))) ts = false) ->
  forall n s,
    take n (paintballs s) = take n l0 -> targets s = ts ->
    targets (paintballLoop env delta n s) = ts.
Proof.
  intros Hmiss. induction n as [|i IH]; intros s Htake Hts; [exact Hts|].
  cbn [paintballLoop].
  assert (Hi : targets (paintballIter env delta i s) = targets s).
  { apply paintballIter_targets_miss. intros b Hb Hal. rewrite Hts.
    apply Hmiss; [|exact Hal]. apply list_elem_of_lookup. exists i.
    rewrite <- (lookup_take_lt l0 (S i) i) by lia.
    rewrite <- Htake. rewrite lookup_take_lt by lia. exact Hb. }
  apply IH; [|by rewrite Hi].
  rewrite paintballIter_take.
  replace i with (i `min` S i) at 1 2 by lia.
  rewrite <- !take_take. by rewrite Htake.
Qed.

(** C5. Target drift.  A target moves by its drift velocity times delta
    plus a sinusoidal vertical oscillation; if it is then farther than 50
    from the origin its drift velocity is negated (the multiplication by -1
    flips the signs and nothing else); and if its height is then below 2 the
    height becomes 2 and the vertical drift becomes its absolute value,
    which is not negative (and at least zero, for a velocity that is a
    number).  Each frame this happens to every target: after [update] the
    list consists of targets of the old list moved in this way, in their old
    order and without those that were hit, followed by the targets spawned
    for the hits; and when no paintball comes within reach of a target it is
    the old list with every target moved. *)
Theorem target_drift now delta s :
  (forall cameraPosition t,
     let t' := updateTarget env delta cameraPosition t in
     let oscillation := (t_oscillation t + delta)%float in
     let drifted :=
       Vector3.add (t_position t) (Vector3.multiplyScalar (t_velocity t) delta) in
     let pos :=
       mkVec3 (vx drifted)
         (vy drifted + Math_sin env (oscillation * 2) * 0.5 * delta) (vz drifted) in
     let vel :=
       if (50 <? Vector3.length pos)%float
       then mkVec3 (- vx (t_velocity t)) (- vy (t_velocity t)) (- vz (t_velocity t))
       else t_velocity t in
     t_oscillation t' = oscillation /\
     (if (vy pos <? 2)%float
      then t_position t' = mkVec3 (vx pos) 2 (vz pos) /\
           t_velocity t' = mkVec3 (vx vel) (abs (vy vel)) (vz vel) /\
           (vy (t_velocity t') <? 0)%float = false /\
           (is_nan (vy vel) = false -> (0 <=? vy (t_velocity t'))%float = true)
      else t_position t' = pos /\ t_velocity t' = vel)) /\
  (let moved := map (updateTarget env delta (c_position (camera s))) (targets s) in
   (exists kept spawned,
      targets (update env now delta s) = kept ++ spawned /\
      kept `sublist_of` moved /\
      Forall justSpawned spawned /\
      length kept + length spawned = length (targets s)) /\
   ((forall b, b ∈ paintballs s -> alive (flown delta b) ->
       existsb (reaches (b_position (flown delta b))) moved = false) ->
    targets (update env now delta s) = moved)).
Proof.
  split; [intros cameraPosition t; apply updateTarget_drift|].
  cbv zeta. split; [apply update_targets_kept|].
  intros Hmiss. unfold update, updateCamera. frame targets.
  unfold updatePaintballs. fold (beforePaintballs env delta s).
  apply (paintballLoop_targets_miss (paintballs s) _ delta Hmiss).
  - unfold beforePaintballs. by rewrite update_paintballs_before.
  - apply beforePaintballs_targets.
Qed.

End FrameTargets.

(** ** The score, hit by hit *)

Lemma tens_plusTens n : tens n = plusTens n 0.
Proof. induction n as [|n IH]; [reflexivity|]. cbn [tens]. by rewrite IH. Qed.

Lemma plusTens_add n m x : plusTens (n + m) x = plusTens n (plusTens m x).
Proof. unfold plusTens. apply Nat.iter_add. Qed.

Section Scoring.

Variable env : Env.

(** With a target in reach the loop over the targets ends in a hit. *)
Lemma targetLoop_reach b i s : forall n,
  n <= length (targets s) ->
  existsb (reaches (b_position b)) (take n (targets s)) = true ->
  exists j t, targets s !! j = Some t /\
    targetLoop env b i n s = hitTarget env b i j t s.
Proof.
  induction n as [|j IH]; intros Hn Hex; [discriminate Hex|].
  cbn [targetLoop].
  destruct (targets s !! j) as [t|] eqn:Ht.
  2:{ apply lookup_ge_None in Ht. lia. }
  destruct (Vector3.distanceTo (b_position b) (t_position t) <? t_hitRadius t)%float
    eqn:E.
  - exists j, t. by split.
  - apply IH; [lia|].
    rewrite (take_S_r _ _ t) in Hex by exact Ht.
    rewrite existsb_app in Hex. cbn [existsb] in Hex.
    unfold reaches in Hex at 2. rewrite E in Hex.
    by rewrite !orb_false_r in Hex.
Qed.

Lemma trimSplatters_score s : score (trimSplatters s) = score s.
Proof.
  unfold trimSplatters. destruct (_ <? _); [|reflexivity].
  destruct (splatters s); reflexivity.
Qed.

Lemma addDecal_score hit c s : score (addDecal env hit c s) = score s.
Proof. unfold addDecal. rewrite trimSplatters_score. reflexivity. Qed.

(** The score after a round is the score after its loop over the targets. *)
Lemma paintballIter_score delta i s b :
  paintballs s !! i = Some b ->
  score (paintballIter env delta i s) =
  if (b_life (flown delta b) <=? 0)%float then score s
  else score (targetLoop env (flown delta b) i (length (targets s))
                (set_paintballs (<[i:=flown delta b]> (paintballs s)) s)).
Proof.
  intros Hb. unfold paintballIter. rewrite Hb. cbv beta zeta.
  change (b_life (set_life (b_life b - delta) b)) with (b_life (flown delta b)).
  destruct (_ <=? _)%float; [reflexivity|].
  match goal with |- context [targetLoop env ?b' _ _ _] =>
    change b' with (flown delta b)
  end.
  rewrite paintballs_set_paintballs, list_insert_insert_eq.
  assert (Hset : forall l l' x, set_paintballs l (set_paintballs l' x) = set_paintballs l x)
    by reflexivity.
  rewrite Hset.
  change (targets (set_paintballs (<[i:=flown delta b]> (paintballs s)) s))
    with (targets s).
  set (s2 := targetLoop env _ _ _ _).
  destruct (negb _); [reflexivity|].
  destruct (intersectObjects _ _ _).
  - destruct (_ <? _)%float; reflexivity.
  - frame score. rewrite addDecal_score. reflexivity.
Qed.

(** A round adds 10 to the score if it is a hit, and nothing otherwise. *)
Lemma paintballIter_scores delta i s :
  Forall worthTen (targets s) ->
  score (paintballIter env delta i s)
  = if hitsTarget delta i s then (score s + 10)%float else score s.
Proof.
  intros Hw. unfold hitsTarget.
  destruct (paintballs s !! i) as [b|] eqn:Hb.
  2:{ by rewrite paintballIter_none. }
  rewrite (paintballIter_score delta i s b Hb).
  destruct (b_life (flown delta b) <=? 0)%float; [reflexivity|]. cbn [negb andb].
  set (s1 := set_paintballs (<[i:=flown delta b]> (paintballs s)) s).
  change (targets s) with (targets s1) in *.
  destruct (existsb (reaches (b_position (flown delta b))) (targets s1)) eqn:E.
  - destruct (targetLoop_reach (flown delta b) i s1 (length (targets s1)) (le_n _))
      as (j & t & Hj & ->).
    { by rewrite firstn_all. }
    rewrite hitTarget_score.
    rewrite Forall_forall in Hw. destruct (Hw t) as [-> _]; [|reflexivity].
    apply list_elem_of_lookup. eauto.
  - by rewrite targetLoop_miss.
Qed.

Lemma hitTarget_worthTen b i j t s :
  Forall worthTen (targets s) -> Forall worthTen (targets (hitTarget env b i j t s)).
Proof.
  intros H. destruct (hitTarget_fresh env b i j t s) as (fresh & -> & Hw & _).
  apply Forall_app. split; [by apply Forall_delete|].
  constructor; [exact Hw | constructor].
Qed.

Lemma paintballIter_worthTen delta i s :
  Forall worthTen (targets s) -> Forall worthTen (targets (paintballIter env delta i s)).
Proof.
  apply (loops_paintballIter env (fun x => Forall worthTen (targets x)));
    try (intros ? ? H; exact H).
  intros b i0 j t x _. apply hitTarget_worthTen.
Qed.

Lemma paintballLoop_worthTen delta n s :
  Forall worthTen (targets s) -> Forall worthTen (targets (paintballLoop env delta n s)).
Proof.
  apply (loops_paintballLoop env (fun x => Forall worthTen (targets x)));
    try (intros ? ? H; exact H).
  intros b i0 j t x _. apply hitTarget_worthTen.
Qed.

Lemma paintballLoop_scores delta : forall n s,
  Forall worthTen (targets s) ->
  score (paintballLoop env delta n s) = plusTens (loopHits env delta n s) (score s).
Proof.
  induction n as [|i IH]; intros s Hw; [reflexivity|].
  cbn [paintballLoop loopHits].
  rewrite IH by (by apply paintballIter_worthTen).
  rewrite (paintballIter_scores delta i s Hw), Nat.add_comm, plusTens_add.
  destruct (hitsTarget delta i s); reflexivity.
Qed.

Lemma beforePaintballs_worthTen delta s :
  Forall worthTen (targets s) -> Forall worthTen (targets (beforePaintballs env delta s)).
Proof.
  intros H. rewrite beforePaintballs_targets. apply Forall_fmap.
  eapply Forall_impl; [exact H|]. intros t [H1 H2].
  unfold compose, worthTen, updateTarget. cbv zeta.
  destruct (_ <? 2)%float; split; assumption.
Qed.

Lemma beforePaintballs_score delta s : score (beforePaintballs env delta s) = score s.
Proof.
  unfold beforePaintballs, updateTargets, updatePlayer. frame score.
  unfold updateMouseLook. destruct (isPointerLocked s); reflexivity.
Qed.

Lemma update_scores now delta s :
  Forall worthTen (targets s) ->
  score (update env now delta s) = plusTens (frameHits env delta s) (score s) /\
  Forall worthTen (targets (update env now delta s)).
Proof.
  intros Hw. unfold update, updateCamera. frame score. frame targets.
  unfold updatePaintballs. fold (beforePaintballs env delta s).
  split.
  - rewrite paintballLoop_scores by (by apply beforePaintballs_worthTen).
    by rewrite beforePaintballs_score.
  - by apply paintballLoop_worthTen, beforePaintballs_worthTen.
Qed.

Lemma step_scores s e :
  Forall worthTen (targets s) ->
  score (step env s e)
  = plusTens (match e with Frame _ delta => frameHits env delta s | _ => 0 end)
      (score s) /\
  Forall worthTen (targets (step env s e)).
Proof.
  intros Hw. pose proof (step_scoreboard env s e) as He.
  assert (Hview : forall x, scoreboard x = scoreboard s ->
            score x = plusTens 0 (score s) /\ Forall worthTen (targets x)).
  { intros x Hx. unfold scoreboard in Hx. injection Hx as Ht Hs _.
    rewrite Hs, Ht. by split. }
  destruct e as [l|mx my|code t0 t1|code|button|now delta|now];
    try exact (Hview _ He).
  cbn [step]. by apply update_scores.
Qed.

Lemma run_scores events : forall s,
  Forall worthTen (targets s) ->
  score (run env events s) = plusTens (hitsIn env events s) (score s) /\
  Forall worthTen (targets (run env events s)).
Proof.
  induction events as [|e events IH]; intros s Hw; [by split|].
  change (run env (e :: events) s) with (run env events (step env s e)).
  destruct (step_scores s e Hw) as [Hs Hw'].
  destruct (IH _ Hw') as [-> Hw'']. split; [|exact Hw''].
  cbn [hitsIn]. by rewrite Hs, Nat.add_comm, plusTens_add.
Qed.

(** X11. Every hit scores ten.  A round of the loop over the paintballs
    is a hit when its paintball is still alive and, moved, within the hit
    radius of a target.  With targets worth 10, as [createTarget] makes
    them, a round adds 10 to the score if it is a hit and leaves the score
    alone otherwise; a frame adds 10 for each of its hits; and after any
    sequence of events the score is 0 plus 10 for each hit so far, every
    target being worth 10 with a hit radius of 0.8. *)
Theorem every_hit_scores_ten :
  (forall w page events,
     let s0 := initState env w page in
     score (run env events s0) = tens (hitsIn env events s0) /\
     Forall worthTen (targets (run env events s0))) /\
  (forall now delta s,
     Forall worthTen (targets s) ->
     score (update env now delta s) = plusTens (frameHits env delta s) (score s)) /\
  (forall delta i s,
     Forall worthTen (targets s) ->
     score (paintballIter env delta i s)
     = if hitsTarget delta i s then (score s + 10)%float else score s).
Proof.
  split; [|split].
  - intros w page events. cbv zeta.
    destruct (run_scores events _ (initState_targets env w page)) as [-> Hw].
    split; [|exact Hw]. by rewrite initState_score, tens_plusTens.
  - intros now delta s Hw. by destruct (update_scores now delta s Hw).
  - intros delta i s. apply paintballIter_scores.
Qed.

End Scoring.

(** * More of the model at work *)

(** At the start no key is held. *)
Lemma opposite_keys_cancel_witness :
  keyDown (keys Demo.start) "KeyW" = keyDown (keys Demo.start) "KeyS" /\
  keyDown (keys Demo.start) "KeyA" = keyDown (keys Demo.start) "KeyD" /\
  vx (p_velocity (player (update Demo.env 0 0.015625 Demo.start))) = 0%float.
Proof.
  assert (H1 : keyDown (keys Demo.start) "KeyW" = keyDown (keys Demo.start) "KeyS")
    by (vm_compute; reflexivity).
  assert (H2 : keyDown (keys Demo.start) "KeyA" = keyDown (keys Demo.start) "KeyD")
    by (vm_compute; reflexivity).
  split; [exact H1|]. split; [exact H2|].
  pose proof (opposite_keys_cancel Demo.env 0 0.015625 Demo.start H1 H2) as [Hx _].
  exact Hx.
Defined.

(** At the start the player is in the air, half its height above the
    ground. *)
Lemma no_jump_in_the_air_witness :
  p_onGround (player Demo.start) = false /\
  player (update Demo.env 0 0.015625
            (set_keys (<["Space" := true]> (keys Demo.start)) Demo.start))
  = player (update Demo.env 0 0.015625 Demo.start).
Proof.
  assert (H : p_onGround (player Demo.start) = false) by (vm_compute; reflexivity).
  split; [exact H|].
  exact (no_jump_in_the_air Demo.env 0 0.015625 true Demo.start H).
Defined.

Lemma demo_unitRandom : unitRandom Demo.env.
Proof. intros n. vm_compute. reflexivity. Qed.

(** The demonstration environment, whose random numbers are all one half,
    builds a city of fifteen buildings. *)
Lemma city_structure_witness :
  unitRandom Demo.env /\
  exists w, generateCity Demo.env 0 = Some w /\ length (w_buildings w) = 15.
Proof.
  split; [exact demo_unitRandom|].
  pose proof (city_structure Demo.env 0) as [Htotal Hshape].
  destruct (Htotal demo_unitRandom) as [w Hw].
  exists w. split; [exact Hw|]. exact (proj1 (Hshape w Hw)).
Defined.


(** The game in the city of the demonstration environment, after a shot
    and a frame. *)
Lemma scene_stays_tidy_witness :
  generateCity Demo.env 0 = Some Play.city /\
  tidy (fixtures Play.city)
    (run Demo.env [PointerLockChange true; MouseDown 0; Frame 0 0.015625]
       (initState Demo.env Play.city Demo.page)).
Proof.
  assert (H : generateCity Demo.env 0 = Some Play.city) by (vm_compute; reflexivity).
  split; [exact H|].
  pose proof (scene_stays_tidy Demo.env) as (_ & Hrun & _ & _ & Hinit & _).
  apply Hrun. exact (Hinit 0%nat Play.city Demo.page H).
Defined.

(** The game after the first shot is tidy, and so it is with the paintball
    put elsewhere. *)
Lemma pointBlank_tidy : tidy (fixtures Demo.world) Play.pointBlank.
Proof.
  apply (movePaintball_tidy (fixtures Demo.world) 0 _ Play.ball).
  - vm_compute. reflexivity.
  - reflexivity.
  - apply run_tidy, initState_tidy; reflexivity.
Qed.

(** A paintball at the place of the last target hits it. *)
Lemma target_hit_witness :
  paintballs Play.pointBlank !! 0
    = Some (set_position (t_position Play.lastTarget) Play.ball) /\
  alive (flown 0 (set_position (t_position Play.lastTarget) Play.ball)) /\
  targets Play.pointBlank !! 29 = Some Play.lastTarget /\
  reaches (b_position (flown 0 (set_position (t_position Play.lastTarget) Play.ball)))
    Play.lastTarget = true /\
  score (paintballIter Demo.env 0 0 Play.pointBlank)
    = (score Play.pointBlank + t_score Play.lastTarget)%float.
Proof.
  set (b := set_position (t_position Play.lastTarget) Play.ball).
  assert (H1 : paintballs Play.pointBlank !! 0 = Some b) by (vm_compute; reflexivity).
  assert (H2 : alive (flown 0 b)) by (vm_compute; reflexivity).
  assert (H3 : targets Play.pointBlank !! 29 = Some Play.lastTarget)
    by (vm_compute; reflexivity).
  assert (H4 : reaches (b_position (flown 0 b)) Play.lastTarget = true)
    by (vm_compute; reflexivity).
  assert (H5 : forall k t', 29 < k -> targets Play.pointBlank !! k = Some t' ->
                 reaches (b_position (flown 0 b)) t' = false).
  { intros k t' Hk Hlook. apply lookup_lt_Some in Hlook.
    assert (Hlen : length (targets Play.pointBlank) = 30) by (vm_compute; reflexivity).
    lia. }
  split; [exact H1|]. split; [exact H2|]. split; [exact H3|]. split; [exact H4|].
  pose proof (target_hit Demo.env (fixtures Demo.world) 0 0 29 Play.pointBlank b
                Play.lastTarget pointBlank_tidy H1 H2 H3 H4 H5) as H.
  cbv zeta in H. destruct H as [H _]. exact H.
Defined.

(** A paintball that sinks below the ground where no ray finds it. *)
Lemma fallen_paintball_not_disposed_witness :
  paintballs Play.overTheEdge !! 0 = Some Play.sinking /\
  alive (flown 1 Play.sinking) /\
  existsb (reaches (b_position (flown 1 Play.sinking))) (targets Play.overTheEdge)
    = false /\
  intersectObjects Demo.env
    (mkRay (b_position Play.sinking) (Vector3.normalize (b_velocity Play.sinking))
       (Vector3.distanceTo (b_position Play.sinking)
          (b_position (flown 1 Play.sinking))))
    (buildingMeshes Play.overTheEdge ++ [ground]) = [] /\
  (vy (b_position (flown 1 Play.sinking)) <? 0)%float = true /\
  disposed (paintballIter Demo.env 1 0 Play.overTheEdge) = disposed Play.overTheEdge.
Proof.
  assert (H1 : paintballs Play.overTheEdge !! 0 = Some Play.sinking)
    by (vm_compute; reflexivity).
  assert (H2 : alive (flown 1 Play.sinking)) by (vm_compute; reflexivity).
  assert (H3 : existsb (reaches (b_position (flown 1 Play.sinking)))
                 (targets Play.overTheEdge) = false) by (vm_compute; reflexivity).
  assert (H4 : intersectObjects Demo.env
                 (mkRay (b_position Play.sinking)
                    (Vector3.normalize (b_velocity Play.sinking))
                    (Vector3.distanceTo (b_position Play.sinking)
                       (b_position (flown 1 Play.sinking))))
                 (buildingMeshes Play.overTheEdge ++ [ground]) = [])
    by (vm_compute; reflexivity).
  assert (H5 : (vy (b_position (flown 1 Play.sinking)) <? 0)%float = true)
    by (vm_compute; reflexivity).
  split; [exact H1|]. split; [exact H2|]. split; [exact H3|]. split; [exact H4|].
  split; [exact H5|].
  pose proof (fallen_paintball_not_disposed Demo.env 1 0 Play.overTheEdge Play.sinking
                H1 H2 H3 H4 H5) as H.
  cbv zeta in H. destruct H as (_ & _ & H & _). exact H.
Defined.

(** A quarter of a second into the game the player stands on the ground,
    and stays there. *)
Lemma grounded_until_jump_witness :
  p_onGround (player Play.landed) = true /\
  keyDown (keys Play.landed) "Space" = false /\
  p_onGround (player (update Demo.env 250 0.25 Play.landed)) = true.
Proof.
  assert (H1 : p_onGround (player Play.landed) = true) by (vm_compute; reflexivity).
  assert (H2 : keyDown (keys Play.landed) "Space" = false) by (vm_compute; reflexivity).
  split; [exact H1|]. split; [exact H2|].
  exact (grounded_until_jump Demo.env 250 0.25 Play.landed H1 H2).
Defined.

(** A second after its start the animation towards the broad field of view
    is over: it asks for no further frame and leaves the camera at 90. *)
Lemma fov_animation_ends_witness :
  fovAnimations (updateFOV Demo.env Play.widening 1000 Demo.start)
    = fovAnimations Demo.start /\
  is_nan ((1000 - startTime Play.widening) / 1000) = false /\
  Math_pow Demo.env 0 2 = 0%float /\
  c_fov (camera (updateFOV Demo.env Play.widening 1000 Demo.start)) = 90%float.
Proof.
  assert (H1 : fovAnimations (updateFOV Demo.env Play.widening 1000 Demo.start)
               = fovAnimations Demo.start) by (vm_compute; reflexivity).
  assert (H2 : is_nan ((1000 - startTime Play.widening) / 1000) = false)
    by (vm_compute; reflexivity).
  assert (H3 : Math_pow Demo.env 0 2 = 0%float) by (vm_compute; reflexivity).
  split; [exact H1|]. split; [exact H2|]. split; [exact H3|].
  pose proof (fov_animation_ends Demo.env Play.widening 1000 Demo.start H1 H2 H3)
    as (_ & H & _).
  exact (H eq_refl eq_refl).
Defined.

Lemma aimedDown_tidy : tidy (fixtures Demo.world) Demo.aimedDown.
Proof. apply run_tidy, initState_tidy; reflexivity. Qed.

(** The paintball shot at the ground lands in the next frame: the ray
    meets the ground, the decal is the last splatter, and at the end of the
    frame the paintball is disposed and out of the scene. *)
Lemma raycast_hit_detection_witness :
  nearestFirst Demo.env /\
  paintballs Demo.aimedDown !! 0 = Some Demo.shot /\
  alive (flown 0.015625 Demo.shot) /\
  existsb (reaches (b_position (flown 0.015625 Demo.shot)))
    (targets (roundOf Demo.env 0.015625 0 Demo.aimedDown)) = false /\
  intersectObjects Demo.env
    (mkRay (b_position Demo.shot) (Vector3.normalize (b_velocity Demo.shot))
       (Vector3.distanceTo (b_position Demo.shot)
          (b_position (flown 0.015625 Demo.shot))))
    (buildingMeshes Demo.aimedDown ++ [ground]) = [Play.impact] /\
  (exists d,
     last (splatters
             (paintballIter Demo.env 0.015625 0
                (roundOf Demo.env 0.015625 0 Demo.aimedDown))) = Some d /\
     d_position d = hit_point Play.impact /\
     d_mesh d ∈ scene (paintballIter Demo.env 0.015625 0
                         (roundOf Demo.env 0.015625 0 Demo.aimedDown))) /\
  (b_mesh Demo.shot ∈ disposed (update Demo.env 16 0.015625 Demo.aimedDown)) /\
  (b_mesh Demo.shot ∉ scene (update Demo.env 16 0.015625 Demo.aimedDown)).
Proof.
  assert (H1 : paintballs Demo.aimedDown !! 0 = Some Demo.shot)
    by (vm_compute; reflexivity).
  assert (H2 : alive (flown 0.015625 Demo.shot)) by (vm_compute; reflexivity).
  assert (H3 : existsb (reaches (b_position (flown 0.015625 Demo.shot)))
                 (targets (roundOf Demo.env 0.015625 0 Demo.aimedDown)) = false)
    by (vm_compute; reflexivity).
  assert (H4 : intersectObjects Demo.env
    (mkRay (b_position Demo.shot) (Vector3.normalize (b_velocity Demo.shot))
       (Vector3.distanceTo (b_position Demo.shot)
          (b_position (flown 0.015625 Demo.shot))))
    (buildingMeshes Demo.aimedDown ++ [ground]) = [Play.impact])
    by (vm_compute; reflexivity).
  split; [exact demo_nearestFirst|].
  split; [exact H1|]. split; [exact H2|]. split; [exact H3|]. split; [exact H4|].
  pose proof (raycast_hit_detection Demo.env 16 0.015625 0 Demo.aimedDown Demo.shot H1)
    as H.
  cbv zeta in H. destruct H as (_ & _ & H). specialize (H H2 H3).
  destruct H as [_ H]. rewrite H4 in H.
  destruct H as (_ & (d & Hlast & Hpos & _ & _ & _ & Hin) & _ & _ & _ & Hd & Ht).
  split; [exists d; split; [exact Hlast|]; split; [exact Hpos|];
          exact (Hin _ aimedDown_tidy)|].
  split; [exact Hd|].
  exact (proj1 (Ht _ aimedDown_tidy)).
Defined.

(** Three seconds later the life of the paintball shot at the ground has
    run out: it leaves the list in its round, and at the end of the frame it
    is disposed and out of the scene. *)
Lemma paintball_lifecycle_witness :
  paintballs Demo.aimedDown !! 0 = Some Demo.shot /\
  (b_life Demo.shot - 3 <=? 0)%float = true /\
  paintballs (paintballIter Demo.env 3 0 (roundOf Demo.env 3 0 Demo.aimedDown))
    = delete 0 (paintballs (roundOf Demo.env 3 0 Demo.aimedDown)) /\
  (b_mesh Demo.shot ∈ disposed (update Demo.env 16 3 Demo.aimedDown)) /\
  (b_mesh Demo.shot ∉ scene (update Demo.env 16 3 Demo.aimedDown)).
Proof.
  assert (H1 : paintballs Demo.aimedDown !! 0 = Some Demo.shot)
    by (vm_compute; reflexivity).
  assert (H2 : (b_life Demo.shot - 3 <=? 0)%float = true) by (vm_compute; reflexivity).
  split; [exact H1|]. split; [exact H2|].
  pose proof (paintball_lifecycle Demo.env 16 3 Demo.aimedDown) as (_ & _ & H & _).
  specialize (H 0 Demo.shot H1). cbv zeta in H. destruct H as (_ & _ & H).
  rewrite H2 in H. destruct H as (Hgone & _ & _ & Hd & Ht).
  split; [exact Hgone|]. split; [exact Hd|].
  exact (proj1 (Ht _ aimedDown_tidy)).
Defined.

(** With the paintball shot at the ground in flight, far from every target,
    all thirty targets drift through the frame. *)
Lemma target_drift_witness :
  paintballs Demo.aimedDown = [Demo.shot] /\
  existsb (reaches (b_position (flown 0.015625 Demo.shot)))
    (map (updateTarget Demo.env 0.015625 (c_position (camera Demo.aimedDown)))
       (targets Demo.aimedDown)) = false /\
  targets (update Demo.env 16 0.015625 Demo.aimedDown)
  = map (updateTarget Demo.env 0.015625 (c_position (camera Demo.aimedDown)))
      (targets Demo.aimedDown).
Proof.
  assert (H1 : paintballs Demo.aimedDown = [Demo.shot]) by (vm_compute; reflexivity).
  assert (H2 : existsb (reaches (b_position (flown 0.015625 Demo.shot)))
    (map (updateTarget Demo.env 0.015625 (c_position (camera Demo.aimedDown)))
       (targets Demo.aimedDown)) = false) by (vm_compute; reflexivity).
  split; [exact H1|]. split; [exact H2|].
  pose proof (target_drift Demo.env 16 0.015625 Demo.aimedDown) as (_ & H).
  cbv zeta in H. destruct H as [_ H]. apply H.
  intros b Hb _. rewrite H1 in Hb. apply list_elem_of_singleton in Hb. subst b.
  exact H2.
Defined.

(** A paintball at the place of the last target: the frame has one hit and
    the score goes from 0 to 10. *)
Lemma every_hit_scores_ten_witness :
  Forall worthTen (targets Play.pointBlank) /\
  frameHits Demo.env 0 Play.pointBlank = 1 /\
  score Play.pointBlank = 0%float /\
  score (update Demo.env 0 0 Play.pointBlank) = 10%float.
Proof.
  pose proof (every_hit_scores_ten Demo.env) as (Hrun & Hframe & _).
  assert (Ha : Forall worthTen (targets Play.armed)).
  { unfold Play.armed, Demo.start.
    exact (proj2 (Hrun Demo.world Demo.page [PointerLockChange true; MouseDown 0])). }
  assert (H1 : Forall worthTen (targets Play.pointBlank)).
  { unfold Play.pointBlank.
    assert (Hf : forall v x, targets (set_paintballs v x) = targets x) by reflexivity.
    rewrite Hf. exact Ha. }
  assert (H2 : frameHits Demo.env 0 Play.pointBlank = 1) by (vm_compute; reflexivity).
  assert (H3 : score Play.pointBlank = 0%float) by (vm_compute; reflexivity).
  split; [exact H1|]. split; [exact H2|]. split; [exact H3|].
  rewrite (Hframe 0%float 0%float Play.pointBlank H1), H2, H3. reflexivity.
Defined.
